(** * Retrieval pipeline of the avatar RAG backend

    A shallow embedding of the three core modules of the backend,

    - [backend/chunker.py]   (class [DocumentChunker]),
    - [backend/embedder.py]  (class [EmbeddingsClient]),
    - [backend/cosmos_db.py] (class [CosmosDBClient]),

    and of the logging functions they call ([backend/logger.py]),
    together with the properties the design document states about them.

    Conventions.  Python [int] is [Z]; [str] is [string] (code points
    below 256); a [list] is a [list]; a [dict] whose iteration order
    matters is an association list in insertion order; [float] values
    are the rationals they denote ([Q]); an exception is the [Raise]
    branch of [PyResult]; a method that mutates [self] or calls a
    service is a function of a state.  The tokenizer, the MD5 digest,
    the remote embedding endpoint and the document store are libraries
    or services outside the repository: they appear as record fields
    or section variables.

    Logging.  The methods take the logger as a parameter.
    [Logger.backend] is the module of the repository, whose functions
    declare the message as their only parameter ([log_error] also
    [exc_info]); a call that passes other keyword arguments to them
    raises [TypeError].  [Logger.lenient] accepts every call.  Each
    property says for which loggers it is stated. *)

From Stdlib Require Import ZArith QArith Lia Lqa String Ascii List Bool Sorted.
From stdpp Require Import base list strings.

Import ListNotations.
Local Open Scope string_scope.
Local Open Scope list_scope.
Local Open Scope Z_scope.

(** ** Python primitives *)

Module Py.

(** Exceptions that the modelled code can meet. *)
Inductive exn : Type :=
| ValueError (msg : string)
| TypeError (msg : string)
| AttributeError (msg : string)
| StopIteration
| RemoteError (msg : string).

Inductive PyResult (A : Type) : Type :=
| Ok (a : A)
| Raise (e : exn).
Arguments Ok {A} a.
Arguments Raise {A} e.

Definition bind {A B} (m : PyResult A) (k : A -> PyResult B) : PyResult B :=
  match m with
  | Ok a => k a
  | Raise e => Raise e
  end.

(** [len(s)] *)
Definition len (s : string) : Z := Z.of_nat (String.length s).
Definition llen {A} (l : list A) : Z := Z.of_nat (List.length l).

Fixpoint str_drop (n : nat) (s : string) : string :=
  match n, s with
  | O, _ => s
  | S n', EmptyString => EmptyString
  | S n', String _ s' => str_drop n' s'
  end.

Fixpoint str_take (n : nat) (s : string) : string :=
  match n, s with
  | O, _ => EmptyString
  | S n', EmptyString => EmptyString
  | S n', String c s' => String c (str_take n' s')
  end.

(** Normalisation of one slice bound against a sequence of length
    [n], as [slice.indices] does for step 1: a negative bound counts
    from the end, and everything is clamped to [0, n]. *)
Definition clamp_index (n i : Z) : Z :=
  if i <? 0 then Z.max 0 (n + i) else Z.min i n.

Definition slice_bounds (n : Z) (start stop : option Z) : Z * Z :=
  (match start with Some i => clamp_index n i | None => 0 end,
   match stop with Some j => clamp_index n j | None => n end).

(** [s[start:stop]] on a [str]. *)
Definition str_slice (s : string) (start stop : option Z) : string :=
  let '(lo, hi) := slice_bounds (len s) start stop in
  str_take (Z.to_nat (hi - lo)) (str_drop (Z.to_nat lo) s).

(** [l[start:stop]] on a [list]. *)
Definition list_slice {A} (l : list A) (start stop : option Z) : list A :=
  let '(lo, hi) := slice_bounds (llen l) start stop in
  firstn (Z.to_nat (hi - lo)) (skipn (Z.to_nat lo) l).

(** [range(start, stop, step)]; a zero step raises [ValueError]. *)
Fixpoint range_up (fuel : nat) (i stop step : Z) : list Z :=
  match fuel with
  | O => []
  | S fuel' => if i <? stop then i :: range_up fuel' (i + step) stop step else []
  end.

Definition range3 (start stop step : Z) : PyResult (list Z) :=
  if step =? 0 then Raise (ValueError "range() arg 3 must not be zero")
  else if 0 <? step then Ok (range_up (Z.to_nat (stop - start)) start stop step)
  else Ok (map (fun i => - i) (range_up (Z.to_nat (start - stop)) (- start) (- stop) (- step))).

(** [range(n)] *)
Definition range (n : Z) : list Z := map Z.of_nat (seq 0 (Z.to_nat n)).

(** [sep.join(parts)] *)
Fixpoint join (sep : string) (parts : list string) : string :=
  match parts with
  | [] => ""
  | [p] => p
  | p :: rest => p +:+ sep +:+ join sep rest
  end.

(** [xs[i] = x] for an index [0 <= i < len(xs)], the only indices
    the modelled code assigns to. *)
Definition list_assign {A} (xs : list A) (i : Z) (x : A) : list A :=
  <[Z.to_nat i := x]> xs.

(** [sum(xs)] over integers *)
Definition sum (xs : list Z) : Z := fold_left Z.add xs 0.

(** [ord(c)] *)
Definition ord (c : ascii) : Z := Z.of_nat (nat_of_ascii c).

(** [c.isspace()] for a code point below 256; the regular-expression
    class [\s] of a [str] pattern accepts the same characters. *)
Definition isspace (c : ascii) : bool :=
  let n := ord c in
  ((9 <=? n) && (n <=? 13)) || ((28 <=? n) && (n <=? 32)) || (n =? 133) || (n =? 160).

Fixpoint lstrip (s : string) : string :=
  match s with
  | EmptyString => EmptyString
  | String c s' => if isspace c then lstrip s' else s
  end.

Fixpoint str_rev_app (s acc : string) : string :=
  match s with
  | EmptyString => acc
  | String c s' => str_rev_app s' (String c acc)
  end.

Definition str_rev (s : string) : string := str_rev_app s "".

(** [s.strip()] *)
Definition strip (s : string) : string :=
  str_rev (lstrip (str_rev (lstrip s))).

(** [enumerate(xs)] *)
Fixpoint enumerate_from {A} (i : Z) (xs : list A) : list (Z * A) :=
  match xs with
  | [] => []
  | x :: rest => (i, x) :: enumerate_from (i + 1) rest
  end.

Definition enumerate {A} (xs : list A) : list (Z * A) := enumerate_from 0 xs.

(** *** Dictionaries

    Keys are strings.  The list holds the items in iteration order,
    which for a [dict] is the order of first insertion: assigning to
    a key that is present keeps its place. *)
Definition dict (V : Type) : Type := list (string * V).

Fixpoint dict_get {V} (d : dict V) (k : string) : option V :=
  match d with
  | [] => None
  | (k', v) :: rest => if String.eqb k' k then Some v else dict_get rest k
  end.

(** [d[k] = v] *)
Fixpoint dict_set {V} (d : dict V) (k : string) (v : V) : dict V :=
  match d with
  | [] => [(k, v)]
  | (k', v') :: rest =>
      if String.eqb k' k then (k', v) :: rest else (k', v') :: dict_set rest k v
  end.

(** [del d[k]] for a key that is present *)
Fixpoint dict_del {V} (d : dict V) (k : string) : dict V :=
  match d with
  | [] => []
  | (k', v') :: rest =>
      if String.eqb k' k then rest else (k', v') :: dict_del rest k
  end.

Definition dict_keys {V} (d : dict V) : list string := map fst d.

(** *** Stateful code

    A computation over a state [S] that returns or raises; the state
    reached when an exception is raised is kept, as the mutations
    made before a Python exception are. *)
Definition M (S A : Type) : Type := S -> PyResult A * S.

Definition ret {S A} (a : A) : M S A := fun s => (Ok a, s).

Definition raise {S A} (e : exn) : M S A := fun s => (Raise e, s).

Definition lift {S A} (r : PyResult A) : M S A := fun s => (r, s).

Definition mbind {S A B} (m : M S A) (k : A -> M S B) : M S B :=
  fun s =>
    match m s with
    | (Ok a, s') => k a s'
    | (Raise e, s') => (Raise e, s')
    end.

(** [try: body / except Exception as e: handler] *)
Definition try_except {S A} (body : M S A) (handler : exn -> M S A) : M S A :=
  fun s =>
    match body s with
    | (Ok a, s') => (Ok a, s')
    | (Raise e, s') => handler e s'
    end.

Definition get_state {S} : M S S := fun s => (Ok s, s).

Definition modify {S} (f : S -> S) : M S unit := fun s => (Ok tt, f s).

End Py.

Import Py.

Declare Scope py_scope.
Notation "'let?' x := m 'in' k" := (Py.bind m (fun x => k))
  (at level 10, x name, m at level 100, k at level 200) : py_scope.
Notation "'let*' x := m 'in' k" := (Py.mbind m (fun x => k))
  (at level 10, x name, m at level 100, k at level 200) : py_scope.
Local Open Scope py_scope.

(** ** [backend/logger.py]

    The four logging functions.  A call is its message and the names of
    the keyword arguments it passes; what is logged has no effect on
    the results below, whether the call is accepted has. *)

Module Logger.

Definition kwargs : Type := list string.

Record Impl : Type := {
  log_info : string -> kwargs -> PyResult unit;
  log_error : string -> kwargs -> PyResult unit;
  log_warning : string -> kwargs -> PyResult unit;
  log_debug : string -> kwargs -> PyResult unit
}.

(** Binding of keyword arguments to a function whose parameters
    after [message] are [params]: a keyword that names no parameter
    raises [TypeError]. *)
Definition check_kwargs (fname : string) (params : list string) (kw : kwargs)
  : PyResult unit :=
  match List.filter (fun k => negb (existsb (String.eqb k) params)) kw with
  | [] => Ok tt
  | k :: _ =>
      Raise (TypeError (fname +:+ "() got an unexpected keyword argument '" +:+ k +:+ "'"))
  end.

(** The module as written: [def log_info(message: str)],
    [def log_error(message: str, exc_info=False)],
    [def log_warning(message: str)], [def log_debug(message: str)]. *)
Definition backend : Impl := {|
  log_info := fun _ kw => check_kwargs "log_info" [] kw;
  log_error := fun _ kw => check_kwargs "log_error" ["exc_info"] kw;
  log_warning := fun _ kw => check_kwargs "log_warning" [] kw;
  log_debug := fun _ kw => check_kwargs "log_debug" [] kw
|}.

(** A logger whose functions also take [**kwargs]. *)
Definition lenient : Impl := {|
  log_info := fun _ _ => Ok tt;
  log_error := fun _ _ => Ok tt;
  log_warning := fun _ _ => Ok tt;
  log_debug := fun _ _ => Ok tt
|}.

(** Calls that pass the message alone return. *)
Definition plain_ok (L : Impl) : Prop :=
  forall m, log_info L m [] = Ok tt /\ log_error L m [] = Ok tt /\
            log_warning L m [] = Ok tt /\ log_debug L m [] = Ok tt.

(** Every call returns. *)
Definition accepts_kwargs (L : Impl) : Prop :=
  forall m kw, log_info L m kw = Ok tt /\ log_error L m kw = Ok tt /\
               log_warning L m kw = Ok tt /\ log_debug L m kw = Ok tt.

End Logger.

(** ** [backend/chunker.py] *)

Module Chunker.

(** The [tiktoken] encoding object: only [encode] and [decode] are
    used.  Tokens are integers.  Both are taken to return ([encode]
    of [tiktoken] raises on a text that spells a special token). *)
Record Encoding : Type := {
  encode : string -> list Z;
  decode : list Z -> string
}.

(** The fields set by [DocumentChunker.__init__].  [_enc] is [None]
    when [tiktoken] is missing or could not be initialised. *)
Record DocumentChunker : Type := {
  target_tokens : Z;
  max_tokens : Z;
  overlap_tokens : Z;
  min_chunk_tokens : Z;
  _enc : option Encoding
}.

(** A chunk dictionary [{"text", "chunk_index", "doc_id"}]. *)
Record Chunk : Type := {
  text : string;
  chunk_index : Z;
  doc_id : string
}.

Definition set_text (c : Chunk) (t : string) : Chunk :=
  {| text := t; chunk_index := chunk_index c; doc_id := doc_id c |}.

Definition set_chunk_index (c : Chunk) (i : Z) : Chunk :=
  {| text := text c; chunk_index := i; doc_id := doc_id c |}.

Section Methods.

Variable self : DocumentChunker.

Definition _count_tokens (text : string) : Z :=
  match _enc self with
  | Some enc => llen (encode enc text)
  | None => len text / 4
  end.

(** *** [_split_sentences]

    [re.split(r'(?<=[.!?])\s+', s)]: a separator is a maximal run
    of white space that directly follows one of [. ! ?].  The
    scanner keeps the piece being read (reversed) and whether the
    last character read ends a sentence. *)
Definition is_terminator (c : ascii) : bool :=
  (ord c =? 46) || (ord c =? 33) || (ord c =? 63).

Inductive scan_state : Type :=
| InPiece (after_terminator : bool)
| InSeparator.

Fixpoint re_split_go (st : scan_state) (cur : string) (s : string) : list string :=
  match s with
  | EmptyString => [str_rev cur]
  | String c rest =>
      match st with
      | InSeparator =>
          if isspace c then re_split_go InSeparator cur rest
          else re_split_go (InPiece (is_terminator c)) (String c cur) rest
      | InPiece after =>
          if after && isspace c
          then str_rev cur :: re_split_go InSeparator "" rest
          else re_split_go (InPiece (is_terminator c)) (String c cur) rest
      end
  end.

Definition re_split_sentences (s : string) : list string :=
  re_split_go (InPiece false) "" s.

Definition nonempty (s : string) : bool :=
  match s with EmptyString => false | _ => true end.

Definition _split_sentences (text : string) : list string :=
  let parts := re_split_sentences (strip text) in
  map strip (List.filter (fun p => nonempty (strip p)) parts).

(** *** [_hard_split] *)
Definition _hard_split (text : string) : PyResult (list string) :=
  match _enc self with
  | Some enc =>
      let tokens := encode enc text in
      bind (range3 0 (llen tokens) (max_tokens self)) (fun starts =>
      Ok (map (fun i => decode enc (list_slice tokens (Some i) (Some (i + max_tokens self))))
              starts))
  | None =>
      let size := max_tokens self * 4 in
      bind (range3 0 (len text) size) (fun starts =>
      Ok (map (fun i => str_slice text (Some i) (Some (i + size))) starts))
  end.

(** *** [_get_tail] *)
Definition _get_tail (text : string) (overlap_tokens : Z) : string :=
  match _enc self with
  | Some enc =>
      let tokens := encode enc text in
      if llen tokens <=? overlap_tokens then text
      else decode enc (list_slice tokens (Some (- overlap_tokens)) None)
  | None =>
      let approx_chars := overlap_tokens * 4 in
      if approx_chars <? len text
      then str_slice text (Some (- approx_chars)) None
      else text
  end.

(** *** [_merge_small_chunks]

    The loop state is [(merged, buffer)]; [buffer] is a copy, so
    extending its text leaves the input chunk alone. *)
Definition merge_step (st : list Chunk * option Chunk) (chunk : Chunk)
  : list Chunk * option Chunk :=
  let '(merged, buffer) := st in
  let tokens := _count_tokens (text chunk) in
  if tokens <? min_chunk_tokens self then
    match buffer with
    | None => (merged, Some chunk)
    | Some b =>
        let b' := set_text b (text b +:+ " " +:+ text chunk) in
        if min_chunk_tokens self <=? _count_tokens (text b')
        then (merged ++ [b'], None)
        else (merged, Some b')
    end
  else
    match buffer with
    | Some b => ((merged ++ [b]) ++ [chunk], None)
    | None => (merged ++ [chunk], None)
    end.

Fixpoint reindex (i : Z) (chunks : list Chunk) : list Chunk :=
  match chunks with
  | [] => []
  | c :: rest => set_chunk_index c i :: reindex (i + 1) rest
  end.

Definition _merge_small_chunks (chunks : list Chunk) : list Chunk :=
  match chunks with
  | [] => []
  | _ =>
      let '(merged, buffer) := fold_left merge_step chunks ([], None) in
      let merged := match buffer with Some b => merged ++ [b] | None => merged end in
      reindex 0 merged
  end.

(** *** [_apply_overlap]

    [prev] is [chunks[i-1]], taken from the input list. *)
Fixpoint overlap_from (prev : Chunk) (rest : list Chunk) : list Chunk :=
  match rest with
  | [] => []
  | chunk :: rest' =>
      let tail := _get_tail (text prev) (overlap_tokens self) in
      set_text chunk (tail +:+ " " +:+ text chunk) :: overlap_from chunk rest'
  end.

Definition _apply_overlap (chunks : list Chunk) : list Chunk :=
  if (overlap_tokens self <=? 0) || (llen chunks <? 2) then chunks
  else
    match chunks with
    | [] => []
    | first :: rest => first :: overlap_from first rest
    end.

(** *** [chunk_document]

    State of the sentence loop: [chunks], [current_sentences],
    [current_tokens]. *)
Record loop_state : Type := {
  chunks : list Chunk;
  current_sentences : list string;
  current_tokens : Z
}.

Definition append_chunk (doc : string) (cs : list Chunk) (t : string) : list Chunk :=
  cs ++ [{| text := t; chunk_index := llen cs; doc_id := doc |}].

Definition flush (doc : string) (cs : list Chunk) (sentences : list string) : list Chunk :=
  match sentences with
  | [] => cs
  | _ => append_chunk doc cs (join " " sentences)
  end.

Definition sentence_step (doc : string) (st : loop_state) (sentence : string)
  : PyResult loop_state :=
  let sentence_tokens := _count_tokens sentence in
  if max_tokens self <? sentence_tokens then
    let cs := flush doc (chunks st) (current_sentences st) in
    let (cur, tok) :=
      match current_sentences st with
      | [] => (current_sentences st, current_tokens st)
      | _ => ([], 0)
      end in
    bind (_hard_split sentence) (fun hard_chunks =>
    Ok {| chunks := fold_left (append_chunk doc) hard_chunks cs;
          current_sentences := cur;
          current_tokens := tok |})
  else if current_tokens st + sentence_tokens <=? target_tokens self then
    Ok {| chunks := chunks st;
          current_sentences := current_sentences st ++ [sentence];
          current_tokens := current_tokens st + sentence_tokens |}
  else
    Ok {| chunks := flush doc (chunks st) (current_sentences st);
          current_sentences := [sentence];
          current_tokens := sentence_tokens |}.

Fixpoint sentence_loop (doc : string) (st : loop_state) (sentences : list string)
  : PyResult loop_state :=
  match sentences with
  | [] => Ok st
  | s :: rest => bind (sentence_step doc st s) (fun st' => sentence_loop doc st' rest)
  end.

(** The list bound to [chunks] when the merge pass has run and the
    overlap pass has not: the texts of these chunks are the
    pre-overlap texts of the passages. *)
Definition pre_overlap_chunks (text : string) (doc : string) : PyResult (list Chunk) :=
  let sentences := _split_sentences text in
  let? st := sentence_loop doc {| chunks := []; current_sentences := [];
                                  current_tokens := 0 |} sentences in
  let cs := flush doc (chunks st) (current_sentences st) in
  Ok (_merge_small_chunks cs).

Variable L : Logger.Impl.

Definition chunk_document (text : string) (doc : string) : PyResult (list Chunk) :=
  let? _ := Logger.log_info L "Starting chunking" ["doc_id"; "text_length"; "sentences"] in
  let? cs := pre_overlap_chunks text doc in
  let cs := _apply_overlap cs in
  let? _ := Logger.log_info L "Chunking complete" ["doc_id"; "total_chunks"; "avg_tokens"] in
  Ok cs.

End Methods.

(** The chunker built from the default configuration
    ([CHUNK_SIZE] = 500, [CHUNK_OVERLAP] = 50) on a machine without
    [tiktoken]. *)
Definition default_chunker : DocumentChunker :=
  {| target_tokens := 500; max_tokens := 500 + 50; overlap_tokens := 50;
     min_chunk_tokens := 60; _enc := None |}.

End Chunker.

(** ** [backend/embedder.py] *)

Module Embedder.

(** An embedding vector: a list of floats. *)
Definition vector : Type := list Q.

(** The remote client.  [embeddings_create n model input dimensions]
    is the outcome of [client.embeddings.create(...)] when [n] calls
    were made before it: the vectors of [response.data], or an
    exception. *)
Record AzureOpenAI : Type := {
  embeddings_create : nat -> string -> list string -> Z -> PyResult (list vector)
}.

(** The fields of [EmbeddingsClient] that never change after
    [__init__]. *)
Record EmbeddingsClient : Type := {
  deployment : string;
  dim : Z;
  _client : option AzureOpenAI;
  _max_cache_size : Z
}.

(** What the methods read and update: the dictionary [self._cache],
    the number of remote calls made, and the waits of
    [time.sleep]. *)
Record State : Type := {
  _cache : dict vector;
  remote_calls : nat;
  slept : list Z
}.

Definition set_cache (s : State) (c : dict vector) : State :=
  {| _cache := c; remote_calls := remote_calls s; slept := slept s |}.

Definition count_call (s : State) : State :=
  {| _cache := _cache s; remote_calls := S (remote_calls s); slept := slept s |}.

Definition sleep (seconds : Z) (s : State) : State :=
  {| _cache := _cache s; remote_calls := remote_calls s; slept := slept s ++ [seconds] |}.

(** The state left by [__init__]. *)
Definition initial_state : State :=
  {| _cache := []; remote_calls := O; slept := [] |}.

(** The lists filled by the cache scan of [embed_texts]. *)
Record scan_acc : Type := {
  texts_to_embed : list string;
  indices_to_embed : list Z;
  cached_vectors : list vector;
  cached_indices : list Z
}.

Definition empty_scan : scan_acc :=
  {| texts_to_embed := []; indices_to_embed := [];
     cached_vectors := []; cached_indices := [] |}.

Section Methods.

(** [hashlib.md5(text.encode('utf-8')).hexdigest()] *)
Variable md5_hexdigest : string -> string.
Variable L : Logger.Impl.
Variable self : EmbeddingsClient.

Definition _get_cache_key (text : string) : string := md5_hexdigest text.

Definition _update_cache (key : string) (vector : vector) : M State unit :=
  let* s := get_state in
  let* _ :=
    if _max_cache_size self <=? llen (_cache s) then
      match dict_keys (_cache s) with
      | [] => raise StopIteration
      | oldest_key :: _ =>
          modify (fun s => set_cache s (dict_del (_cache s) oldest_key))
      end
    else ret tt in
  modify (fun s => set_cache s (dict_set (_cache s) key vector)).

(** The iterations of [for attempt in range(max_retries)] still to
    run; [None] is the value of a call whose loop ends without
    [return]. *)
Fixpoint retry_attempts (client : AzureOpenAI) (texts : list string) (max_retries : Z)
    (attempts : list Z) : M State (option (list vector)) :=
  match attempts with
  | [] => ret None
  | attempt :: rest =>
      try_except
        (let* s := get_state in
         let* _ := modify count_call in
         let* vectors :=
           lift (embeddings_create client (remote_calls s) (deployment self) texts
                                   (dim self)) in
         ret (Some vectors))
        (fun e =>
           if attempt <? max_retries - 1 then
             let wait_time := 2 ^ attempt in
             let* _ := lift (Logger.log_warning L "Embedding attempt failed, retrying" []) in
             let* _ := modify (sleep wait_time) in
             retry_attempts client texts max_retries rest
           else raise e)
  end.

Definition _embed_with_openai_retry (client : AzureOpenAI) (texts : list string)
    (max_retries : Z) : M State (option (list vector)) :=
  retry_attempts client texts max_retries (range max_retries).

Definition fallback_vector (i : Z) (text : string) : vector :=
  let total := sum (map ord (list_ascii_of_string text)) in
  let base := if total =? 0 then 1 else total in
  map (fun j => ((base * (j + i + 1)) mod 17) # 17) (range (dim self)).

Definition _embed_fallback (texts : list string) : M State (list vector) :=
  let* _ := lift (Logger.log_warning L "Using fallback embeddings" ["count"]) in
  ret (map (fun '(i, text) => fallback_vector i text) (enumerate texts)).

Fixpoint scan_cache (items : list (Z * string)) (acc : scan_acc) : M State scan_acc :=
  match items with
  | [] => ret acc
  | (i, text) :: rest =>
      let cache_key := _get_cache_key text in
      let* s := get_state in
      match dict_get (_cache s) cache_key with
      | Some v =>
          let* _ := lift (Logger.log_debug L "Cache hit for embedding" []) in
          scan_cache rest
            {| texts_to_embed := texts_to_embed acc;
               indices_to_embed := indices_to_embed acc;
               cached_vectors := cached_vectors acc ++ [v];
               cached_indices := cached_indices acc ++ [i] |}
      | None =>
          scan_cache rest
            {| texts_to_embed := texts_to_embed acc ++ [text];
               indices_to_embed := indices_to_embed acc ++ [i];
               cached_vectors := cached_vectors acc;
               cached_indices := cached_indices acc |}
      end
  end.

Fixpoint update_all (pairs : list (string * vector)) : M State unit :=
  match pairs with
  | [] => ret tt
  | (text, vector) :: rest =>
      let cache_key := _get_cache_key text in
      let* _ := _update_cache cache_key vector in
      update_all rest
  end.

(** The [try] statement of [embed_texts]. *)
Definition embed_uncached (to_embed : list string) : M State (list vector) :=
  try_except
    (let* fresh :=
       match _client self with
       | Some client => _embed_with_openai_retry client to_embed 3
       | None => let* vs := _embed_fallback to_embed in ret (Some vs)
       end in
     match fresh with
     | None => raise (TypeError "'NoneType' object is not iterable")
     | Some new_vectors =>
         let* _ := update_all (combine to_embed new_vectors) in
         ret new_vectors
     end)
    (fun e =>
       let* _ := lift (Logger.log_error L "Embeddings generation failed" ["fallback"]) in
       _embed_fallback to_embed).

Definition assign_all (vectors : list (option vector)) (pairs : list (Z * vector))
  : list (option vector) :=
  fold_left (fun vs '(idx, vec) => list_assign vs idx (Some vec)) pairs vectors.

(** The result may hold [None] where no vector was assigned. *)
Definition embed_texts (texts : list string) : M State (list (option vector)) :=
  match texts with
  | [] => ret []
  | _ =>
      let* acc := scan_cache (enumerate texts) empty_scan in
      let* new_vectors :=
        match texts_to_embed acc with
        | [] => ret []
        | _ =>
            let* _ := lift (Logger.log_info L "Generating embeddings"
                                            ["total"; "cached"; "new"]) in
            embed_uncached (texts_to_embed acc)
        end in
      let vectors := replicate (List.length texts) None in
      let vectors := assign_all vectors (combine (cached_indices acc) (cached_vectors acc)) in
      let vectors := assign_all vectors (combine (indices_to_embed acc) new_vectors) in
      let* _ := lift (Logger.log_info L "Embeddings ready" ["count"; "elapsed_ms"]) in
      ret vectors
  end.

End Methods.

End Embedder.

(** ** [backend/cosmos_db.py] *)

Module Cosmos.

(** A record returned by the vector query; [item.get(key)] is [None]
    when the key is missing. *)
Record Item : Type := {
  item_id : option string;
  item_filename : option string;
  item_text : option string;
  item_chunk_index : option Z;
  item_distance : option Q
}.

Record Result : Type := {
  id : option string;
  filename : option string;
  text : option string;
  chunk_index : option Z;
  similarity : Q
}.

(** The container: the outcome of the [SELECT TOP @top_k ... ORDER BY
    VectorDistance(c.embedding, @embedding)] query for its two
    parameters, the records it yields or an exception. *)
Record ContainerProxy : Type := {
  query_items : list Q -> Z -> PyResult (list Item)
}.

Record CosmosDBClient : Type := {
  connected : bool;
  container : option ContainerProxy;
  document_count : Z
}.

(** What a call does that its caller can observe besides the value
    returned. *)
Inductive event : Type :=
| Queried (embedding : list Q) (top_k : Z)
| Logged (level : string) (message : string).

Definition is_query (e : event) : bool :=
  match e with Queried _ _ => true | Logged _ _ => false end.

Section Methods.

Variable L : Logger.Impl.
Variable self : CosmosDBClient.

Definition is_available : bool :=
  connected self && match container self with Some _ => true | None => false end.

Definition has_documents : bool := 0 <? document_count self.

Definition emit (e : event) : M (list event) unit := modify (fun tr => tr ++ [e]).

Definition say (call : string -> Logger.kwargs -> PyResult unit) (level message : string)
    (kw : Logger.kwargs) : M (list event) unit :=
  let* _ := lift (call message kw) in
  emit (Logged level message).

(** The loop over [items]. *)
Fixpoint collect (items : list Item) (min_similarity : Q) : list Result :=
  match items with
  | [] => []
  | item :: rest =>
      let distance := match item_distance item with Some d => d | None => 1 end in
      let similarity := 1 - distance in
      if Qle_bool min_similarity similarity then
        {| id := item_id item; filename := item_filename item; text := item_text item;
           chunk_index := item_chunk_index item; similarity := similarity |}
          :: collect rest min_similarity
      else collect rest min_similarity
  end%Q.

Definition search_similar (query_vector : list Q) (top_k : Z) (min_similarity : Q)
  : M (list event) (list Result) :=
  if negb is_available then
    let* _ := say (Logger.log_error L) "ERROR" "Cosmos DB not available for search" [] in
    ret []
  else if negb has_documents then
    let* _ := say (Logger.log_info L) "INFO" "Container empty, skipping vector search" [] in
    ret []
  else
    try_except
      (let* items :=
         match container self with
         | None => raise (AttributeError "'NoneType' object has no attribute 'query_items'")
         | Some c =>
             let* _ := emit (Queried query_vector top_k) in
             lift (query_items c query_vector top_k)
         end in
       let results := collect items min_similarity in
       let* _ := say (Logger.log_info L) "INFO" "Vector search complete" ["returned"] in
       ret results)
      (fun e =>
         let* _ := say (Logger.log_error L) "ERROR" "Vector search failed" [] in
         ret []).

End Methods.

End Cosmos.

(** * The rest of the backend

    The methods of [backend/cosmos_db.py] that write to the store or
    list it, [backend/processor.py], [backend/chat.py] and the
    validation of [backend/config.py].  The Azure SDK objects, the
    file readers, [uuid.uuid4] and the clock are outside the
    repository: they are record fields or section variables. *)

From stdpp Require pretty.

Module PyMore.

(** [str(e)] for the exceptions of [Py.exn]. *)
Definition exn_str (e : exn) : string :=
  match e with
  | ValueError msg => msg
  | TypeError msg => msg
  | AttributeError msg => msg
  | StopIteration => ""
  | RemoteError msg => msg
  end.

(** [str(i)] for an [int]. *)
Definition str_of_int (i : Z) : string := pretty.pretty i.

(** The one-character string of a code point. *)
Definition chr (n : nat) : string := String (ascii_of_nat n) "".

(** ["\n"] *)
Definition nl : string := chr 10.

(** A computation on one component of a pair of states. *)
Definition on_fst {S T A} (m : M S A) : M (S * T) A :=
  fun '(s, t) => let '(r, s') := m s in (r, (s', t)).

Definition on_snd {S T A} (m : M T A) : M (S * T) A :=
  fun '(s, t) => let '(r, t') := m t in (r, (s, t')).

(** A block that owns a local variable: [init] is its value at the
    start, the result is its value at the end. *)
Definition with_local {S T} (init : T) (m : M (S * T) unit) : M S T :=
  fun s =>
    match m (s, init) with
    | (Ok _, (s', t)) => (Ok t, s')
    | (Raise e, (s', _)) => (Raise e, s')
    end.

(** [for x in xs: body(x)] *)
Fixpoint for_each {S A} (body : A -> M S unit) (xs : list A) : M S unit :=
  match xs with
  | [] => ret tt
  | x :: rest => let* _ := body x in for_each body rest
  end.

End PyMore.

Import PyMore.

(** ** [backend/cosmos_db.py]: connecting, counting, writing, listing *)

Module Store.

Import Cosmos.

Definition set_connected (c : CosmosDBClient) (b : bool) : CosmosDBClient :=
  {| connected := b; container := container c; document_count := document_count c |}.

Definition set_container (c : CosmosDBClient) (p : option ContainerProxy) : CosmosDBClient :=
  {| connected := connected c; container := p; document_count := document_count c |}.

Definition set_document_count (c : CosmosDBClient) (n : Z) : CosmosDBClient :=
  {| connected := connected c; container := container c; document_count := n |}.

(** What [_connect] reads and calls: the import flag, the
    credentials, and the outcomes of [CosmosClient(...)],
    [create_database_if_not_exists], [get_container_client] and
    [container.read()]. *)
Record Azure : Type := {
  HAS_COSMOS : bool;
  endpoint : string;
  key : string;
  new_client : PyResult unit;
  create_database_if_not_exists : PyResult unit;
  get_container_client : PyResult ContainerProxy;
  container_read : PyResult unit
}.

Section Methods.

(** The chunk dictionaries that [upsert_chunks] receives and the
    dictionaries that the listing query yields. *)
Variable Doc : Type.
Variable Summary : Type.

(** The requests to the container other than the vector query. *)
Inductive request : Type :=
| CountQuery
| UpsertItem (chunk : Doc)
| ListQuery
| IdQuery (doc_id : string)
| DeleteItem (item partition_key : string).

(** The methods of the container that [search_similar] does not
    use.  Each outcome may depend on the number of requests made
    before: the items of [SELECT VALUE COUNT(1) FROM c], the outcome
    of [upsert_item(chunk)], the items of the [SELECT DISTINCT]
    listing, the outcome of the comprehension
    [[item["id"] for item in query_items(... WHERE c.doc_id = @doc_id)]]
    (the identifiers, or the exception of the query or of an item
    without ["id"]), and the outcome of
    [delete_item(item=..., partition_key=...)]. *)
Record ContainerOps : Type := {
  count_query : nat -> PyResult (list Z);
  upsert_item : nat -> Doc -> PyResult unit;
  list_query : nat -> PyResult (list Summary);
  ids_query : nat -> string -> PyResult (list string);
  delete_item : nat -> string -> string -> PyResult unit
}.

(** The attributes of the client that its methods read
    ([self.client] and [self.database] are used inside [_connect]
    only), and the requests made so far. *)
Record State : Type := {
  client : CosmosDBClient;
  requests : list request
}.

Definition on_client (f : CosmosDBClient -> CosmosDBClient) (s : State) : State :=
  {| client := f (client s); requests := requests s |}.

Definition add_request (r : request) (s : State) : State :=
  {| client := client s; requests := requests s ++ [r] |}.

(** The state left by the assignments of [__init__] before
    [_connect]. *)
Definition initial_state : State :=
  {| client := {| connected := false; container := None; document_count := 0 |};
     requests := [] |}.

Variable L : Logger.Impl.
Variable ops : ContainerOps.

(** [self.container.<method>(...)]: an [AttributeError] when
    [self.container] is [None]. *)
Definition container_call {A} (method : string) (r : request) (outcome : nat -> PyResult A)
  : M State A :=
  fun s =>
    match container (client s) with
    | None =>
        (Raise (AttributeError ("'NoneType' object has no attribute '" +:+ method +:+ "'")), s)
    | Some _ => (outcome (length (requests s)), add_request r s)
    end.

Definition _update_document_count : M State unit :=
  try_except
    (let* items := container_call "query_items" CountQuery (count_query ops) in
     let* _ := modify (on_client (fun c =>
                 set_document_count c (match items with x :: _ => x | [] => 0 end))) in
     lift (Logger.log_info L "Document count updated" ["count"]))
    (fun e =>
       let* _ := lift (Logger.log_warning L "Failed to get document count" []) in
       modify (on_client (fun c => set_document_count c 0))).

Variable azure : Azure.

Definition _connect : M State unit :=
  if negb (HAS_COSMOS azure) then
    lift (Logger.log_error L "azure-cosmos package not installed" [])
  else if negb (Chunker.nonempty (endpoint azure)) || negb (Chunker.nonempty (key azure)) then
    lift (Logger.log_warning L "Cosmos DB credentials missing" [])
  else
    try_except
      (let* _ := lift (new_client azure) in
       let* _ := lift (create_database_if_not_exists azure) in
       let* _ :=
         try_except
           (let* c := lift (get_container_client azure) in
            let* _ := modify (on_client (fun cl => set_container cl (Some c))) in
            let* _ := lift (container_read azure) in
            lift (Logger.log_info L "Container found and accessible" []))
           (fun get_error =>
              let* _ := lift (Logger.log_error L "Container not found in database" []) in
              let* _ := lift (Logger.log_error L "Error details" []) in
              let* _ := lift (Logger.log_error L "Please create the container manually" []) in
              let* _ := lift (Logger.log_error L "  - Partition key: /id" []) in
              let* _ := lift (Logger.log_error L "  - Vector embedding path: /embedding" []) in
              let* _ := lift (Logger.log_error L "  - Data type: float32" []) in
              let* _ := lift (Logger.log_error L "  - Dimensions" []) in
              let* _ := lift (Logger.log_error L "  - Distance function: cosine" []) in
              let* _ := lift (Logger.log_error L "  - Index type: quantizedFlat" []) in
              (* [raise Exception(...)]: the class plays no role, every handler
                 catches [Exception] *)
              raise (RemoteError "Container not found. Create it manually in Azure Portal first.")) in
       let* _ := _update_document_count in
       let* _ := modify (on_client (fun cl => set_connected cl true)) in
       lift (Logger.log_info L "Connected to Cosmos DB" ["database"; "container"]))
      (fun e =>
         let* _ := lift (Logger.log_error L "Failed to connect to Cosmos DB" []) in
         modify (on_client (fun cl => set_connected cl false))).

(** One iteration of the loop of [upsert_chunks]; the local
    [success_count] is the second component of the state. *)
Definition upsert_step (chunk : Doc) : M (State * Z) unit :=
  try_except
    (let* _ := on_fst (container_call "upsert_item" (UpsertItem chunk)
                         (fun n => upsert_item ops n chunk)) in
     let* _ := modify (fun p : State * Z => (fst p, snd p + 1)) in
     lift (Logger.log_debug L "Chunk upserted" ["id"]))
    (fun e => lift (Logger.log_error L "Failed to upsert chunk" ["id"])).

Definition upsert_chunks (chunks : list Doc) : M State Z :=
  let* s := get_state in
  if negb (is_available (client s)) then
    let* _ := lift (Logger.log_error L "Cosmos DB not available for upsert" []) in
    ret 0
  else
    let* success_count := with_local 0 (for_each upsert_step chunks) in
    let* _ := if 0 <? success_count then _update_document_count else ret tt in
    let* _ := lift (Logger.log_info L "Batch upsert complete"
                                    ["total"; "success"; "failed"; "elapsed_ms"]) in
    ret success_count.

Definition list_documents : M State (list Summary) :=
  let* s := get_state in
  if negb (is_available (client s)) then
    let* _ := lift (Logger.log_error L "Cosmos DB not available" []) in
    ret []
  else
    try_except
      (let* docs := container_call "query_items" ListQuery (list_query ops) in
       let* _ := lift (Logger.log_info L "Documents listed" ["count"]) in
       ret docs)
      (fun e =>
         let* _ := lift (Logger.log_error L "Failed to list documents" []) in
         ret []).

(** One iteration of the loop of [delete_document]; the local
    [deleted] is the second component of the state. *)
Definition delete_step (doc_id chunk_id : string) : M (State * Z) unit :=
  try_except
    (let* _ := on_fst (container_call "delete_item" (DeleteItem chunk_id doc_id)
                         (fun n => delete_item ops n chunk_id doc_id)) in
     modify (fun p : State * Z => (fst p, snd p + 1)))
    (fun e => lift (Logger.log_warning L "Failed to delete chunk" ["id"])).

Definition delete_document (doc_id : string) : M State Z :=
  let* s := get_state in
  if negb (is_available (client s)) then
    let* _ := lift (Logger.log_error L "Cosmos DB not available for delete" []) in
    ret 0
  else
    try_except
      (let* chunk_ids := container_call "query_items" (IdQuery doc_id)
                           (fun n => ids_query ops n doc_id) in
       let* deleted := with_local 0 (for_each (delete_step doc_id) chunk_ids) in
       let* _ := lift (Logger.log_info L "Document deleted" ["doc_id"; "chunks_deleted"]) in
       ret deleted)
      (fun e =>
         let* _ := lift (Logger.log_error L "Failed to delete document" ["doc_id"]) in
         ret 0).

End Methods.

Arguments CountQuery {Doc}.
Arguments IdQuery {Doc} doc_id.
Arguments DeleteItem {Doc} item partition_key.
Arguments ids_query {Doc Summary} c n doc_id.
Arguments delete_item {Doc Summary} c n item partition_key.
Arguments delete_step {Doc Summary} L ops doc_id chunk_id.
Arguments delete_document {Doc Summary} L ops doc_id.
Arguments UpsertItem {Doc} chunk.
Arguments ListQuery {Doc}.
Arguments client {Doc} s.
Arguments requests {Doc} s.
Arguments count_query {Doc Summary} c n.
Arguments upsert_item {Doc Summary} c n chunk.
Arguments list_query {Doc Summary} c n.
Arguments on_client {Doc} f s.
Arguments add_request {Doc} r s.
Arguments initial_state {Doc}.
Arguments container_call {Doc A} method r outcome.
Arguments _update_document_count {Doc Summary} L ops.
Arguments _connect {Doc Summary} L ops azure.
Arguments upsert_step {Doc Summary} L ops chunk.
Arguments upsert_chunks {Doc Summary} L ops chunks.
Arguments list_documents {Doc Summary} L ops.

End Store.

(** ** [backend/processor.py] *)

Module Processor.

(** The dictionary that [process_file] builds for a passage. *)
Record CosmosDoc : Type := {
  id : string;
  filename : string;
  chunk_index : Z;
  text : string;
  embedding : option Embedder.vector;
  uploaded_at : string;
  text_length : Z
}.

(** The dictionary that [process_file] returns: [success] false with
    an error, or true with the statistics. *)
Inductive ProcessResult : Type :=
| Failed (error : string)
| Processed (id filename : string) (total_chunks stored_chunks text_length : Z)
            (uploaded_at : string).

(** The outcomes of [_extract_from_txt], [_extract_from_pdf] and
    [_extract_from_docx] on the file. *)
Record Readers : Type := {
  from_txt : PyResult string;
  from_pdf : PyResult string;
  from_docx : PyResult string
}.

(** The objects held by a [DocumentProcessor]: [embedder] with its
    state, and the store client. *)
Definition State : Type := (Embedder.State * Store.State CosmosDoc)%type.

Section Methods.

Variable md5_hexdigest : string -> string.
Variable L : Logger.Impl.
Variable chunker : Chunker.DocumentChunker.
Variable embedder : Embedder.EmbeddingsClient.
Variable Summary : Type.
Variable ops : Store.ContainerOps CosmosDoc Summary.

(** [ext] is [filepath.suffix.lower()]. *)
Definition _extract_text (readers : Readers) (ext : string) : PyResult string :=
  match (if String.eqb ext ".txt" || String.eqb ext ".md" then from_txt readers
         else if String.eqb ext ".pdf" then from_pdf readers
         else if String.eqb ext ".docx" then from_docx readers
         else Ok "") with
  | Ok extracted => Ok extracted
  | Raise e =>
      let? _ := Logger.log_error L "Text extraction failed" ["filepath"] in
      Ok ""
  end.

Definition cosmos_doc (doc_id filename current_time : string)
    (item : Z * (Chunker.Chunk * option Embedder.vector)) : CosmosDoc :=
  let '(i, (chunk, embedding)) := item in
  {| id := doc_id +:+ "::" +:+ str_of_int i;
     filename := filename;
     chunk_index := i;
     text := Chunker.text chunk;
     embedding := embedding;
     uploaded_at := current_time;
     text_length := len (Chunker.text chunk) |}.

(** [doc_id] is the value of [str(uuid.uuid4())], [current_time]
    that of [datetime.utcnow().isoformat()]. *)
Definition process_file (readers : Readers) (ext filename doc_id current_time : string)
  : M State ProcessResult :=
  let* _ := lift (Logger.log_info L "Processing file" ["filename"]) in
  try_except
    (let* extracted := lift (_extract_text readers ext) in
     if negb (Chunker.nonempty extracted) then
       ret (Failed "No text could be extracted from file")
     else
       let* chunks := lift (Chunker.chunk_document chunker L extracted doc_id) in
       match chunks with
       | [] => ret (Failed "No chunks generated from document")
       | _ =>
           let chunk_texts := map Chunker.text chunks in
           let* embeddings :=
             on_fst (Embedder.embed_texts md5_hexdigest L embedder chunk_texts) in
           if negb (llen embeddings =? llen chunks) then
             ret (Failed "Embedding count mismatch")
           else
             let cosmos_docs :=
               map (cosmos_doc doc_id filename current_time)
                   (enumerate (combine chunks embeddings)) in
             let* success_count := on_snd (Store.upsert_chunks L ops cosmos_docs) in
             let result :=
               Processed doc_id filename (llen chunks) success_count (len extracted)
                         current_time in
             let* _ := lift (Logger.log_info L "File processed successfully"
                                             ["filename"; "chunks"]) in
             ret result
       end)
    (fun e =>
       let* _ := lift (Logger.log_error L "File processing failed" ["filename"]) in
       ret (Failed (exn_str e))).

End Methods.

Arguments process_file md5_hexdigest L chunker embedder {Summary} ops readers ext filename
  doc_id current_time.

End Processor.

(** ** [backend/chat.py] *)

Module Chat.

(** A message dictionary [{"role", "content"}]. *)
Record Message : Type := {
  role : string;
  content : string
}.

(** A record of the [SELECT DISTINCT c.doc_id, c.filename,
    c.uploaded_at] listing; a field is [None] when the record lacks
    the key. *)
Record DocSummary : Type := {
  summary_doc_id : option string;
  summary_filename : option string;
  summary_uploaded_at : option string
}.

(** The chat client of the SDK: the outcome of
    [chat.completions.create(model, messages)] and of the reads of
    the response ([choices[0].message.content] and the token counts)
    when [n] calls were made before, the answer or an exception. *)
Record AzureOpenAI : Type := {
  completions_create : nat -> string -> list Message -> PyResult string
}.

(** The attributes of a [ChatClient] that its methods read. *)
Record ChatClient : Type := {
  deployment : string;
  embedder : Embedder.EmbeddingsClient;
  cosmos : Cosmos.CosmosDBClient;
  _client : option AzureOpenAI;
  _available_docs_cache : option string
}.

(** What [chat_with_rag] changes: the state of the embedder, what
    the store client did, the number of completion calls, and the
    waits of [time.sleep]. *)
Record State : Type := {
  embed_state : Embedder.State;
  events : list Cosmos.event;
  chat_calls : nat;
  chat_slept : list Z
}.

Definition on_embedder {A} (m : M Embedder.State A) : M State A :=
  fun s =>
    let '(r, e) := m (embed_state s) in
    (r, {| embed_state := e; events := events s;
           chat_calls := chat_calls s; chat_slept := chat_slept s |}).

Definition on_events {A} (m : M (list Cosmos.event) A) : M State A :=
  fun s =>
    let '(r, tr) := m (events s) in
    (r, {| embed_state := embed_state s; events := tr;
           chat_calls := chat_calls s; chat_slept := chat_slept s |}).

Definition count_chat_call (s : State) : State :=
  {| embed_state := embed_state s; events := events s;
     chat_calls := S (chat_calls s); chat_slept := chat_slept s |}.

Definition chat_sleep (seconds : Z) (s : State) : State :=
  {| embed_state := embed_state s; events := events s;
     chat_calls := chat_calls s; chat_slept := chat_slept s ++ [seconds] |}.

(** The literal that [_build_messages] starts the system message
    with. *)
Definition system_prompt : string :=
  "Eres un asistente virtual que responde preguntas usando la base de conocimiento." +:+ nl +:+
  nl +:+
  "Instrucciones:" +:+ nl +:+
  "- Usa el contexto para responder" +:+ nl +:+
  "- Respuestas claras y breves (2-3 frases)" +:+ nl +:+
  "- Si no hay informaci" +:+ chr 243 +:+ "n relevante, ind" +:+ chr 237 +:+ "calo" +:+ nl +:+
  "- Responde en espa" +:+ chr 241 +:+ "ol" +:+ nl.

Definition docs_heading : string :=
  nl +:+ nl +:+ "DOCUMENTOS DISPONIBLES EN LA BASE DE CONOCIMIENTO:" +:+ nl.

Definition context_heading : string :=
  nl +:+ nl +:+ "CONTEXTO RELEVANTE PARA ESTA PREGUNTA:" +:+ nl.

Definition unavailable_message : string :=
  "Lo siento, el servicio de chat no est" +:+ chr 225 +:+ " disponible en este momento.".

Definition error_message : string :=
  "Lo siento, hubo un error al procesar tu pregunta. Por favor intenta de nuevo.".

(** [conversation_history] and [available_docs] default to [None]. *)
Definition _build_messages (user_message context : string)
    (conversation_history : option (list Message)) (available_docs : option string)
  : list Message :=
  let system_message := system_prompt in
  let system_message :=
    match available_docs with
    | Some docs =>
        if Chunker.nonempty docs then system_message +:+ docs_heading +:+ docs
        else system_message
    | None => system_message
    end in
  let system_message :=
    if Chunker.nonempty context then system_message +:+ context_heading +:+ context
    else system_message in
  let messages := [{| role := "system"; content := system_message |}] in
  let messages :=
    match conversation_history with
    | Some (m :: history) => messages ++ list_slice (m :: history) (Some (-5)) None
    | _ => messages
    end in
  messages ++ [{| role := "user"; content := user_message |}].

(** [doc.get(key, 'unknown')] *)
Definition get_or_unknown (field : option string) : string :=
  match field with Some v => v | None => "unknown" end.

Definition doc_line (doc : DocSummary) : string :=
  "- " +:+ get_or_unknown (summary_filename doc) +:+ " (subido: " +:+
  get_or_unknown (summary_uploaded_at doc) +:+ ")".

(** The context line of a search result.  The result dictionaries
    of [search_similar] hold every key, with [None] where the stored
    record lacked it: [chunk.get("text", "")] is then [None], whose
    [strip] raises, and the file name is rendered as ["None"]. *)
Definition context_part (chunk : Cosmos.Result) : PyResult string :=
  let? stripped :=
    match Cosmos.text chunk with
    | Some t => Ok (strip t)
    | None => Raise (AttributeError "'NoneType' object has no attribute 'strip'")
    end in
  let filename := match Cosmos.filename chunk with Some f => f | None => "None" end in
  Ok ("[" +:+ filename +:+ "] " +:+ stripped).

Fixpoint context_parts (chunks : list Cosmos.Result) : PyResult (list string) :=
  match chunks with
  | [] => Ok []
  | chunk :: rest =>
      let? part := context_part chunk in
      let? parts := context_parts rest in
      Ok (part :: parts)
  end.

Section Methods.

Variable md5_hexdigest : string -> string.
Variable L : Logger.Impl.
Variable self : ChatClient.

(** [self.cosmos.list_documents()] on the store client, whose
    other container methods are [ops]. *)
Definition _get_available_documents {Doc} (ops : Store.ContainerOps Doc DocSummary)
  : M (Store.State Doc) string :=
  try_except
    (let* docs := Store.list_documents L ops in
     match docs with
     | [] => ret "No hay documentos en la base de conocimiento."
     | _ => ret (join nl (map doc_line docs))
     end)
    (fun e =>
       let* _ := lift (Logger.log_error L "Failed to get document list" []) in
       ret "No se pudo obtener la lista de documentos.").

(** The store's answer to the vector query when the embedding
    parameter is [None] ([embed_texts] leaves [None] where the
    endpoint returned no vector). *)
Variable null_query : Z -> PyResult (list Cosmos.Item).

(** The float [0.6]. *)
Definition min_similarity : Q := 5404319552844595 # 9007199254740992.

(** [self.cosmos.search_similar(query_vector, top_k, 0.6)] for a
    [query_vector] that is a vector or [None].  The method runs the
    same way for [None]; only the store's answer is another, and the
    event of the request shows an empty embedding. *)
Definition search (query_vector : option Embedder.vector) (top_k : Z)
  : M (list Cosmos.event) (list Cosmos.Result) :=
  match query_vector with
  | Some q => Cosmos.search_similar L (cosmos self) q top_k min_similarity
  | None =>
      Cosmos.search_similar L
        (Store.set_container (cosmos self)
           (match Cosmos.container (cosmos self) with
            | Some _ => Some {| Cosmos.query_items := fun _ k => null_query k |}
            | None => None
            end))
        [] top_k min_similarity
  end.

Definition _get_relevant_context (query : string) (top_k : Z) : M State string :=
  try_except
    (let* query_vectors :=
       on_embedder (Embedder.embed_texts md5_hexdigest L (embedder self) [query]) in
     match query_vectors with
     | [] => ret ""
     | query_vector :: _ =>
         let* similar_chunks := on_events (search query_vector top_k) in
         match similar_chunks with
         | [] => ret ""
         | _ =>
             let* parts := lift (context_parts similar_chunks) in
             let context := join (nl +:+ nl) parts in
             let* _ := lift (Logger.log_info L "Context retrieved"
                                             ["chunks"; "context_length"]) in
             ret context
         end
     end)
    (fun e =>
       let* _ := lift (Logger.log_error L "Context retrieval failed" []) in
       ret "").

(** The iterations of [for attempt in range(max_retries)] still to
    run; [None] is the value of a call whose loop ends without
    [return]. *)
Fixpoint chat_attempts (client : AzureOpenAI) (messages : list Message) (max_retries : Z)
    (attempts : list Z) : M State (option string) :=
  match attempts with
  | [] => ret None
  | attempt :: rest =>
      try_except
        (let* s := get_state in
         let* _ := modify count_chat_call in
         let* answer := lift (completions_create client (chat_calls s) (deployment self)
                                                 messages) in
         let* _ := lift (Logger.log_info L "Chat response generated"
                           ["prompt_tokens"; "completion_tokens"; "total_tokens"; "attempt"]) in
         ret (Some answer))
        (fun e =>
           if attempt <? max_retries - 1 then
             let wait_time := 2 ^ attempt in
             let* _ := lift (Logger.log_warning L "Chat attempt failed, retrying" []) in
             let* _ := modify (chat_sleep wait_time) in
             chat_attempts client messages max_retries rest
           else
             let* _ := lift (Logger.log_error L "Chat completion failed" []) in
             ret (Some error_message))
  end.

(** [top_k] defaults to 3. *)
Definition chat_with_rag (user_message : string)
    (conversation_history : option (list Message)) (top_k : Z) : M State (option string) :=
  match _client self with
  | None => ret (Some unavailable_message)
  | Some client =>
      let* _ := lift (Logger.log_info L "Processing chat request" ["message_length"]) in
      let available_docs := _available_docs_cache self in
      let* context := _get_relevant_context user_message top_k in
      let messages := _build_messages user_message context conversation_history
                                      available_docs in
      let max_retries := 3 in
      chat_attempts client messages max_retries (range max_retries)
  end.

End Methods.

Arguments _get_available_documents L {Doc} ops.

End Chat.

(** ** [backend/config.py] *)

Module Config.

(** The five settings that [validate] requires. *)
Record AvatarRAGConfig : Type := {
  speech_key : string;
  openai_endpoint : string;
  openai_api_key : string;
  cosmos_endpoint : string;
  cosmos_key : string
}.

Definition required (self : AvatarRAGConfig) : list (string * string) :=
  [ ("AZURE_SPEECH_KEY", speech_key self);
    ("AZURE_OPENAI_ENDPOINT", openai_endpoint self);
    ("AZURE_OPENAI_API_KEY", openai_api_key self);
    ("COSMOS_ENDPOINT", cosmos_endpoint self);
    ("COSMOS_KEY", cosmos_key self) ].

Definition missing (self : AvatarRAGConfig) : list string :=
  map fst (List.filter (fun '(name, value) => negb (Chunker.nonempty value)) (required self)).

Definition validate (self : AvatarRAGConfig) : PyResult unit :=
  match missing self with
  | [] => Ok tt
  | names =>
      Raise (ValueError ("Missing required environment variables: " +:+ join ", " names +:+
                         ". " +:+ "Please check your .env file."))
  end.

End Config.

(** * Vocabulary of the properties *)

Module Spec.

Import Chunker.

(** ** Tokenizers *)

(** What the properties of the exact mode need from the tokenizer:
    encoding a decoded token sequence yields no more tokens than it
    had, and a text that is not empty has a token. *)
Definition tokenizer_contract (enc : Encoding) : Prop :=
  (forall ts, llen (encode enc (decode enc ts)) <= llen ts) /\
  (forall t, t <> "" -> encode enc t <> []).

(** A tokenizer with one token per character. *)
Definition char_encoding : Encoding := {|
  encode := fun s => map ord (list_ascii_of_string s);
  decode := fun ts => string_of_list_ascii (map (fun t => ascii_of_nat (Z.to_nat t)) ts)
|}.

Definition exact_chunker : DocumentChunker :=
  {| target_tokens := 12; max_tokens := 16; overlap_tokens := 4;
     min_chunk_tokens := 6; _enc := Some char_encoding |}.

(** ** Tails

    [tail] is a tail of [text] of at most [n] tokens.  In approximate
    mode it is a suffix of the text that counts at most [n] tokens.
    In exact mode it is the text itself, when that has at most [n]
    tokens, or the decoding of its last [n] tokens. *)
Definition tail_of_at_most (self : DocumentChunker) (text tail : string) (n : Z) : Prop :=
  match _enc self with
  | None =>
      (exists front, text = front +:+ tail) /\ _count_tokens self tail <= n
  | Some enc =>
      (tail = text /\ llen (encode enc text) <= n) \/
      (exists front ts, encode enc text = front ++ ts /\ llen ts = n /\ tail = decode enc ts)
  end.

Definition three_chunks : list Chunk :=
  [ {| text := "Cats are mammals."; chunk_index := 0; doc_id := "d" |};
    {| text := "Dogs are mammals too."; chunk_index := 1; doc_id := "d" |};
    {| text := "Fish are not."; chunk_index := 2; doc_id := "d" |} ].

(** ** The merge pass

    [small c]: the test [tokens < self.min_chunk_tokens] of the merge
    loop.  [merge_go buffer chunks]: what the loop and the final
    flush append to [merged] from a state with that buffer.  A list
    is [settled] when no small chunk is followed by a small chunk. *)
Definition small (self : DocumentChunker) (c : Chunk) : bool :=
  _count_tokens self (text c) <? min_chunk_tokens self.

Fixpoint merge_go (self : DocumentChunker) (buffer : option Chunk) (chunks : list Chunk)
  : list Chunk :=
  match chunks with
  | [] => match buffer with Some b => [b] | None => [] end
  | chunk :: rest =>
      if small self chunk then
        match buffer with
        | None => merge_go self (Some chunk) rest
        | Some b =>
            let b' := set_text b (text b +:+ " " +:+ text chunk) in
            if min_chunk_tokens self <=? _count_tokens self (text b')
            then b' :: merge_go self None rest
            else merge_go self (Some b') rest
        end
      else
        match buffer with
        | Some b => b :: chunk :: merge_go self None rest
        | None => chunk :: merge_go self None rest
        end
  end.

Definition buffer_list (buffer : option Chunk) : list Chunk :=
  match buffer with Some b => [b] | None => [] end.

Fixpoint settled (self : DocumentChunker) (l : list Chunk) : Prop :=
  match l with
  | [] => True
  | a :: tl =>
      match tl with
      | [] => True
      | b :: _ => small self a = true -> small self b = false
      end /\ settled self tl
  end.

(** ** The merge pass on objects

    [_merge_small_chunks] appends to [merged] the very dictionaries
    of its input (for chunks at or above the threshold) and fresh
    copies (the buffers), and the re-indexing writes [chunk_index]
    into whatever [merged] holds.  To see that the value-level
    [_merge_small_chunks] is what the method computes, the same loop
    on a heap of dictionaries: a reference is a position in the heap,
    [chunk.copy()] allocates, an assignment to a key updates in
    place.  [None] is a reference outside the heap. *)
Abbreviation heap := (list Chunk).

Abbreviation merge_state := (list Chunk * list nat * option nat)%type.

Definition merge_step_obj (self : DocumentChunker) (st : option merge_state) (r : nat)
  : option merge_state :=
  match st with
  | None => None
  | Some (h, merged, buffer) =>
      match h !! r with
      | None => None
      | Some chunk =>
          if _count_tokens self (text chunk) <? min_chunk_tokens self then
            match buffer with
            | None => Some (h ++ [chunk], merged, Some (length h))
            | Some b =>
                match h !! b with
                | None => None
                | Some bc =>
                    let bc' := set_text bc (text bc +:+ " " +:+ text chunk) in
                    let h' := <[b := bc']> h in
                    if min_chunk_tokens self <=? _count_tokens self (text bc')
                    then Some (h', merged ++ [b], None)
                    else Some (h', merged, Some b)
                end
            end
          else
            match buffer with
            | Some b => Some (h, (merged ++ [b]) ++ [r], None)
            | None => Some (h, merged ++ [r], None)
            end
      end
  end.

Fixpoint reindex_obj (h : heap) (i : Z) (merged : list nat) : heap :=
  match merged with
  | [] => h
  | r :: rest => reindex_obj (alter (fun c => set_chunk_index c i) r h) (i + 1) rest
  end.

Definition _merge_small_chunks_obj (self : DocumentChunker) (h : heap) (chunks : list nat)
  : option (heap * list nat) :=
  match chunks with
  | [] => Some (h, [])
  | _ =>
      match fold_left (merge_step_obj self) chunks (Some (h, [], None)) with
      | None => None
      | Some (h1, merged, buffer) =>
          let merged := match buffer with Some b => merged ++ [b] | None => merged end in
          Some (reindex_obj h1 0 merged, merged)
      end
  end.

(** The references denote these values in the heap. *)
Definition denotes (h : heap) (refs : list nat) (values : list Chunk) : Prop :=
  Forall2 (fun r v => h !! r = Some v) refs values.

(** The loop on objects and the loop on values agree after the same
    chunks.  [h0] is the heap on entry, [seen] the references read so
    far. *)
Definition merge_related (h0 : heap) (seen : list nat) (st : merge_state)
    (vst : list Chunk * option Chunk) : Prop :=
  let '(h, merged, buffer) := st in
  let '(mv, bv) := vst in
  (forall r, (r < length h0)%nat -> h !! r = h0 !! r) /\
  (length h0 <= length h)%nat /\
  denotes h merged mv /\
  List.NoDup merged /\
  (forall x, In x merged -> (x < length h)%nat /\ (In x seen \/ (length h0 <= x)%nat)) /\
  match buffer, bv with
  | None, None => True
  | Some b, Some v => h !! b = Some v /\ (length h0 <= b)%nat /\ ~ In b merged
  | _, _ => False
  end.

(** ** Passages

    How the passages of [chunk_document] are built.  A hard-split
    piece is bounded by construction: at most [max_tokens] tokens in
    approximate mode, the decoding of at most [max_tokens] tokens in
    exact mode. *)
Definition piece_within (self : DocumentChunker) (piece : string) : Prop :=
  match _enc self with
  | None => _count_tokens self piece <= max_tokens self
  | Some enc => exists ts, llen ts <= max_tokens self /\ piece = decode enc ts
  end.

(** A passage appended by the sentence loop: a piece of a sentence
    of more than [max_tokens] tokens, or the join of sentences of at
    most [max_tokens] tokens each, whose counts add up to at most
    [target_tokens] unless there is only one. *)
Inductive loop_passage (self : DocumentChunker) : string -> Prop :=
| passage_piece (sentence piece : string) (pieces : list string) :
    max_tokens self < _count_tokens self sentence ->
    _hard_split self sentence = Ok pieces ->
    In piece pieces ->
    piece_within self piece ->
    loop_passage self piece
| passage_join (sentences : list string) :
    sentences <> [] ->
    Forall (fun s => _count_tokens self s <= max_tokens self) sentences ->
    sum (map (_count_tokens self) sentences) <= target_tokens self \/
      length sentences = 1%nat ->
    loop_passage self (join " " sentences).

(** The text held by the merge buffer: small loop passages joined by
    spaces. *)
Definition buffered_text (self : DocumentChunker) (t : string) : Prop :=
  exists group,
    group <> [] /\ Forall (loop_passage self) group /\ t = join " " group /\
    Forall (fun p => _count_tokens self p < min_chunk_tokens self) group.

(** The pre-overlap text of an emitted passage: one loop passage, or
    several small ones joined by spaces. *)
Definition emitted_passage (self : DocumentChunker) (t : string) : Prop :=
  loop_passage self t \/ buffered_text self t.

(** The invariant of the sentence loop. *)
Definition loop_invariant (self : DocumentChunker) (st : loop_state) : Prop :=
  Forall (fun c => loop_passage self (text c)) (chunks st) /\
  Forall (fun s => _count_tokens self s <= max_tokens self) (current_sentences st) /\
  current_tokens st = sum (map (_count_tokens self) (current_sentences st)) /\
  (current_tokens st <= target_tokens self \/ (length (current_sentences st) <= 1)%nat).

(** ["Hi. " * n] *)
Fixpoint str_repeat (s : string) (n : nat) : string :=
  match n with
  | O => ""
  | S n' => s +:+ str_repeat s n'
  end.

(** ** The embedding cache *)

(** A sequence of [_update_cache] calls. *)
Fixpoint put_all (self : Embedder.EmbeddingsClient) (items : list (string * Embedder.vector))
  : M Embedder.State unit :=
  match items with
  | [] => ret tt
  | (key, vector) :: rest =>
      let* _ := Embedder._update_cache self key vector in
      put_all self rest
  end.

(** The vectors computed by [_embed_fallback]. *)
Definition fallback_vectors (self : Embedder.EmbeddingsClient) (texts : list string)
  : list Embedder.vector :=
  map (fun '(i, text) => Embedder.fallback_vector self i text) (enumerate texts).

(** The outcome of the cache scan of [embed_texts] on a cache. *)
Definition cached (md5 : string -> string) (cache : dict Embedder.vector) (text : string)
  : option Embedder.vector :=
  dict_get cache (md5 text).

Definition is_miss (md5 : string -> string) (cache : dict Embedder.vector)
    (item : Z * string) : bool :=
  match cached md5 cache (snd item) with Some _ => false | None => true end.

Definition is_hit (md5 : string -> string) (cache : dict Embedder.vector)
    (item : Z * string) : bool :=
  negb (is_miss md5 cache item).

Definition hit_pair (md5 : string -> string) (cache : dict Embedder.vector)
    (item : Z * string) : list (Z * Embedder.vector) :=
  match cached md5 cache (snd item) with Some v => [(fst item, v)] | None => [] end.

Definition scan_result (md5 : string -> string) (cache : dict Embedder.vector)
    (items : list (Z * string)) (acc : Embedder.scan_acc) : Embedder.scan_acc :=
  {| Embedder.texts_to_embed :=
       Embedder.texts_to_embed acc ++ map snd (List.filter (is_miss md5 cache) items);
     Embedder.indices_to_embed :=
       Embedder.indices_to_embed acc ++ map fst (List.filter (is_miss md5 cache) items);
     Embedder.cached_vectors :=
       Embedder.cached_vectors acc ++ map snd (flat_map (hit_pair md5 cache) items);
     Embedder.cached_indices :=
       Embedder.cached_indices acc ++ map fst (flat_map (hit_pair md5 cache) items) |}.

(** The texts of a batch that the cache does not hold, in order. *)
Definition misses (md5 : string -> string) (cache : dict Embedder.vector)
    (texts : list string) : list string :=
  map snd (List.filter (is_miss md5 cache) (enumerate texts)).

(** The position in the miss batch of the text at position [i]. *)
Definition miss_rank (md5 : string -> string) (cache : dict Embedder.vector)
    (texts : list string) (i : nat) : nat :=
  length (misses md5 cache (firstn i texts)).

(** What [embed_texts] expects of the remote endpoint: a response
    holds one vector for each text submitted. *)
Definition remote_contract (self : Embedder.EmbeddingsClient) : Prop :=
  forall client n ts vs,
    Embedder._client self = Some client ->
    Embedder.embeddings_create client n (Embedder.deployment self) ts (Embedder.dim self)
      = Ok vs ->
    length vs = length ts.

(** The endpoint raises at every call. *)
Definition remote_down (self : Embedder.EmbeddingsClient) (client : Embedder.AzureOpenAI)
  : Prop :=
  forall n ts, exists e,
    Embedder.embeddings_create client n (Embedder.deployment self) ts (Embedder.dim self)
      = Raise e.

(** The state after three failed calls and the two waits between
    them. *)
Definition after_three_failures (s : Embedder.State) : Embedder.State :=
  {| Embedder._cache := Embedder._cache s;
     Embedder.remote_calls := S (S (S (Embedder.remote_calls s)));
     Embedder.slept := (Embedder.slept s ++ [1]) ++ [2] |}.

(** The cache items that [embed_texts] writes for a miss batch and
    its vectors. *)
Definition cache_items (md5 : string -> string) (texts : list string)
    (vectors : list Embedder.vector) : list (string * Embedder.vector) :=
  map (fun '(t, v) => (md5 t, v)) (combine texts vectors).

(** An endpoint that is always down, and a client that uses it. *)
Definition dead_endpoint : Embedder.AzureOpenAI :=
  {| Embedder.embeddings_create := fun _ _ _ _ => Raise (RemoteError "503") |}.

Definition remote_client : Embedder.EmbeddingsClient :=
  {| Embedder.deployment := "text-embedding-3-large"; Embedder.dim := 3;
     Embedder._client := Some dead_endpoint; Embedder._max_cache_size := 100 |}.

(** A client without remote endpoint, with room for two vectors of
    three components. *)
Definition small_client : Embedder.EmbeddingsClient :=
  {| Embedder.deployment := "text-embedding-3-large"; Embedder.dim := 3;
     Embedder._client := None; Embedder._max_cache_size := 2 |}.

(** The client that [__init__] builds when no endpoint is configured:
    3072 dimensions, room for 100 vectors. *)
Definition default_client : Embedder.EmbeddingsClient :=
  {| Embedder.deployment := "text-embedding-3-large"; Embedder.dim := 3072;
     Embedder._client := None; Embedder._max_cache_size := 100 |}.

(** [n] cache items with the distinct keys ["k"], ["kk"], ... *)
Fixpoint numbered_items (n : nat) : list (string * Embedder.vector) :=
  match n with
  | O => []
  | S n' => numbered_items n' ++ [(String.concat "" (repeat "k" n), [inject_Z (Z.of_nat n)])]
  end.

Definition cache_within (self : Embedder.EmbeddingsClient) (s : Embedder.State) : Prop :=
  llen (Embedder._cache s) <= Embedder._max_cache_size self.

(** A computation keeps a property of the state, whether it returns
    or raises. *)
Definition preserves {A} (P : Embedder.State -> Prop) (m : M Embedder.State A) : Prop :=
  forall s, P s -> P (snd (m s)).

(** ** The document store *)

(** The distance that [search_similar] reads from a record. *)
Definition reported_distance (item : Cosmos.Item) : Q :=
  match Cosmos.item_distance item with Some d => d | None => 1%Q end.

(** What [search_similar] expects of the store for its query
    [SELECT TOP @top_k ... ORDER BY VectorDistance(...)]: at most
    [top_k] records, in ascending order of distance. *)
Definition store_contract (self : Cosmos.CosmosDBClient) : Prop :=
  forall c q k items,
    Cosmos.container self = Some c ->
    0 <= k ->
    Cosmos.query_items c q k = Ok items ->
    llen items <= k /\
    Sorted.Sorted (fun a b => (reported_distance a <= reported_distance b)%Q) items.

Definition by_similarity_desc (a b : Cosmos.Result) : Prop :=
  (Cosmos.similarity b <= Cosmos.similarity a)%Q.

(** A store of four records that answers every query with its
    [top_k] nearest records; the third one has no distance. *)
Definition stored (name : string) (d : option Q) : Cosmos.Item :=
  {| Cosmos.item_id := Some name; Cosmos.item_filename := Some "notes.txt";
     Cosmos.item_text := Some name; Cosmos.item_chunk_index := Some 0;
     Cosmos.item_distance := d |}.

Definition four_records : Cosmos.ContainerProxy :=
  {| Cosmos.query_items := fun _ k =>
       Ok (firstn (Z.to_nat k)
             [stored "a" (Some 0%Q); stored "b" (Some (1 # 4)); stored "c" None;
              stored "d" (Some (3 # 2))]) |}.

Definition connected_client : Cosmos.CosmosDBClient :=
  {| Cosmos.connected := true; Cosmos.container := Some four_records;
     Cosmos.document_count := 4 |}.

Definition empty_client : Cosmos.CosmosDBClient :=
  {| Cosmos.connected := true; Cosmos.container := Some four_records;
     Cosmos.document_count := 0 |}.

End Spec.

(** * Vocabulary of the further properties *)

Module More.

Import Chunker.

(** ** Sentences *)

(** A text of white space only. *)
Fixpoint blank (s : string) : bool :=
  match s with
  | EmptyString => true
  | String c s' => isspace c && blank s'
  end.

(** Neither the first nor the last character is white space. *)
Definition trimmed (s : string) : Prop :=
  lstrip s = s /\ lstrip (str_rev s) = str_rev s.

(** Some two neighbouring characters of [s] satisfy [P]. *)
Fixpoint adjacent (P : ascii -> ascii -> bool) (s : string) : bool :=
  match s with
  | EmptyString => false
  | String a t =>
      match t with
      | EmptyString => false
      | String b _ => P a b || adjacent P t
      end
  end.

(** The last character read and the next one satisfy [P]. *)
Definition boundary (P : ascii -> ascii -> bool) (s acc : string) : bool :=
  match s, acc with
  | String a _, String b _ => P a b
  | _, _ => false
  end.

(** A place where [re.split(r'(?<=[.!?])\s+', ...)] cuts: white space
    that directly follows [.], [!] or [?]. *)
Definition sentence_break (a b : ascii) : bool := is_terminator a && isspace b.

Definition head_is_terminator (s : string) : bool :=
  match s with
  | EmptyString => false
  | String c _ => is_terminator c
  end.

(** ** Passages *)

(** Chunk [i] of the list carries [chunk_index = i] and the document
    identifier [doc]. *)
Definition dense (doc : string) (cs : list Chunk) : Prop :=
  forall (i : nat) (c : Chunk),
    cs !! i = Some c -> chunk_index c = Z.of_nat i /\ doc_id c = doc.

(** The sentences held by the loop state, in order: the texts of the
    chunks appended so far, then the sentences collected for the next
    chunk. *)
Definition pending (st : loop_state) : list string :=
  map text (chunks st) ++ current_sentences st.

(** The text that a flush appends for the collected sentences. *)
Definition flushed (sentences : list string) : list string :=
  match sentences with
  | [] => []
  | _ => [join " " sentences]
  end.

(** Two lists of texts that joining cannot tell apart, also when
    more texts follow. *)
Definition same_join (l l' : list string) : Prop :=
  join " " l = join " " l' /\ (l = [] <-> l' = []).

Definition loop_start : loop_state :=
  {| chunks := []; current_sentences := []; current_tokens := 0 |}.

(** ** The remote endpoint *)

(** The waits before the retries that follow [k] failed attempts, the
    first of which was attempt number [a]: [2 ** a], [2 ** (a + 1)],
    ... *)
Definition backoff_from (a k : nat) : list Z :=
  map (fun j => 2 ^ Z.of_nat j) (seq a k).

Definition backoff (k : nat) : list Z := backoff_from 0 k.

(** The state after [n] more remote calls and the waits [w]. *)
Definition after_calls (s : Embedder.State) (n : nat) (w : list Z) : Embedder.State :=
  {| Embedder._cache := Embedder._cache s;
     Embedder.remote_calls := (Embedder.remote_calls s + n)%nat;
     Embedder.slept := Embedder.slept s ++ w |}.

(** The outcome of call number [n] (counted from the calls made
    before) for this client and batch. *)
Definition call_outcome (self : Embedder.EmbeddingsClient) (client : Embedder.AzureOpenAI)
    (texts : list string) (n : nat) : PyResult (list Embedder.vector) :=
  Embedder.embeddings_create client n (Embedder.deployment self) texts (Embedder.dim self).

(** [s'] differs from [s] by [n] remote calls, the waits between
    them, and the contents of the cache. *)
Definition spent (s s' : Embedder.State) (n : nat) : Prop :=
  Embedder.remote_calls s' = (Embedder.remote_calls s + n)%nat /\
  Embedder.slept s' = Embedder.slept s ++ backoff (n - 1).

(** Same number of remote calls, same waits. *)
Definition same_meter (s s' : Embedder.State) : Prop :=
  Embedder.remote_calls s' = Embedder.remote_calls s /\
  Embedder.slept s' = Embedder.slept s.

(** An endpoint that fails twice and then answers with one vector
    for each text. *)
Definition flaky_endpoint : Embedder.AzureOpenAI :=
  {| Embedder.embeddings_create := fun n _ texts _ =>
       if (n <? 2)%nat then Raise (RemoteError "429")
       else Ok (map (fun _ => [1 # 2; 1 # 3; 1 # 5]%Q) texts) |}.

Definition flaky_client : Embedder.EmbeddingsClient :=
  {| Embedder.deployment := "text-embedding-3-large"; Embedder.dim := 3;
     Embedder._client := Some flaky_endpoint; Embedder._max_cache_size := 100 |}.

(** An endpoint that answers its first call only. *)
Definition one_shot_endpoint : Embedder.AzureOpenAI :=
  {| Embedder.embeddings_create := fun n _ texts _ =>
       match n with
       | O => Ok (map (fun _ => [1 # 2; 1 # 3; 1 # 5]%Q) texts)
       | S _ => Raise (RemoteError "503")
       end |}.

Definition one_shot_client : Embedder.EmbeddingsClient :=
  {| Embedder.deployment := "text-embedding-3-large"; Embedder.dim := 3;
     Embedder._client := Some one_shot_endpoint; Embedder._max_cache_size := 100 |}.

(** ** The store *)

(** The value that [_update_document_count] leaves in
    [document_count]: the first item of the count query, or zero when
    there is no container, the query raises or yields nothing, or the
    logging call that follows the assignment raises. *)
Definition counted {Doc Summary} (L : Logger.Impl) (ops : Store.ContainerOps Doc Summary)
    (s : Store.State Doc) : Z :=
  match Cosmos.container (Store.client s),
        Store.count_query ops (length (Store.requests s)),
        Logger.log_info L "Document count updated" ["count"] with
  | Some _, Ok (n :: _), Ok _ => n
  | _, _, _ => 0
  end.

Definition after_count {Doc Summary} (L : Logger.Impl) (ops : Store.ContainerOps Doc Summary)
    (s : Store.State Doc) : Store.State Doc :=
  Store.on_client (fun c => Store.set_document_count c (counted L ops s))
    (match Cosmos.container (Store.client s) with
     | Some _ => Store.add_request Store.CountQuery s
     | None => s
     end).

(** The number of chunks that the store accepts when they are sent
    one after the other, the first as request number [n]. *)
Fixpoint accepted {Doc Summary} (ops : Store.ContainerOps Doc Summary) (n : nat)
    (chunks : list Doc) : Z :=
  match chunks with
  | [] => 0
  | chunk :: rest =>
      (match Store.upsert_item ops n chunk with Ok _ => 1 | Raise _ => 0 end)
      + accepted ops (S n) rest
  end.

(** The number of items that the store deletes when they are asked
    for one after the other, the first as request number [n]. *)
Fixpoint removed {Doc Summary} (ops : Store.ContainerOps Doc Summary) (n : nat)
    (doc_id : string) (chunk_ids : list string) : Z :=
  match chunk_ids with
  | [] => 0
  | chunk_id :: rest =>
      (match Store.delete_item ops n chunk_id doc_id with Ok _ => 1 | Raise _ => 0 end)
      + removed ops (S n) doc_id rest
  end.

Definition asked {Doc} (requests : list (Store.request Doc)) (s : Store.State Doc)
  : Store.State Doc :=
  {| Store.client := Store.client s; Store.requests := Store.requests s ++ requests |}.

Definition sent {Doc} (chunks : list Doc) (s : Store.State Doc) : Store.State Doc :=
  {| Store.client := Store.client s;
     Store.requests := Store.requests s ++ map Store.UpsertItem chunks |}.

(** Every step of [_connect] goes through, the last logging call
    included. *)
Definition connect_succeeds (L : Logger.Impl) (azure : Store.Azure) : Prop :=
  Store.HAS_COSMOS azure = true /\
  Chunker.nonempty (Store.endpoint azure) = true /\
  Chunker.nonempty (Store.key azure) = true /\
  Store.new_client azure = Ok tt /\
  Store.create_database_if_not_exists azure = Ok tt /\
  (exists c, Store.get_container_client azure = Ok c) /\
  Store.container_read azure = Ok tt /\
  Logger.log_info L "Connected to Cosmos DB" ["database"; "container"] = Ok tt.

(** An account where everything works, and a container that holds
    three documents and accepts every second chunk. *)
Definition healthy_azure : Store.Azure :=
  {| Store.HAS_COSMOS := true;
     Store.endpoint := "https://example.documents.azure.com";
     Store.key := "secret";
     Store.new_client := Ok tt;
     Store.create_database_if_not_exists := Ok tt;
     Store.get_container_client := Ok {| Cosmos.query_items := fun _ _ => Ok [] |};
     Store.container_read := Ok tt |}.

Definition picky_container : Store.ContainerOps string string :=
  {| Store.count_query := fun _ => Ok [3];
     Store.upsert_item := fun n _ => if Nat.even n then Ok tt else Raise (RemoteError "413");
     Store.list_query := fun _ => Ok ["a.txt"; "b.txt"];
     Store.ids_query := fun _ _ => Ok ["d::0"; "d::1"; "d::2"];
     Store.delete_item := fun n _ _ =>
       if Nat.even n then Raise (RemoteError "404") else Ok tt |}.

Definition available_store : Store.State string :=
  {| Store.client := {| Cosmos.connected := true;
                        Cosmos.container := Some {| Cosmos.query_items := fun _ _ => Ok [] |};
                        Cosmos.document_count := 0 |};
     Store.requests := [] |}.

(** What [list_documents] returns: the records of the listing, or
    nothing when the client is not available, the query raises, or
    the logging call after it raises. *)
Definition listed {Doc Summary} (L : Logger.Impl) (ops : Store.ContainerOps Doc Summary)
    (s : Store.State Doc) : list Summary :=
  if Cosmos.is_available (Store.client s) then
    match Store.list_query ops (length (Store.requests s)),
          Logger.log_info L "Documents listed" ["count"] with
    | Ok docs, Ok _ => docs
    | _, _ => []
    end
  else [].

Definition after_listing {Doc} (s : Store.State Doc) : Store.State Doc :=
  if Cosmos.is_available (Store.client s) then Store.add_request Store.ListQuery s else s.

(** A container that lists two documents, one without upload time. *)
Definition library_container : Store.ContainerOps string Chat.DocSummary :=
  {| Store.count_query := fun _ => Ok [2];
     Store.upsert_item := fun _ _ => Ok tt;
     Store.list_query := fun _ =>
       Ok [ {| Chat.summary_doc_id := Some "d1"; Chat.summary_filename := Some "manual.pdf";
               Chat.summary_uploaded_at := Some "2025-01-01T10:00:00" |};
            {| Chat.summary_doc_id := Some "d2"; Chat.summary_filename := Some "faq.md";
               Chat.summary_uploaded_at := None |} ];
     Store.ids_query := fun _ _ => Ok [];
     Store.delete_item := fun _ _ _ => Ok tt |}.

(** ** The chat *)

(** The state of a chat client after [j] completion calls and the
    waits [w]. *)
Definition after_chat (s : Chat.State) (j : nat) (w : list Z) : Chat.State :=
  {| Chat.embed_state := Chat.embed_state s; Chat.events := Chat.events s;
     Chat.chat_calls := (Chat.chat_calls s + j)%nat;
     Chat.chat_slept := Chat.chat_slept s ++ w |}.

(** A completion endpoint that fails once and then answers. *)
Definition slow_chat_endpoint : Chat.AzureOpenAI :=
  {| Chat.completions_create := fun n _ _ =>
       match n with
       | O => Raise (RemoteError "429")
       | S _ => Ok "Hola."
       end |}.

(** A chat client without embedding endpoint on the store of four
    records. *)
Definition sample_chat : Chat.ChatClient :=
  {| Chat.deployment := "gpt-5-mini-deployment";
     Chat.embedder := Spec.small_client;
     Chat.cosmos := Spec.connected_client;
     Chat._client := Some slow_chat_endpoint;
     Chat._available_docs_cache := None |}.

Definition fresh_chat : Chat.State :=
  {| Chat.embed_state := Embedder.initial_state; Chat.events := [];
     Chat.chat_calls := O; Chat.chat_slept := [] |}.

(** ** The processor *)

(** The documents that [process_file] builds for the passages and
    their vectors. *)
Definition passage_docs (doc_id filename current_time : string)
    (chunks : list Chunker.Chunk) (embeddings : list (option Embedder.vector))
  : list Processor.CosmosDoc :=
  map (Processor.cosmos_doc doc_id filename current_time)
      (enumerate (combine chunks embeddings)).

(** The extensions that [_extract_text] reads. *)
Definition supported (ext : string) : bool :=
  String.eqb ext ".txt" || String.eqb ext ".md" || String.eqb ext ".pdf"
  || String.eqb ext ".docx".

(** A container that accepts every chunk, and a text file of two
    sentences. *)
Definition open_container : Store.ContainerOps Processor.CosmosDoc string :=
  {| Store.count_query := fun _ => Ok [1];
     Store.upsert_item := fun _ _ => Ok tt;
     Store.list_query := fun _ => Ok [];
     Store.ids_query := fun _ _ => Ok [];
     Store.delete_item := fun _ _ _ => Ok tt |}.

Definition two_sentences : Processor.Readers :=
  {| Processor.from_txt := Ok "Cats are mammals. Fish are not.";
     Processor.from_pdf := Raise (RemoteError "not a PDF");
     Processor.from_docx := Raise (RemoteError "not a DOCX") |}.

Definition available_processor : Processor.State :=
  (Embedder.initial_state,
   {| Store.client := Spec.connected_client; Store.requests := [] |}).

Definition unavailable_processor : Processor.State :=
  (Embedder.initial_state, Store.initial_state).

(** ** The configuration *)

(** A configuration without speech key and without store key. *)
Definition partial_config : Config.AvatarRAGConfig :=
  {| Config.speech_key := "";
     Config.openai_endpoint := "https://example.openai.azure.com";
     Config.openai_api_key := "secret";
     Config.cosmos_endpoint := "https://example.documents.azure.com";
     Config.cosmos_key := "" |}.

End More.

(** * Properties *)

(** ** Strings and slices *)

Section PyFacts.

Lemma len_nonneg (s : string) : 0 <= len s.
Proof. unfold len. lia. Qed.

Lemma length_str_app (a b : string) :
  String.length (a +:+ b) = (String.length a + String.length b)%nat.
Proof. induction a as [|c a IH]; simpl; [reflexivity|]. now rewrite IH. Qed.

Lemma len_app (a b : string) : len (a +:+ b) = len a + len b.
Proof. unfold len. rewrite length_str_app. lia. Qed.

Lemma length_str_drop (n : nat) (s : string) :
  String.length (str_drop n s) = (String.length s - n)%nat.
Proof.
  revert s. induction n as [|n IH]; intros s; simpl; [lia|].
  destruct s as [|c s]; simpl; [reflexivity|]. apply IH.
Qed.

Lemma length_str_take (n : nat) (s : string) :
  String.length (str_take n s) = Nat.min n (String.length s).
Proof.
  revert s. induction n as [|n IH]; intros s; simpl; [reflexivity|].
  destruct s as [|c s]; simpl; [reflexivity|]. now rewrite IH.
Qed.

Lemma len_str_slice (s : string) (start stop : option Z) :
  len (str_slice s start stop) =
    let '(lo, hi) := slice_bounds (len s) start stop in
    Z.min (Z.max 0 (hi - lo)) (Z.max 0 (len s - Z.max 0 lo)).
Proof.
  unfold str_slice. destruct (slice_bounds (len s) start stop) as [lo hi].
  unfold len. rewrite length_str_take, length_str_drop. lia.
Qed.

Lemma clamp_index_range (n i : Z) : 0 <= n -> 0 <= clamp_index n i <= n.
Proof. unfold clamp_index. destruct (Z.ltb_spec i 0); lia. Qed.

Lemma len_str_slice_le (s : string) (start stop : option Z) :
  len (str_slice s start stop) <= len s.
Proof.
  rewrite len_str_slice. pose proof (len_nonneg s).
  destruct (slice_bounds (len s) start stop) as [lo hi]. lia.
Qed.

Lemma llen_nonneg {A} (l : list A) : 0 <= llen l.
Proof. unfold llen. lia. Qed.

Lemma llen_list_slice_le {A} (l : list A) (start stop : option Z) :
  llen (list_slice l start stop) <= llen l.
Proof.
  unfold list_slice. destruct (slice_bounds (llen l) start stop) as [lo hi].
  unfold llen. rewrite length_firstn, length_skipn. lia.
Qed.

Lemma llen_list_slice_width {A} (l : list A) (i w : Z) :
  0 <= i -> 0 <= w -> llen (list_slice l (Some i) (Some (i + w))) <= w.
Proof.
  intros Hi Hw. unfold list_slice, slice_bounds, clamp_index.
  pose proof (llen_nonneg l) as Hl.
  destruct (Z.ltb_spec i 0); [lia|]. destruct (Z.ltb_spec (i + w) 0); [lia|].
  unfold llen in *. rewrite length_firstn, length_skipn. lia.
Qed.

Lemma len_str_slice_width (s : string) (i w : Z) :
  0 <= i -> 0 <= w -> len (str_slice s (Some i) (Some (i + w))) <= w.
Proof.
  intros Hi Hw. rewrite len_str_slice. unfold slice_bounds, clamp_index.
  pose proof (len_nonneg s).
  destruct (Z.ltb_spec i 0); [lia|]. destruct (Z.ltb_spec (i + w) 0); lia.
Qed.

Lemma str_app_assoc (a b c : string) : (a +:+ b) +:+ c = a +:+ b +:+ c.
Proof.
  induction a as [|x a IH]; [reflexivity|].
  change (String x ((a +:+ b) +:+ c) = String x (a +:+ b +:+ c)). now rewrite IH.
Qed.

Lemma sum_snoc (xs : list Z) (x : Z) : sum (xs ++ [x]) = sum xs + x.
Proof. unfold sum. now rewrite fold_left_app. Qed.

Lemma join_snoc (parts : list string) (p : string) :
  parts <> [] -> join " " (parts ++ [p]) = join " " parts +:+ " " +:+ p.
Proof.
  induction parts as [|a parts IH]; intros Hne; [congruence|].
  destruct parts as [|b parts]; [reflexivity|].
  change (join " " ((a :: b :: parts) ++ [p]))
    with (a +:+ " " +:+ join " " ((b :: parts) ++ [p])).
  rewrite IH by discriminate.
  change (join " " (a :: b :: parts)) with (a +:+ " " +:+ join " " (b :: parts)).
  now rewrite !str_app_assoc.
Qed.

Lemma range_up_lower (fuel : nat) (i stop step : Z) :
  0 <= step -> Forall (fun j => i <= j) (range_up fuel i stop step).
Proof.
  intros Hs. revert i. induction fuel as [|fuel IH]; intros i; simpl; [constructor|].
  destruct (i <? stop); [|constructor]. constructor; [lia|].
  eapply List.Forall_impl; [|apply IH]. simpl. intros; lia.
Qed.

(** The start indices of [range(0, n, step)]: none is negative, and
    there is none at all when the step is negative. *)
Lemma range3_from_zero (n step : Z) :
  0 <= n -> step <> 0 ->
  exists starts, range3 0 n step = Ok starts /\ Forall (fun i => 0 <= i) starts /\
                 (step < 0 -> starts = []).
Proof.
  intros Hn Hs. unfold range3.
  destruct (Z.eqb_spec step 0); [contradiction|].
  destruct (Z.ltb_spec 0 step).
  - eexists. split; [reflexivity|]. split; [apply range_up_lower; lia | lia].
  - eexists. split; [reflexivity|].
    replace (Z.to_nat (0 - n)) with O by lia. split; [constructor | reflexivity].
Qed.

Lemma str_take_drop (n : nat) (s : string) : s = str_take n s +:+ str_drop n s.
Proof.
  revert s. induction n as [|n IH]; intros s; simpl; [reflexivity|].
  destruct s as [|c s]; simpl; [reflexivity|].
  change (String c s = String c (str_take n s +:+ str_drop n s)). f_equal. apply IH.
Qed.

Lemma str_take_all (n : nat) (s : string) : (String.length s <= n)%nat -> str_take n s = s.
Proof.
  revert s. induction n as [|n IH]; intros s Hn.
  - destruct s; [reflexivity | simpl in Hn; lia].
  - destruct s as [|c s]; simpl; [reflexivity|]. rewrite IH; [reflexivity|]. simpl in Hn. lia.
Qed.

(** [s[i:]] is a suffix of [s]. *)
Lemma str_slice_from_suffix (s : string) (i : Z) :
  exists front, s = front +:+ str_slice s (Some i) None.
Proof.
  unfold str_slice, slice_bounds.
  pose proof (clamp_index_range (len s) i (len_nonneg s)) as Hc.
  set (lo := clamp_index (len s) i) in *.
  exists (str_take (Z.to_nat lo) s).
  rewrite (str_take_all _ (str_drop (Z.to_nat lo) s)); [apply str_take_drop|].
  rewrite length_str_drop. unfold len in *. lia.
Qed.

(** [l[-n:]] holds the last [n] elements when [l] has more. *)
Lemma list_slice_last {A} (l : list A) (n : Z) :
  0 < n -> n < llen l ->
  exists front, l = front ++ list_slice l (Some (- n)) None /\
                llen (list_slice l (Some (- n)) None) = n.
Proof.
  intros Hn Hl. unfold list_slice, slice_bounds, clamp_index.
  destruct (Z.ltb_spec (- n) 0); [|lia].
  exists (firstn (Z.to_nat (Z.max 0 (llen l + - n))) l).
  unfold llen in *.
  set (k := Z.to_nat (Z.max 0 (Z.of_nat (length l) + - n))).
  rewrite (firstn_all2 (skipn k l)) by (rewrite length_skipn; lia).
  split; [now rewrite firstn_skipn|]. rewrite length_skipn. lia.
Qed.

End PyFacts.

(** ** Token counts and tails *)

Section TokenCounter.

Import Chunker Spec.

Variable self : DocumentChunker.

Lemma count_tokens_nonneg (t : string) : 0 <= _count_tokens self t.
Proof.
  unfold _count_tokens. destruct (_enc self).
  - apply llen_nonneg.
  - pose proof (len_nonneg t). apply Z.div_pos; lia.
Qed.

Lemma approx_count_le (a b : string) :
  _enc self = None -> len a <= len b -> _count_tokens self a <= _count_tokens self b.
Proof.
  intros He Hab. unfold _count_tokens. rewrite He.
  apply Z.div_le_mono; lia.
Qed.

Lemma approx_tail_len (t : string) (n : Z) :
  _enc self = None -> len (_get_tail self t n) <= len t.
Proof.
  intros He. unfold _get_tail. rewrite He.
  destruct (n * 4 <? len t); [apply len_str_slice_le | lia].
Qed.

Lemma approx_tail_len_bound (t : string) (n : Z) :
  _enc self = None -> 0 < n -> len (_get_tail self t n) <= n * 4.
Proof.
  intros He Hn. unfold _get_tail. rewrite He.
  destruct (Z.ltb_spec (n * 4) (len t)) as [Hlt|Hge]; [|lia].
  rewrite len_str_slice. unfold slice_bounds, clamp_index.
  destruct (Z.ltb_spec (- (n * 4)) 0); lia.
Qed.

End TokenCounter.

Lemma char_encoding_contract : Spec.tokenizer_contract Spec.char_encoding.
Proof.
  split.
  - intros ts. unfold llen. simpl.
    rewrite length_map, list_ascii_of_string_of_list_ascii, length_map. lia.
  - intros t Ht. simpl. destruct t as [|c t]; [congruence|]. simpl. discriminate.
Qed.

(** C4, as amended.  The tail never has more tokens than the text: in
    approximate mode for every text and every [n], in exact mode for a
    tokenizer that meets [tokenizer_contract].  In approximate mode a
    text has at least one token exactly when it has at least four
    characters; in exact mode a text that is not empty has at least one
    token, for such a tokenizer. *)
Theorem count_tokens_tail_le_and_positive
    (self : Chunker.DocumentChunker) (text : string) (n : Z) :
  (forall enc, Chunker._enc self = Some enc -> Spec.tokenizer_contract enc) ->
  Chunker._count_tokens self (Chunker._get_tail self text n)
    <= Chunker._count_tokens self text /\
  (Chunker._enc self = None -> (1 <= Chunker._count_tokens self text <-> 4 <= len text)) /\
  (Chunker._enc self <> None -> text <> "" -> 1 <= Chunker._count_tokens self text).
Proof.
  intros Henc. split; [|split].
  - destruct (Chunker._enc self) as [enc|] eqn:He.
    + destruct (Henc enc eq_refl) as [Hre _].
      unfold Chunker._get_tail, Chunker._count_tokens. rewrite He.
      destruct (llen (Chunker.encode enc text) <=? n); [lia|].
      etransitivity; [apply Hre|]. apply llen_list_slice_le.
    + apply approx_count_le; [exact He|]. now apply approx_tail_len.
  - intros He. unfold Chunker._count_tokens. rewrite He.
    pose proof (len_nonneg text). split; intros H1.
    + destruct (Z.lt_ge_cases (len text) 4) as [Hlt|]; [|assumption].
      rewrite Z.div_small in H1; lia.
    + apply (Z.div_le_mono 4 (len text) 4) in H1; [|lia].
      now rewrite Z.div_same in H1.
  - intros He Ht. destruct (Chunker._enc self) as [enc|] eqn:He'; [|congruence].
    destruct (Henc enc eq_refl) as [_ Hne]. unfold Chunker._count_tokens. rewrite He'.
    specialize (Hne text Ht). unfold llen.
    destruct (Chunker.encode enc text); [congruence|]. simpl length. lia.
Qed.

Lemma count_tokens_tail_le_and_positive_witness :
  Chunker._count_tokens Spec.exact_chunker (Chunker._get_tail Spec.exact_chunker "Hello world. Bye." 3)
    <= Chunker._count_tokens Spec.exact_chunker "Hello world. Bye." /\
  1 <= Chunker._count_tokens Spec.exact_chunker "Hello world. Bye.".
Proof.
  pose proof (count_tokens_tail_le_and_positive Spec.exact_chunker "Hello world. Bye." 3) as H.
  destruct H as (Htail & _ & Hpos).
  - intros enc He. injection He as <-. apply char_encoding_contract.
  - split; [exact Htail|]. apply Hpos; discriminate.
Defined.

(** C4 as stated fails in approximate mode: a text of one to three
    characters is not empty and has zero tokens. *)
Lemma count_tokens_nonempty_counterexample :
  "abc" <> "" /\ ~ (1 <= Chunker._count_tokens Chunker.default_chunker "abc").
Proof. split; [discriminate|]. vm_compute. intros H. apply H. reflexivity. Qed.

(** ** The overlap pass *)

Section Overlap.

Import Chunker Spec.

Variable self : DocumentChunker.

Lemma get_tail_of_at_most (t : string) (n : Z) :
  0 < n -> tail_of_at_most self t (_get_tail self t n) n.
Proof.
  intros Hn. unfold tail_of_at_most.
  destruct (_enc self) as [enc|] eqn:He.
  - unfold _get_tail. rewrite He.
    destruct (Z.leb_spec (llen (encode enc t)) n) as [Hle|Hgt]; [left; now split|].
    right. destruct (list_slice_last (encode enc t) n Hn Hgt) as (front & Hsplit & Hlen).
    now exists front, (list_slice (encode enc t) (Some (- n)) None).
  - split.
    + unfold _get_tail. rewrite He.
      destruct (n * 4 <? len t); [apply str_slice_from_suffix | now exists ""].
    + pose proof (approx_tail_len_bound self t n He Hn) as Hb.
      unfold _count_tokens. rewrite He.
      apply Z.div_le_upper_bound; lia.
Qed.

Lemma overlap_from_length (prev : Chunk) (rest : list Chunk) :
  length (overlap_from self prev rest) = length rest.
Proof. revert prev. induction rest as [|c rest IH]; intros prev; simpl; [|rewrite IH]; reflexivity. Qed.

Lemma overlap_from_lookup (prev : Chunk) (rest : list Chunk) (k : nat) (p cur : Chunk) :
  (prev :: rest) !! k = Some p -> rest !! k = Some cur ->
  overlap_from self prev rest !! k =
    Some (set_text cur (_get_tail self (text p) (overlap_tokens self) +:+ " " +:+ text cur)).
Proof.
  revert prev k. induction rest as [|c rest IH]; intros prev k Hp Hc; [discriminate|].
  destruct k as [|k]; simpl in *.
  - now injection Hp as <-; injection Hc as <-.
  - now apply IH.
Qed.

End Overlap.

(** C6.  The overlap pass returns its input when [overlap_tokens <= 0]
    or there are fewer than two passages.  Otherwise it keeps the
    number of passages and the first passage, and passage [k + 1]
    becomes the tail of at most [overlap_tokens] tokens of the text
    that passage [k] had on entry, a space, and its own text; its
    other fields are kept. *)
Theorem apply_overlap_spec (self : Chunker.DocumentChunker) (chunks : list Chunker.Chunk) :
  (Chunker.overlap_tokens self <= 0 \/ llen chunks < 2 ->
   Chunker._apply_overlap self chunks = chunks) /\
  (0 < Chunker.overlap_tokens self -> 2 <= llen chunks ->
   length (Chunker._apply_overlap self chunks) = length chunks /\
   Chunker._apply_overlap self chunks !! O = chunks !! O /\
   forall (k : nat) (prev cur : Chunker.Chunk),
     chunks !! k = Some prev -> chunks !! (S k) = Some cur ->
     let tail := Chunker._get_tail self (Chunker.text prev) (Chunker.overlap_tokens self) in
     Spec.tail_of_at_most self (Chunker.text prev) tail (Chunker.overlap_tokens self) /\
     Chunker._apply_overlap self chunks !! (S k) =
       Some (Chunker.set_text cur (tail +:+ " " +:+ Chunker.text cur))).
Proof.
  unfold Chunker._apply_overlap. split.
  - intros [Ho|Hl].
    + destruct (Z.leb_spec (Chunker.overlap_tokens self) 0); [reflexivity | lia].
    + destruct (Z.ltb_spec (llen chunks) 2); [|lia]. now rewrite orb_true_r.
  - intros Ho Hl.
    destruct (Z.leb_spec (Chunker.overlap_tokens self) 0); [lia|].
    destruct (Z.ltb_spec (llen chunks) 2); [lia|]. simpl orb. cbv iota.
    destruct chunks as [|first rest]; [unfold llen in Hl; simpl in Hl; lia|].
    split; [simpl; now rewrite overlap_from_length|]. split; [reflexivity|].
    intros k prev cur Hp Hc. cbv zeta. split.
    + now apply get_tail_of_at_most.
    + simpl in Hc. simpl. now apply overlap_from_lookup.
Qed.

Lemma apply_overlap_spec_witness :
  Chunker._apply_overlap Chunker.default_chunker (firstn 1 Spec.three_chunks)
    = firstn 1 Spec.three_chunks /\
  Chunker._apply_overlap Chunker.default_chunker Spec.three_chunks !! 2%nat =
    Some {| Chunker.text := "Dogs are mammals too. Fish are not.";
            Chunker.chunk_index := 2; Chunker.doc_id := "d" |}.
Proof.
  split.
  - apply (apply_overlap_spec Chunker.default_chunker (firstn 1 Spec.three_chunks)).
    right. vm_compute. reflexivity.
  - destruct (apply_overlap_spec Chunker.default_chunker Spec.three_chunks) as [_ H].
    destruct H as (_ & _ & H); [vm_compute; reflexivity | vm_compute; discriminate |].
    apply (H 1%nat _ _ eq_refl eq_refl).
Defined.

(** ** The merge pass *)

Section Merge.

Import Chunker Spec.

Variable self : DocumentChunker.

Lemma fold_merge_step (chunks merged : list Chunk) (buffer : option Chunk) :
  let '(m, b) := fold_left (merge_step self) chunks (merged, buffer) in
  m ++ buffer_list b = merged ++ merge_go self buffer chunks.
Proof.
  revert merged buffer. induction chunks as [|c rest IH]; intros merged buffer.
  - simpl. now destruct buffer.
  - simpl fold_left. simpl merge_go. unfold small.
    destruct (_count_tokens self (text c) <? min_chunk_tokens self).
    + destruct buffer as [b|]; [|apply IH].
      destruct (min_chunk_tokens self <=? _count_tokens self (text b +:+ " " +:+ text c));
        [|apply IH].
      specialize (IH (merged ++ [set_text b (text b +:+ " " +:+ text c)]) None).
      destruct (fold_left _ rest _) as [m b0]. rewrite IH, <- app_assoc. reflexivity.
    + destruct buffer as [b|].
      * specialize (IH ((merged ++ [b]) ++ [c]) None).
        destruct (fold_left _ rest _) as [m b0]. rewrite IH, <- !app_assoc. reflexivity.
      * specialize (IH (merged ++ [c]) None).
        destruct (fold_left _ rest _) as [m b0]. rewrite IH, <- app_assoc. reflexivity.
Qed.

Lemma merge_small_chunks_eq (chunks : list Chunk) :
  _merge_small_chunks self chunks = reindex 0 (merge_go self None chunks).
Proof.
  destruct chunks as [|c rest]; [reflexivity|]. unfold _merge_small_chunks.
  pose proof (fold_merge_step (c :: rest) [] None) as H.
  destruct (fold_left _ (c :: rest) _) as [m b].
  change ([] ++ merge_go self None (c :: rest)) with (merge_go self None (c :: rest)) in H.
  rewrite <- H. now destruct b; simpl; rewrite ?app_nil_r.
Qed.

Lemma settled_cons_big (a : Chunk) (l : list Chunk) :
  small self a = false -> settled self l -> settled self (a :: l).
Proof. intros Ha Hl. simpl. split; [|exact Hl]. destruct l; [exact I | congruence]. Qed.

Lemma merge_go_settled (chunks : list Chunk) (buffer : option Chunk) :
  (forall b, buffer = Some b -> small self b = true) ->
  settled self (merge_go self buffer chunks).
Proof.
  revert buffer. induction chunks as [|c rest IH]; intros buffer Hb.
  - destruct buffer; simpl; auto.
  - simpl merge_go. destruct (small self c) eqn:Hc.
    + destruct buffer as [b|].
      * destruct (Z.leb_spec (min_chunk_tokens self)
                    (_count_tokens self (text b +:+ " " +:+ text c)))
          as [Hbig|Hsmall].
        -- apply settled_cons_big; [|apply IH; discriminate].
           unfold small. apply Z.ltb_ge. exact Hbig.
        -- apply IH. intros b' [= <-]. unfold small. apply Z.ltb_lt. exact Hsmall.
      * apply IH. now intros b' [= <-].
    + destruct buffer as [b|].
      * simpl. split; [intros _; exact Hc|].
        apply (settled_cons_big c); [exact Hc | apply IH; discriminate].
      * apply settled_cons_big; [exact Hc | apply IH; discriminate].
Qed.

Lemma merge_go_settled_id (l : list Chunk) :
  settled self l ->
  merge_go self None l = l /\
  forall a, small self a = true ->
            match l with b :: _ => small self b = false | [] => True end ->
            merge_go self (Some a) l = a :: l.
Proof.
  induction l as [|b l IH]; intros Hs; [split; [reflexivity | intros; reflexivity]|].
  destruct Hs as [Hadj Hs]. destruct (IH Hs) as [IHn IHs]. split.
  - simpl. destruct (small self b) eqn:Hb.
    + apply IHs; [exact Hb|]. destruct l; [exact I | now apply Hadj].
    + now rewrite IHn.
  - intros a Ha Hhead. simpl. rewrite Hhead. now rewrite IHn.
Qed.

Lemma reindex_text (i : Z) (l : list Chunk) : map text (reindex i l) = map text l.
Proof. revert i. induction l as [|c l IH]; intros i; simpl; [|rewrite IH]; reflexivity. Qed.

Lemma reindex_settled (i : Z) (l : list Chunk) : settled self l -> settled self (reindex i l).
Proof.
  revert i. induction l as [|a l IH]; intros i Hs; [exact I|].
  destruct Hs as [Hadj Hs]. simpl. split; [|now apply IH].
  destruct l as [|b l]; [exact I|]. exact Hadj.
Qed.

Lemma reindex_reindex (i j : Z) (l : list Chunk) : reindex i (reindex j l) = reindex i l.
Proof. revert i j. induction l as [|c l IH]; intros i j; simpl; [|rewrite IH]; reflexivity. Qed.

End Merge.

(** C7.  The merge pass is idempotent: run on its own output, with the
    same chunker, it returns that output. *)
Theorem merge_small_chunks_idempotent
    (self : Chunker.DocumentChunker) (chunks : list Chunker.Chunk) :
  Chunker._merge_small_chunks self (Chunker._merge_small_chunks self chunks)
    = Chunker._merge_small_chunks self chunks.
Proof.
  rewrite !merge_small_chunks_eq.
  assert (Hs : Spec.settled self (Chunker.reindex 0 (Spec.merge_go self None chunks))).
  { apply reindex_settled, merge_go_settled. discriminate. }
  destruct (merge_go_settled_id self _ Hs) as [-> _].
  apply reindex_reindex.
Qed.

(** ** The sentence loop and the passages of [chunk_document] *)

Section Passages.

Import Chunker Spec.

Variable self : DocumentChunker.
Hypothesis max_tokens_nonzero : max_tokens self <> 0.

Lemma hard_split_pieces (sentence : string) :
  exists pieces, _hard_split self sentence = Ok pieces /\ Forall (piece_within self) pieces.
Proof.
  unfold _hard_split, piece_within, _count_tokens. destruct (_enc self) as [enc|].
  - destruct (range3_from_zero (llen (encode enc sentence)) (max_tokens self))
      as (starts & -> & Hpos & Hneg); [apply llen_nonneg | assumption |].
    eexists. split; [reflexivity|]. apply Forall_map.
    destruct (Z.lt_ge_cases (max_tokens self) 0) as [Hlt|Hge];
      [rewrite (Hneg Hlt); constructor|].
    eapply List.Forall_impl; [|exact Hpos]. intros i Hi. cbv beta in Hi |- *.
    eexists. split; [|reflexivity]. apply llen_list_slice_width; lia.
  - destruct (range3_from_zero (len sentence) (max_tokens self * 4))
      as (starts & -> & Hpos & Hneg); [apply len_nonneg | lia |].
    eexists. split; [reflexivity|]. apply Forall_map.
    destruct (Z.lt_ge_cases (max_tokens self) 0) as [Hlt|Hge];
      [rewrite Hneg by lia; constructor|].
    eapply List.Forall_impl; [|exact Hpos]. intros i Hi. cbv beta in Hi |- *.
    pose proof (len_str_slice_width sentence i (max_tokens self * 4) Hi) as Hw.
    apply Z.div_le_upper_bound; lia.
Qed.

Lemma fold_append_chunk (doc : string) (pieces : list string) (cs : list Chunk) :
  map text (fold_left (append_chunk doc) pieces cs) = map text cs ++ pieces.
Proof.
  revert cs. induction pieces as [|p pieces IH]; intros cs; simpl.
  - now rewrite app_nil_r.
  - rewrite IH. unfold append_chunk. rewrite map_app, <- app_assoc. reflexivity.
Qed.

Lemma Forall_text (P : string -> Prop) (cs : list Chunk) :
  Forall (fun c => P (text c)) cs <-> Forall P (map text cs).
Proof. now rewrite Forall_map. Qed.

Lemma flush_passages (doc : string) (cs : list Chunk) (sentences : list string) (tokens : Z) :
  Forall (fun c => loop_passage self (text c)) cs ->
  Forall (fun s => _count_tokens self s <= max_tokens self) sentences ->
  tokens = sum (map (_count_tokens self) sentences) ->
  tokens <= target_tokens self \/ (length sentences <= 1)%nat ->
  Forall (fun c => loop_passage self (text c)) (flush doc cs sentences).
Proof.
  intros Hcs Hmax Htok Hfit. destruct sentences as [|s rest]; [exact Hcs|].
  unfold flush, append_chunk. apply Forall_app. split; [exact Hcs|].
  constructor; [|constructor].
  change (loop_passage self (join " " (s :: rest))).
  apply passage_join; [discriminate | exact Hmax |].
  destruct Hfit as [Hfit|Hone]; [left; lia | right].
  simpl in Hone |- *. lia.
Qed.

Lemma sentence_step_invariant (doc : string) (st : loop_state) (sentence : string) :
  loop_invariant self st ->
  exists st', sentence_step self doc st sentence = Ok st' /\ loop_invariant self st'.
Proof.
  intros (Hcs & Hmax & Htok & Hfit). unfold sentence_step.
  destruct (Z.ltb_spec (max_tokens self) (_count_tokens self sentence)) as [Hbig|Hok].
  - destruct (hard_split_pieces sentence) as (pieces & Hsplit & Hpieces).
    rewrite Hsplit.
    assert (Hflush : Forall (fun c => loop_passage self (text c))
                       (fold_left (append_chunk doc) pieces
                          (flush doc (chunks st) (current_sentences st)))).
    { apply Forall_text. rewrite fold_append_chunk. apply Forall_app. split.
      - apply Forall_text. now apply (flush_passages doc _ _ (current_tokens st)).
      - apply List.Forall_forall. intros p Hp.
        apply (passage_piece self sentence p pieces Hbig Hsplit Hp).
        now apply (proj1 (List.Forall_forall _ _) Hpieces). }
    destruct (current_sentences st) as [|s0 rest] eqn:Hcur.
    + eexists. split; [reflexivity|]. unfold loop_invariant; cbn [chunks current_sentences current_tokens].
      split; [exact Hflush|]. split; [constructor|]. split; [exact Htok|]. right; simpl; lia.
    + eexists. split; [reflexivity|]. unfold loop_invariant; cbn [chunks current_sentences current_tokens].
      split; [exact Hflush|]. split; [constructor|]. split; [reflexivity|]. right; simpl; lia.
  - destruct (Z.leb_spec (current_tokens st + _count_tokens self sentence) (target_tokens self))
      as [Hfits|Hover].
    + eexists. split; [reflexivity|]. unfold loop_invariant; cbn [chunks current_sentences current_tokens].
      split; [exact Hcs|]. split; [|split].
      * apply Forall_app. split; [exact Hmax | constructor; [exact Hok | constructor]].
      * rewrite map_app. simpl map. rewrite sum_snoc. lia.
      * left. exact Hfits.
    + eexists. split; [reflexivity|]. unfold loop_invariant; cbn [chunks current_sentences current_tokens].
      split; [|split; [|split]].
      * now apply (flush_passages doc _ _ (current_tokens st)).
      * constructor; [exact Hok | constructor].
      * unfold sum. simpl. lia.
      * right. simpl. lia.
Qed.

Lemma sentence_loop_invariant (doc : string) (sentences : list string) (st : loop_state) :
  loop_invariant self st ->
  exists st', sentence_loop self doc st sentences = Ok st' /\ loop_invariant self st'.
Proof.
  revert st. induction sentences as [|s rest IH]; intros st Hinv.
  - now exists st.
  - destruct (sentence_step_invariant doc st s Hinv) as (st1 & Hstep & Hinv1).
    simpl. rewrite Hstep. simpl. now apply IH.
Qed.

Lemma merge_go_passages (chunks : list Chunk) (buffer : option Chunk) :
  Forall (fun c => loop_passage self (text c)) chunks ->
  (forall b, buffer = Some b -> buffered_text self (text b)) ->
  Forall (fun c => emitted_passage self (text c)) (merge_go self buffer chunks).
Proof.
  revert buffer. induction chunks as [|c rest IH]; intros buffer Hcs Hb.
  - destruct buffer as [b|]; simpl; [|constructor].
    constructor; [|constructor]. right. now apply Hb.
  - apply Forall_cons_1 in Hcs as [Hc Hrest]. simpl merge_go.
    destruct (small self c) eqn:Hsmall.
    + assert (Hlt : _count_tokens self (text c) < min_chunk_tokens self)
        by (now apply Z.ltb_lt).
      destruct buffer as [b|].
      * assert (Hjoin : buffered_text self (text b +:+ " " +:+ text c)).
        { destruct (Hb b eq_refl) as (group & Hne & Hgroup & Htext & Hsmalls).
          exists (group ++ [text c]). split; [now destruct group|].
          split; [apply Forall_app; split; [exact Hgroup | now constructor]|].
          split; [rewrite join_snoc by exact Hne; now rewrite Htext|].
          apply Forall_app. split; [exact Hsmalls | now constructor]. }
        cbv zeta. simpl text.
        destruct (min_chunk_tokens self <=? _count_tokens self (text b +:+ " " +:+ text c)).
        -- constructor; [now right | apply IH; [exact Hrest | discriminate]].
        -- apply IH; [exact Hrest|]. now intros b' [= <-].
      * apply IH; [exact Hrest|]. intros b' [= <-].
        exists [text c]. split; [discriminate|].
        split; [now constructor|]. split; [reflexivity | now constructor].
    + destruct buffer as [b|].
      * constructor; [right; now apply Hb|].
        constructor; [now left | apply IH; [exact Hrest | discriminate]].
      * constructor; [now left | apply IH; [exact Hrest | discriminate]].
Qed.

End Passages.

(** C3, and the code as it is.  Whatever the configuration, the text
    and the document id, [chunk_document] raises [TypeError] at
    [log_info("Starting chunking", doc_id=..., ...)], which stands
    before the sentence loop and outside any [try]: [log_info] takes
    the message alone, so no passage is emitted.  The rest of the
    method, when [max_tokens] is not zero: the passage list before the
    overlap pass exists, and the text of each passage is a loop passage
    or the join, with single spaces, of loop passages of fewer than
    [min_chunk_tokens] tokens each.  A loop passage is a piece of the
    hard split of a sentence of more than [max_tokens] tokens (at most
    [max_tokens] tokens in approximate mode, the decoding of at most
    [max_tokens] tokens in exact mode) or the join of sentences of at
    most [max_tokens] tokens each, whose counts add up to at most
    [target_tokens] unless it is one sentence.  With a logger that
    takes keyword arguments, [chunk_document] returns the overlap pass
    of that list. *)
Theorem chunk_document_type_error_and_passages
    (self : Chunker.DocumentChunker) (text doc : string) :
  Chunker.chunk_document self Logger.backend text doc
  = Raise (TypeError "log_info() got an unexpected keyword argument 'doc_id'") /\
  (Chunker.max_tokens self <> 0 ->
   exists cs,
     Chunker.pre_overlap_chunks self text doc = Ok cs /\
     Forall (fun c => Spec.emitted_passage self (Chunker.text c)) cs /\
     forall L, Logger.accepts_kwargs L ->
               Chunker.chunk_document self L text doc = Ok (Chunker._apply_overlap self cs)).
Proof.
  split; [reflexivity|].
  intros Hmax. unfold Chunker.pre_overlap_chunks, Chunker.chunk_document.
  destruct (sentence_loop_invariant self Hmax doc (Chunker._split_sentences text)
              {| Chunker.chunks := []; Chunker.current_sentences := [];
                 Chunker.current_tokens := 0 |})
    as (st & Hloop & Hcs & Hmaxs & Htok & Hfit).
  { split; [constructor|]. split; [constructor|]. split; [reflexivity | right; simpl; lia]. }
  eexists. split; [unfold Chunker.pre_overlap_chunks; rewrite Hloop; reflexivity|]. split.
  - rewrite merge_small_chunks_eq. apply Forall_text. rewrite reindex_text.
    apply Forall_text. apply merge_go_passages; [|discriminate].
    now apply (flush_passages self doc _ _ (Chunker.current_tokens st)).
  - intros L HL. destruct (HL "Starting chunking" ["doc_id"; "text_length"; "sentences"])
      as (-> & _). cbn [bind]. unfold Chunker.pre_overlap_chunks. rewrite Hloop. cbn [bind].
    destruct (HL "Chunking complete" ["doc_id"; "total_chunks"; "avg_tokens"]) as (-> & _).
    reflexivity.
Qed.

Lemma chunk_document_type_error_and_passages_witness :
  Chunker.chunk_document Chunker.default_chunker Logger.backend
    "Cats are mammals. Dogs are mammals too. Fish are not." "doc"
  = Raise (TypeError "log_info() got an unexpected keyword argument 'doc_id'") /\
  exists cs,
    Chunker.pre_overlap_chunks Chunker.default_chunker
      "Cats are mammals. Dogs are mammals too. Fish are not." "doc" = Ok cs /\
    Forall (fun c => Spec.emitted_passage Chunker.default_chunker (Chunker.text c)) cs /\
    forall L, Logger.accepts_kwargs L ->
              Chunker.chunk_document Chunker.default_chunker L
                "Cats are mammals. Dogs are mammals too. Fish are not." "doc"
              = Ok (Chunker._apply_overlap Chunker.default_chunker cs).
Proof.
  destruct (chunk_document_type_error_and_passages Chunker.default_chunker
              "Cats are mammals. Dogs are mammals too. Fish are not." "doc")
    as [Hraise Hrest].
  split; [exact Hraise|]. apply Hrest. vm_compute. discriminate.
Defined.

(** The sentence loop compares the sum of the sentences' counts with
    [target_tokens] and never measures the joined text.  In
    approximate mode with the default configuration and a logger that
    takes keyword arguments, a thousand sentences of three characters
    count zero tokens each and are joined into one passage of 3999
    characters, which counts 999 tokens; [max_tokens] is 550.  It is
    the only passage, before the overlap pass and in the list
    returned. *)
Example joined_passage_not_measured :
  match Chunker.pre_overlap_chunks Chunker.default_chunker (Spec.str_repeat "Hi. " 1000) "doc",
        Chunker.chunk_document Chunker.default_chunker Logger.lenient
                               (Spec.str_repeat "Hi. " 1000) "doc" with
  | Ok [c], Ok [c'] =>
      c' = c /\
      Chunker._count_tokens Chunker.default_chunker (Chunker.text c) = 999 /\
      ~ (Chunker._count_tokens Chunker.default_chunker (Chunker.text c)
           <= Chunker.max_tokens Chunker.default_chunker)
  | _, _ => False
  end.
Proof. vm_compute. split; [reflexivity|]. split; [reflexivity|]. intros H. now apply H. Qed.


(** A hard-split piece has at most [max_tokens] tokens, in exact mode
    for a tokenizer that meets [tokenizer_contract]. *)
Lemma piece_within_count (self : Chunker.DocumentChunker) (piece : string) :
  (forall enc, Chunker._enc self = Some enc -> Spec.tokenizer_contract enc) ->
  Spec.piece_within self piece ->
  Chunker._count_tokens self piece <= Chunker.max_tokens self.
Proof.
  intros Henc. unfold Spec.piece_within, Chunker._count_tokens.
  destruct (Chunker._enc self) as [enc|]; [|trivial].
  intros (ts & Hlen & ->). destruct (Henc enc eq_refl) as [Hre _].
  specialize (Hre ts). lia.
Qed.

(** With [max_tokens = 0] a sentence that has a token is sent to the
    hard split, whose [range] then has a zero step. *)
Example hard_split_zero_step :
  Chunker.pre_overlap_chunks
    {| Chunker.target_tokens := 0; Chunker.max_tokens := 0; Chunker.overlap_tokens := 0;
       Chunker.min_chunk_tokens := 0; Chunker._enc := None |}
    "Hello world." "doc"
  = Raise (ValueError "range() arg 3 must not be zero").
Proof. reflexivity. Qed.

(** Three short sentences, the default configuration, a logger that
    takes keyword arguments: one passage with index 0, the sentences
    joined by single spaces, no overlap. *)
Example chunk_document_three_sentences :
  Chunker.chunk_document Chunker.default_chunker Logger.lenient
    "Cats are mammals. Dogs are mammals too. Fish are not." "doc"
  = Ok [{| Chunker.text := "Cats are mammals. Dogs are mammals too. Fish are not.";
           Chunker.chunk_index := 0; Chunker.doc_id := "doc" |}].
Proof. reflexivity. Qed.

Example split_sentences_example :
  Chunker._split_sentences "  One.  Two!   Three? Four.five  "
  = ["One."; "Two!"; "Three?"; "Four.five"].
Proof. reflexivity. Qed.

(** ** The merge pass on objects *)

Section MergeObjects.

Import Chunker Spec.

Variable self : DocumentChunker.

Lemma denotes_app (h : heap) (refs refs' : list nat) (vs vs' : list Chunk) :
  denotes h refs vs -> denotes h refs' vs' -> denotes h (refs ++ refs') (vs ++ vs').
Proof. apply Forall2_app. Qed.

Lemma denotes_mono (h h' : heap) (refs : list nat) (vs : list Chunk) :
  (forall r, In r refs -> h' !! r = h !! r) ->
  denotes h refs vs -> denotes h' refs vs.
Proof.
  intros Hsame Hd. induction Hd as [|r v refs vs Hr Hd IH]; [constructor|].
  constructor.
  - rewrite Hsame by now left. exact Hr.
  - apply IH. intros x Hx. apply Hsame. now right.
Qed.

Lemma merge_step_related (h0 : heap) (seen : list nat) (st : merge_state)
    (vst : list Chunk * option Chunk) (r : nat) (chunk : Chunk) :
  merge_related h0 seen st vst ->
  h0 !! r = Some chunk ->
  ~ In r seen ->
  exists st', merge_step_obj self (Some st) r = Some st' /\
              merge_related h0 (seen ++ [r]) st' (merge_step self vst chunk).
Proof.
  destruct st as [[h merged] buffer]. destruct vst as [mv bv].
  intros (Hold & Hlen & Hden & Hnd & Hin & Hbuf) Hr Hfresh.
  assert (Hrlt : (r < length h0)%nat) by (apply lookup_lt_is_Some; eauto).
  assert (Hhr : h !! r = Some chunk) by (rewrite Hold; assumption).
  assert (Hseen : forall x, In x merged ->
            (x < length h)%nat /\ (In x (seen ++ [r]) \/ (length h0 <= x)%nat)).
  { intros x Hx. destruct (Hin x Hx) as [Hxlt [Hxs|Hxf]]; split; auto.
    left. apply in_or_app. now left. }
  assert (Hrnot : ~ In r merged).
  { intros Hx. destruct (Hin r Hx) as [_ [Hxs|Hxf]]; [contradiction | lia]. }
  unfold merge_step_obj, merge_step. rewrite Hhr.
  destruct (_count_tokens self (text chunk) <? min_chunk_tokens self).
  - destruct buffer as [b|]; destruct bv as [v|]; try contradiction.
    + destruct Hbuf as (Hb & Hbge & Hbnot). rewrite Hb. cbv zeta.
      assert (Hblt : (b < length h)%nat) by (apply lookup_lt_is_Some; eauto).
      assert (Hold' : forall x, (x < length h0)%nat ->
                <[b := set_text v (text v +:+ " " +:+ text chunk)]> h !! x = h0 !! x).
      { intros x Hx. rewrite list_lookup_insert_ne by lia. now apply Hold. }
      assert (Hden' : denotes (<[b := set_text v (text v +:+ " " +:+ text chunk)]> h) merged mv).
      { apply (denotes_mono h); [|exact Hden]. intros x Hx.
        apply list_lookup_insert_ne. intros <-. contradiction. }
      assert (Hnew : <[b := set_text v (text v +:+ " " +:+ text chunk)]> h !! b
                     = Some (set_text v (text v +:+ " " +:+ text chunk)))
        by now apply list_lookup_insert_eq.
      simpl text.
      destruct (min_chunk_tokens self <=? _count_tokens self (text v +:+ " " +:+ text chunk)).
      * eexists. split; [reflexivity|]. unfold merge_related.
        rewrite length_insert.
        split; [exact Hold'|]. split; [exact Hlen|]. split.
        { apply denotes_app; [exact Hden'|]. constructor; [exact Hnew | constructor]. }
        split.
        { apply NoDup_ListNoDup, NoDup_app. split; [now apply NoDup_ListNoDup|].
          split; [|apply NoDup_singleton].
          intros x Hx Hxb. apply list_elem_of_In in Hx. apply list_elem_of_In in Hxb.
          destruct Hxb as [<-|[]]. contradiction. }
        split; [|exact I].
        intros x Hx. apply in_app_or in Hx as [Hx|[<-|[]]]; [now apply Hseen|].
        split; [exact Hblt | now right].
      * eexists. split; [reflexivity|]. unfold merge_related.
        rewrite length_insert.
        split; [exact Hold'|]. split; [exact Hlen|]. split; [exact Hden'|].
        split; [exact Hnd|]. split; [exact Hseen|]. auto.
    + eexists. split; [reflexivity|]. unfold merge_related.
      rewrite length_app. simpl length.
      split. { intros x Hx. rewrite lookup_app_l by lia. now apply Hold. }
      split; [lia|]. split.
      { apply (denotes_mono h); [|exact Hden]. intros x Hx.
        apply lookup_app_l. now apply Hin. }
      split; [exact Hnd|]. split.
      { intros x Hx. destruct (Hseen x Hx) as [Hxlt Hxs]. split; [lia | exact Hxs]. }
      split; [|split; [exact Hlen|]].
      * rewrite lookup_app_r by lia. now rewrite Nat.sub_diag.
      * intros Hx. apply Hin in Hx as [Hx _]. lia.
  - destruct buffer as [b|]; destruct bv as [v|]; try contradiction.
    + destruct Hbuf as (Hb & Hbge & Hbnot).
      assert (Hblt : (b < length h)%nat) by (apply lookup_lt_is_Some; eauto).
      eexists. split; [reflexivity|]. unfold merge_related.
      split; [exact Hold|]. split; [exact Hlen|]. split.
      { apply denotes_app; [apply denotes_app; [exact Hden|]|];
          (constructor; [assumption | constructor]). }
      split.
      { apply NoDup_ListNoDup. rewrite <- app_assoc. apply NoDup_app.
        split; [now apply NoDup_ListNoDup|]. split.
        - intros x Hx Hxb. apply list_elem_of_In in Hx. apply list_elem_of_In in Hxb.
          destruct Hxb as [<-|[<-|[]]]; contradiction.
        - apply NoDup_cons. split; [|apply NoDup_singleton].
          intros Hx. apply list_elem_of_In in Hx. destruct Hx as [<-|[]]. lia. }
      split; [|exact I].
      intros x Hx. apply in_app_or in Hx as [Hx|[<-|[]]].
      * apply in_app_or in Hx as [Hx|[<-|[]]]; [now apply Hseen|].
        split; [exact Hblt | now right].
      * split; [lia|]. left. apply in_or_app. right. now left.
    + eexists. split; [reflexivity|]. unfold merge_related.
      split; [exact Hold|]. split; [exact Hlen|]. split.
      { apply denotes_app; [exact Hden|]. constructor; [assumption | constructor]. }
      split.
      { apply NoDup_ListNoDup, NoDup_app. split; [now apply NoDup_ListNoDup|].
        split; [|apply NoDup_singleton].
        intros x Hx Hxb. apply list_elem_of_In in Hx. apply list_elem_of_In in Hxb.
        destruct Hxb as [<-|[]]. contradiction. }
      split; [|exact I].
      intros x Hx. apply in_app_or in Hx as [Hx|[<-|[]]]; [now apply Hseen|].
      split; [lia|]. left. apply in_or_app. right. now left.
Qed.

Lemma merge_fold_related (h0 : heap) (refs seen : list nat) (values : list Chunk)
    (st : merge_state) (vst : list Chunk * option Chunk) :
  merge_related h0 seen st vst ->
  denotes h0 refs values ->
  List.NoDup (seen ++ refs) ->
  exists st', fold_left (merge_step_obj self) refs (Some st) = Some st' /\
              merge_related h0 (seen ++ refs) st' (fold_left (merge_step self) values vst).
Proof.
  intros Hrel Hden. revert seen st vst Hrel.
  induction Hden as [|r v refs values Hr Hden IH]; intros seen st vst Hrel Hnd.
  - exists st. rewrite app_nil_r. now split.
  - destruct (merge_step_related h0 seen st vst r v Hrel Hr) as (st1 & Hstep & Hrel1).
    { apply List.NoDup_remove_2 in Hnd. intros Hx. apply Hnd, in_or_app. now left. }
    cbn [fold_left]. rewrite Hstep.
    destruct (IH (seen ++ [r]) st1 _ Hrel1) as (st' & Hfold & Hrel').
    { now rewrite <- app_assoc. }
    exists st'. split; [exact Hfold|]. now rewrite <- app_assoc in Hrel'.
Qed.

Lemma reindex_obj_other (h : heap) (i : Z) (merged : list nat) (r : nat) :
  ~ In r merged -> reindex_obj h i merged !! r = h !! r.
Proof.
  revert h i. induction merged as [|x merged IH]; intros h i Hr; [reflexivity|].
  simpl. rewrite IH by (intros Hx; apply Hr; now right).
  apply list_lookup_alter_ne. intros <-. apply Hr. now left.
Qed.

Lemma reindex_obj_denotes (h : heap) (i : Z) (merged : list nat) (mv : list Chunk) :
  List.NoDup merged -> denotes h merged mv ->
  denotes (reindex_obj h i merged) merged (reindex i mv).
Proof.
  intros Hnd Hden. revert h i mv Hden.
  induction Hnd as [|r merged Hr Hnd IH]; intros h i mv Hden.
  - inversion Hden; subst. constructor.
  - inversion Hden as [|r' v merged' mv' Hv Hrest]; subst. simpl. constructor.
    + rewrite reindex_obj_other by exact Hr.
      rewrite list_lookup_alter_eq, Hv. reflexivity.
    + apply IH. apply (denotes_mono h); [|exact Hrest].
      intros x Hx. apply list_lookup_alter_ne. intros <-. contradiction.
Qed.

(** On a list of distinct dictionaries the method computes, object
    for object, the values of [_merge_small_chunks], and its result
    again holds distinct dictionaries. *)
Lemma merge_small_chunks_obj_adequate (h : heap) (refs : list nat) (values : list Chunk) :
  List.NoDup refs -> denotes h refs values ->
  exists h' out,
    _merge_small_chunks_obj self h refs = Some (h', out) /\
    denotes h' out (_merge_small_chunks self values) /\
    List.NoDup out.
Proof.
  intros Hnd Hden. destruct Hden as [|r v refs values Hr Hden].
  - exists h, []. repeat split; constructor.
  - assert (Hall : denotes h (r :: refs) (v :: values)) by now constructor.
    destruct (merge_fold_related h (r :: refs) [] (v :: values) (h, [], None) ([], None))
      as ([[h1 merged] buffer] & Hfold & Hrel); [|exact Hall|exact Hnd|].
    { unfold merge_related. split; [reflexivity|]. split; [lia|]. split; [constructor|].
      split; [constructor|]. split; [intros y []|exact I]. }
    unfold _merge_small_chunks_obj, _merge_small_chunks. rewrite Hfold.
    destruct (fold_left (merge_step self) (v :: values) ([], None)) as [mv bv].
    destruct Hrel as (_ & _ & Hmd & Hmnd & _ & Hbuf).
    eexists _, _. split; [reflexivity|].
    destruct buffer as [b|]; destruct bv as [bvv|]; try contradiction.
    + destruct Hbuf as (Hb & _ & Hbnot).
      assert (Hnd' : List.NoDup (merged ++ [b])).
      { apply NoDup_ListNoDup, NoDup_app. split; [now apply NoDup_ListNoDup|].
        split; [|apply NoDup_singleton].
        intros x Hx Hxb. apply list_elem_of_In in Hx. apply list_elem_of_In in Hxb.
        destruct Hxb as [<-|[]]. contradiction. }
      split; [|exact Hnd'].
      apply reindex_obj_denotes; [exact Hnd'|].
      apply denotes_app; [exact Hmd|]. constructor; [exact Hb | constructor].
    + split; [|exact Hmnd]. now apply reindex_obj_denotes.
Qed.

(** The method run on its own result, for a list of distinct
    dictionaries: the dictionaries of the second result have the
    values that those of the first result had. *)
Lemma merge_small_chunks_obj_idempotent (h : heap) (refs : list nat) (values : list Chunk) :
  List.NoDup refs -> denotes h refs values ->
  exists h1 out1 h2 out2 result,
    _merge_small_chunks_obj self h refs = Some (h1, out1) /\
    _merge_small_chunks_obj self h1 out1 = Some (h2, out2) /\
    denotes h1 out1 result /\ denotes h2 out2 result.
Proof.
  intros Hnd Hden.
  destruct (merge_small_chunks_obj_adequate h refs values Hnd Hden)
    as (h1 & out1 & Hrun1 & Hden1 & Hnd1).
  destruct (merge_small_chunks_obj_adequate h1 out1 _ Hnd1 Hden1)
    as (h2 & out2 & Hrun2 & Hden2 & _).
  exists h1, out1, h2, out2, (_merge_small_chunks self values).
  split; [exact Hrun1|]. split; [exact Hrun2|]. split; [exact Hden1|].
  replace (_merge_small_chunks self values)
    with (_merge_small_chunks self (_merge_small_chunks self values)); [exact Hden2|].
  rewrite !merge_small_chunks_eq.
  assert (Hs : settled self (reindex 0 (merge_go self None values)))
    by (apply reindex_settled, merge_go_settled; discriminate).
  destruct (merge_go_settled_id self _ Hs) as [-> _]. apply reindex_reindex.
Qed.

End MergeObjects.

(** A list that holds the same dictionary twice: both places of the
    result show the index written last.  Run again on that result,
    the method returns the same. *)
Example merge_small_chunks_obj_aliased :
  let h := [{| Chunker.text := "Cats are mammals."; Chunker.chunk_index := 0;
               Chunker.doc_id := "d" |}] in
  let h1 := [{| Chunker.text := "Cats are mammals."; Chunker.chunk_index := 1;
                Chunker.doc_id := "d" |}] in
  Spec._merge_small_chunks_obj Spec.exact_chunker h [0; 0]%nat = Some (h1, [0; 0]%nat) /\
  Spec._merge_small_chunks_obj Spec.exact_chunker h1 [0; 0]%nat = Some (h1, [0; 0]%nat).
Proof. split; reflexivity. Qed.

(** ** Dictionaries *)

Section DictFacts.

Context {V : Type}.

Lemma dict_get_set_eq (d : dict V) (k : string) (v : V) :
  dict_get (dict_set d k v) k = Some v.
Proof.
  induction d as [|[k' v'] d IH]; simpl.
  - now rewrite String.eqb_refl.
  - destruct (String.eqb_spec k' k) as [->|Hne]; simpl.
    + now rewrite String.eqb_refl.
    + destruct (String.eqb_spec k' k); [contradiction | exact IH].
Qed.

Lemma dict_set_length (d : dict V) (k : string) (v : V) :
  llen (dict_set d k v) <= llen d + 1.
Proof.
  unfold llen. induction d as [|[k' v'] d IH]; simpl; [lia|].
  destruct (String.eqb k' k); simpl; lia.
Qed.

Lemma dict_set_fresh (d : dict V) (k : string) (v : V) :
  ~ In k (dict_keys d) -> dict_set d k v = d ++ [(k, v)].
Proof.
  induction d as [|[k' v'] d IH]; intros Hk; simpl; [reflexivity|].
  destruct (String.eqb_spec k' k) as [->|Hne].
  - exfalso. apply Hk. now left.
  - rewrite IH; [reflexivity|]. intros Hin. apply Hk. now right.
Qed.

Lemma dict_del_head (k : string) (v : V) (d : dict V) : dict_del ((k, v) :: d) k = d.
Proof. simpl. now rewrite String.eqb_refl. Qed.

Lemma dict_get_absent (d : dict V) (k : string) :
  ~ In k (dict_keys d) -> dict_get d k = None.
Proof.
  induction d as [|[k' v'] d IH]; intros Hk; simpl; [reflexivity|].
  destruct (String.eqb_spec k' k) as [->|Hne].
  - exfalso. apply Hk. now left.
  - apply IH. intros Hin. apply Hk. now right.
Qed.

Lemma dict_get_present (d : dict V) (k : string) (v : V) :
  List.NoDup (dict_keys d) -> In (k, v) d -> dict_get d k = Some v.
Proof.
  induction d as [|[k' v'] d IH]; intros Hnd Hin; [destruct Hin|].
  simpl in Hnd. apply List.NoDup_cons_iff in Hnd as [Hk' Hnd].
  destruct Hin as [[= -> ->]|Hin]; simpl.
  - now rewrite String.eqb_refl.
  - destruct (String.eqb_spec k' k) as [->|Hne]; [|now apply IH].
    exfalso. apply Hk'. unfold dict_keys. apply (in_map fst) in Hin. exact Hin.
Qed.

End DictFacts.

(** ** The embedding cache *)

Section Cache.

Import Embedder Spec.

Variable self : EmbeddingsClient.

Lemma update_cache_eval (key : string) (v : vector) (s : State) :
  _update_cache self key v s =
    if _max_cache_size self <=? llen (_cache s) then
      match _cache s with
      | [] => (Raise StopIteration, s)
      | (oldest_key, _) :: _ =>
          (Ok tt, set_cache s (dict_set (dict_del (_cache s) oldest_key) key v))
      end
    else (Ok tt, set_cache s (dict_set (_cache s) key v)).
Proof.
  unfold _update_cache, mbind, get_state, modify, raise, ret.
  destruct s as [cache calls waits]. cbn [_cache].
  destruct (_max_cache_size self <=? llen cache); [|reflexivity].
  destruct cache as [|[k0 v0] rest]; reflexivity.
Qed.

Hypothesis capacity_positive : 1 <= _max_cache_size self.

Lemma update_cache_ok (key : string) (v : vector) (s : State) :
  exists s', _update_cache self key v s = (Ok tt, s') /\
             dict_get (_cache s') key = Some v /\
             (cache_within self s -> cache_within self s') /\
             remote_calls s' = remote_calls s /\ slept s' = slept s.
Proof.
  rewrite update_cache_eval. unfold cache_within.
  destruct (Z.leb_spec (_max_cache_size self) (llen (_cache s))) as [Hfull|Hroom].
  - destruct (_cache s) as [|[k0 v0] rest] eqn:Hc; [unfold llen in Hfull; simpl in Hfull; lia|].
    eexists. split; [reflexivity|]. simpl. rewrite String.eqb_refl.
    split; [apply dict_get_set_eq|]. split; [|split; reflexivity].
    intros Hin. pose proof (dict_set_length rest key v) as Hlen.
    unfold llen in *. simpl in Hin. lia.
  - eexists. split; [reflexivity|]. simpl.
    split; [apply dict_get_set_eq|]. split; [|split; reflexivity].
    intros _. pose proof (dict_set_length (_cache s) key v). lia.
Qed.

(** A full cache that receives a new key loses its first item, the
    one inserted first, and gets the new item last. *)
Lemma update_cache_evicts_oldest (key k0 : string) (v v0 : vector) (rest : dict vector)
    (s : State) :
  _cache s = (k0, v0) :: rest ->
  _max_cache_size self <= llen (_cache s) ->
  ~ In key (dict_keys rest) ->
  _update_cache self key v s = (Ok tt, set_cache s (rest ++ [(key, v)])).
Proof.
  intros Hc Hfull Hfresh. rewrite update_cache_eval.
  destruct (Z.leb_spec (_max_cache_size self) (llen (_cache s))); [|lia].
  rewrite Hc, dict_del_head, dict_set_fresh by exact Hfresh. reflexivity.
Qed.

(** Below capacity a new key is appended and nothing is evicted. *)
Lemma update_cache_appends (key : string) (v : vector) (s : State) :
  llen (_cache s) < _max_cache_size self ->
  ~ In key (dict_keys (_cache s)) ->
  _update_cache self key v s = (Ok tt, set_cache s (_cache s ++ [(key, v)])).
Proof.
  intros Hroom Hfresh. rewrite update_cache_eval.
  destruct (Z.leb_spec (_max_cache_size self) (llen (_cache s))); [lia|].
  now rewrite dict_set_fresh.
Qed.

Lemma put_all_below_capacity (items : list (string * vector)) (s : State) :
  List.NoDup (dict_keys (_cache s ++ items)) ->
  llen (_cache s ++ items) <= _max_cache_size self ->
  put_all self items s = (Ok tt, set_cache s (_cache s ++ items)).
Proof.
  revert s. induction items as [|[k v] items IH]; intros s Hnd Hlen.
  - simpl. rewrite app_nil_r. now destruct s.
  - simpl. unfold mbind. rewrite update_cache_appends.
    + rewrite IH; simpl; rewrite <- app_assoc; [reflexivity | exact Hnd | exact Hlen].
    + unfold llen in *. rewrite length_app in Hlen. simpl in Hlen. lia.
    + unfold dict_keys in *. rewrite map_app in Hnd. simpl in Hnd.
      apply List.NoDup_remove_2 in Hnd. intros Hin. apply Hnd.
      apply in_or_app. now left.
Qed.

End Cache.

(** ** Stateful steps that keep a property of the state *)

Section Preserves.

Import Embedder Spec.

Context {P : State -> Prop}.

Lemma preserves_ret {A} (a : A) : preserves P (ret a).
Proof. intros s Hs. exact Hs. Qed.

Lemma preserves_raise {A} (e : exn) : preserves P (raise (A := A) e).
Proof. intros s Hs. exact Hs. Qed.

Lemma preserves_lift {A} (r : PyResult A) : preserves P (lift r).
Proof. intros s Hs. exact Hs. Qed.

Lemma preserves_get : preserves P get_state.
Proof. intros s Hs. exact Hs. Qed.

Lemma preserves_modify (f : State -> State) :
  (forall s, P s -> P (f s)) -> preserves P (modify f).
Proof. intros Hf s Hs. now apply Hf. Qed.

Lemma preserves_mbind {A B} (m : M State A) (k : A -> M State B) :
  preserves P m -> (forall a, preserves P (k a)) -> preserves P (mbind m k).
Proof.
  intros Hm Hk s Hs. unfold mbind. specialize (Hm s Hs).
  destruct (m s) as [[a|e] s1]; simpl in *; [now apply Hk | exact Hm].
Qed.

Lemma preserves_try {A} (body : M State A) (handler : exn -> M State A) :
  preserves P body -> (forall e, preserves P (handler e)) ->
  preserves P (try_except body handler).
Proof.
  intros Hb Hh s Hs. unfold try_except. specialize (Hb s Hs).
  destruct (body s) as [[a|e] s1]; simpl in *; [exact Hb | now apply Hh].
Qed.

End Preserves.

Section EmbedderPreserves.

Import Embedder Spec.

Variable md5 : string -> string.
Variable L : Logger.Impl.
Variable self : EmbeddingsClient.

(** A property of the cache alone is kept by the steps that only
    count calls or sleep. *)
Variable P : State -> Prop.
Hypothesis P_cache : forall s s', _cache s' = _cache s -> P s -> P s'.
Hypothesis P_update : forall key v, preserves P (_update_cache self key v).

Lemma retry_attempts_preserves (client : AzureOpenAI) (texts : list string) (max_retries : Z)
    (attempts : list Z) :
  preserves P (retry_attempts L self client texts max_retries attempts).
Proof.
  induction attempts as [|a rest IH]; simpl; [apply preserves_ret|].
  apply preserves_try.
  - apply preserves_mbind; [apply preserves_get|]. intros s0.
    apply preserves_mbind; [apply preserves_modify; intros s; now apply P_cache|].
    intros _. apply preserves_mbind; [apply preserves_lift|]. intros vs. apply preserves_ret.
  - intros e. destruct (a <? max_retries - 1); [|apply preserves_raise].
    apply preserves_mbind; [apply preserves_lift|]. intros _.
    apply preserves_mbind; [apply preserves_modify; intros s; now apply P_cache|].
    intros _. exact IH.
Qed.

Lemma embed_fallback_preserves (texts : list string) :
  preserves P (_embed_fallback L self texts).
Proof.
  unfold _embed_fallback. apply preserves_mbind; [apply preserves_lift|].
  intros _. apply preserves_ret.
Qed.

Lemma scan_cache_state (items : list (Z * string)) (acc : scan_acc) (s : State) :
  snd (scan_cache md5 L items acc s) = s.
Proof.
  revert acc. induction items as [|[i t] rest IH]; intros acc; [reflexivity|].
  simpl. unfold mbind at 1. simpl.
  destruct (dict_get (_cache s) (_get_cache_key md5 t)) as [v|]; [|apply IH].
  unfold mbind, lift. destruct (Logger.log_debug L _ _); [apply IH | reflexivity].
Qed.

Lemma update_all_preserves (pairs : list (string * vector)) :
  preserves P (update_all md5 self pairs).
Proof.
  induction pairs as [|[t v] rest IH]; simpl; [apply preserves_ret|].
  apply preserves_mbind; [apply P_update | intros _; exact IH].
Qed.

Lemma embed_uncached_preserves (to_embed : list string) :
  preserves P (embed_uncached md5 L self to_embed).
Proof.
  unfold embed_uncached. apply preserves_try.
  - apply preserves_mbind.
    + destruct (_client self) as [client|].
      * apply retry_attempts_preserves.
      * apply preserves_mbind; [apply embed_fallback_preserves | intros; apply preserves_ret].
    + intros [nv|]; [|apply preserves_raise].
      apply preserves_mbind; [apply update_all_preserves | intros; apply preserves_ret].
  - intros e. apply preserves_mbind; [apply preserves_lift|].
    intros _. apply embed_fallback_preserves.
Qed.

Lemma embed_texts_preserves (texts : list string) :
  preserves P (embed_texts md5 L self texts).
Proof.
  unfold embed_texts. destruct texts as [|t rest]; [apply preserves_ret|].
  apply preserves_mbind.
  - intros s Hs. now rewrite scan_cache_state.
  - intros acc. apply preserves_mbind.
    + destruct (texts_to_embed acc); [apply preserves_ret|].
      apply preserves_mbind; [apply preserves_lift|]. intros _.
      apply embed_uncached_preserves.
    + intros nv. apply preserves_mbind; [apply preserves_lift | intros; apply preserves_ret].
Qed.

End EmbedderPreserves.

(** ** The cache scan *)

Section Scan.

Import Embedder Spec.

Variable md5 : string -> string.
Variable L : Logger.Impl.

Lemma scan_result_step_hit (cache : dict vector) (i : Z) (t : string) (v : vector)
    (rest : list (Z * string)) (acc : scan_acc) :
  dict_get cache (md5 t) = Some v ->
  scan_result md5 cache rest
    {| texts_to_embed := texts_to_embed acc; indices_to_embed := indices_to_embed acc;
       cached_vectors := cached_vectors acc ++ [v];
       cached_indices := cached_indices acc ++ [i] |}
  = scan_result md5 cache ((i, t) :: rest) acc.
Proof.
  intros Hv. unfold scan_result. simpl. unfold is_miss, hit_pair, cached. simpl.
  rewrite Hv. simpl. now rewrite <- !app_assoc.
Qed.

Lemma scan_result_step_miss (cache : dict vector) (i : Z) (t : string)
    (rest : list (Z * string)) (acc : scan_acc) :
  dict_get cache (md5 t) = None ->
  scan_result md5 cache rest
    {| texts_to_embed := texts_to_embed acc ++ [t];
       indices_to_embed := indices_to_embed acc ++ [i];
       cached_vectors := cached_vectors acc; cached_indices := cached_indices acc |}
  = scan_result md5 cache ((i, t) :: rest) acc.
Proof.
  intros Hv. unfold scan_result. simpl. unfold is_miss, hit_pair, cached. simpl.
  rewrite Hv. simpl. now rewrite <- !app_assoc.
Qed.

Lemma scan_cache_ok (items : list (Z * string)) (acc acc' : scan_acc) (s : State) :
  fst (scan_cache md5 L items acc s) = Ok acc' ->
  acc' = scan_result md5 (_cache s) items acc.
Proof.
  revert acc. induction items as [|[i t] rest IH]; intros acc.
  - simpl. intros [= <-]. unfold scan_result. simpl. rewrite !app_nil_r. now destruct acc.
  - simpl. unfold mbind at 1. simpl. unfold _get_cache_key.
    destruct (dict_get (_cache s) (md5 t)) as [v|] eqn:Hv.
    + unfold mbind, lift. destruct (Logger.log_debug L _ _); [|discriminate].
      intros H. apply IH in H. rewrite H. now apply (scan_result_step_hit _ i t v).
    + intros H. apply IH in H. rewrite H. now apply (scan_result_step_miss _ i t).
Qed.

Lemma scan_cache_plain (items : list (Z * string)) (acc : scan_acc) (s : State) :
  Logger.plain_ok L ->
  scan_cache md5 L items acc s = (Ok (scan_result md5 (_cache s) items acc), s).
Proof.
  intros HL. revert acc. induction items as [|[i t] rest IH]; intros acc.
  - simpl. unfold ret, scan_result. simpl. rewrite !app_nil_r. now destruct acc.
  - simpl. unfold mbind at 1. simpl. unfold _get_cache_key.
    destruct (dict_get (_cache s) (md5 t)) as [v|] eqn:Hv.
    + unfold mbind, lift. destruct (HL "Cache hit for embedding") as (_ & _ & _ & ->).
      rewrite IH. now rewrite (scan_result_step_hit _ i t v rest acc Hv).
    + rewrite IH. now rewrite (scan_result_step_miss _ i t rest acc Hv).
Qed.

Lemma no_miss_among_hits (cache : dict vector) (texts : list string) (k : Z) :
  Forall (fun t => cached md5 cache t <> None) texts ->
  List.filter (is_miss md5 cache) (enumerate_from k texts) = [].
Proof.
  intros Hhits. revert k. induction Hhits as [|t ts Ht Hts IH]; intros k; [reflexivity|].
  simpl. unfold is_miss at 1. simpl.
  destruct (cached md5 cache t); [apply IH | congruence].
Qed.

(** A batch of cached texts leaves the state as it was: a read of
    the cache changes neither its items nor their order. *)
Lemma embed_texts_all_hits (self : EmbeddingsClient) (texts : list string) (s : State) :
  Forall (fun t => cached md5 (_cache s) t <> None) texts ->
  snd (embed_texts md5 L self texts s) = s.
Proof.
  intros Hhits. unfold embed_texts. destruct texts as [|t0 rest]; [reflexivity|].
  set (texts := t0 :: rest) in *.
  unfold mbind at 1.
  pose proof (scan_cache_state md5 L (enumerate texts) empty_scan s) as Hst.
  pose proof (fun acc' => scan_cache_ok (enumerate texts) empty_scan acc' s) as Hok.
  destruct (scan_cache md5 L (enumerate texts) empty_scan s) as [[acc|e] s1];
    simpl in Hst; subst s1; [|reflexivity].
  specialize (Hok acc eq_refl).
  assert (Hnone : texts_to_embed acc = []).
  { rewrite Hok. unfold scan_result, enumerate. cbn [texts_to_embed empty_scan].
    now rewrite no_miss_among_hits. }
  rewrite Hnone. unfold mbind, ret, lift.
  now destruct (Logger.log_info L _ _).
Qed.

End Scan.

Section CacheOrder.

Import Embedder Spec.

Variable self : EmbeddingsClient.
Hypothesis capacity_positive : 1 <= _max_cache_size self.

Lemma put_all_app (a b : list (string * vector)) (s : State) :
  put_all self (a ++ b) s =
    match put_all self a s with
    | (Ok _, s') => put_all self b s'
    | (Raise e, s') => (Raise e, s')
    end.
Proof.
  revert s. induction a as [|[k v] a IH]; intros s; [reflexivity|].
  simpl. unfold mbind. destruct (_update_cache self k v s) as [[[]|e] s1]; [apply IH | reflexivity].
Qed.

(** One key more than the capacity, all distinct, into the empty
    cache: the items left are all but the first. *)
Lemma put_all_overflow (k0 : string) (v0 : vector) (rest : list (string * vector)) :
  List.NoDup (k0 :: map fst rest) ->
  llen rest = _max_cache_size self ->
  put_all self ((k0, v0) :: rest) initial_state = (Ok tt, set_cache initial_state rest).
Proof.
  intros Hnd Hlen.
  destruct (List.exists_last (l := rest)) as (front & [kl vl] & ->).
  { intros ->. unfold llen in Hlen. simpl in Hlen. lia. }
  change ((k0, v0) :: front ++ [(kl, vl)]) with (((k0, v0) :: front) ++ [(kl, vl)]).
  assert (Hlen' : llen ((k0, v0) :: front) = _max_cache_size self).
  { unfold llen in *. rewrite length_app in Hlen. simpl in *. lia. }
  rewrite put_all_app, put_all_below_capacity.
  - simpl. unfold mbind.
    rewrite (update_cache_evicts_oldest self kl k0 vl v0 front); [reflexivity | reflexivity | | ].
    + simpl. lia.
    + rewrite map_app in Hnd. simpl in Hnd. apply List.NoDup_cons_iff in Hnd as [_ Hnd].
      apply List.NoDup_remove_2 in Hnd. rewrite app_nil_r in Hnd. exact Hnd.
  - simpl. rewrite map_app in Hnd. simpl in Hnd.
    change (k0 :: map fst front ++ [kl]) with ((k0 :: map fst front) ++ [kl]) in Hnd.
    apply List.NoDup_remove_1 in Hnd. now rewrite app_nil_r in Hnd.
  - simpl. lia.
Qed.

End CacheOrder.

(** C5.  For a capacity of at least one.  The cache never holds more
    than [_max_cache_size] items: [_update_cache] and [embed_texts]
    keep that bound, and a key that was put is found.  Eviction is
    first in, first out: a put into a full cache removes the item that
    was inserted first and no other, a new key goes to the end, and a
    batch of cache hits leaves the cache and the order of its items as
    they were.  After [_max_cache_size + 1] distinct keys were put in
    order into the empty cache, the first key is absent and the later
    ones are present. *)
Theorem embedding_cache_bounded_fifo (self : Embedder.EmbeddingsClient) :
  1 <= Embedder._max_cache_size self ->
  (forall key v s,
     Spec.cache_within self s ->
     exists s', Embedder._update_cache self key v s = (Ok tt, s') /\
                Spec.cache_within self s' /\
                dict_get (Embedder._cache s') key = Some v) /\
  (forall md5 L texts s,
     Spec.cache_within self s ->
     Spec.cache_within self (snd (Embedder.embed_texts md5 L self texts s))) /\
  (forall key v k0 v0 rest s,
     Embedder._cache s = (k0, v0) :: rest ->
     Embedder._max_cache_size self <= llen (Embedder._cache s) ->
     exists s', Embedder._update_cache self key v s = (Ok tt, s') /\
                Embedder._cache s' = dict_set rest key v /\
                (~ In key (dict_keys rest) -> Embedder._cache s' = rest ++ [(key, v)])) /\
  (forall md5 L texts s,
     Forall (fun t => Spec.cached md5 (Embedder._cache s) t <> None) texts ->
     snd (Embedder.embed_texts md5 L self texts s) = s) /\
  (forall k0 v0 rest,
     List.NoDup (k0 :: map fst rest) ->
     llen rest = Embedder._max_cache_size self ->
     exists s', Spec.put_all self ((k0, v0) :: rest) Embedder.initial_state = (Ok tt, s') /\
                Embedder._cache s' = rest /\
                dict_get (Embedder._cache s') k0 = None /\
                forall k v, In (k, v) rest -> dict_get (Embedder._cache s') k = Some v).
Proof.
  intros Hcap. split; [|split; [|split; [|split]]].
  - intros key v s Hs.
    destruct (update_cache_ok self Hcap key v s) as (s' & Hrun & Hget & Hin & _).
    exists s'. auto.
  - intros md5 L texts s Hs.
    apply (embed_texts_preserves md5 L self (Spec.cache_within self)); [| |exact Hs].
    + intros s1 s2 Heq. unfold Spec.cache_within. now rewrite Heq.
    + intros key v s1 Hs1.
      destruct (update_cache_ok self Hcap key v s1) as (s' & -> & _ & Hin & _). now apply Hin.
  - intros key v k0 v0 rest s Hc Hfull. rewrite update_cache_eval.
    destruct (Z.leb_spec (Embedder._max_cache_size self) (llen (Embedder._cache s))); [|lia].
    rewrite Hc, dict_del_head. eexists. split; [reflexivity|]. split; [reflexivity|].
    intros Hfresh. simpl. now apply dict_set_fresh.
  - intros md5 L texts s. apply embed_texts_all_hits.
  - intros k0 v0 rest Hnd Hlen. rewrite (put_all_overflow self Hcap k0 v0 rest Hnd Hlen).
    eexists. split; [reflexivity|]. split; [reflexivity|].
    apply List.NoDup_cons_iff in Hnd as [Hk0 Hnd]. simpl. split.
    + now apply dict_get_absent.
    + intros k v. now apply dict_get_present.
Qed.

Lemma embedding_cache_bounded_fifo_witness :
  exists s', Spec.put_all Spec.default_client (Spec.numbered_items 101) Embedder.initial_state
               = (Ok tt, s') /\
             llen (Embedder._cache s') = 100 /\
             dict_get (Embedder._cache s') "k" = None /\
             dict_get (Embedder._cache s') "kk" = Some [2%Q].
Proof.
  destruct (embedding_cache_bounded_fifo Spec.default_client) as (_ & _ & _ & _ & H);
    [vm_compute; discriminate|].
  destruct (H "k" [1%Q] (tl (Spec.numbered_items 101))) as (s' & Hrun & Hc & Ha & Hin).
  - apply NoDup_ListNoDup. apply (bool_decide_unpack _). vm_compute. exact I.
  - reflexivity.
  - exists s'. split; [exact Hrun|]. split; [now rewrite Hc|]. split; [exact Ha|].
    apply Hin. vm_compute. now left.
Defined.

(** ** The fallback embedding *)

Section Fallback.

Import Embedder Spec.

Variable self : EmbeddingsClient.

Lemma enumerate_from_lookup {A} (xs : list A) (k : Z) (i : nat) :
  enumerate_from k xs !! i = (fun x => (k + Z.of_nat i, x)) <$> xs !! i.
Proof.
  revert k i. induction xs as [|x xs IH]; intros k i; [now destruct i|].
  destruct i as [|i]; simpl.
  - now rewrite Z.add_0_r.
  - rewrite IH. destruct (xs !! i); simpl; [|reflexivity].
    do 2 f_equal. lia.
Qed.

Lemma enumerate_from_length {A} (xs : list A) (k : Z) :
  length (enumerate_from k xs) = length xs.
Proof. revert k. induction xs as [|x xs IH]; intros k; simpl; [|rewrite IH]; reflexivity. Qed.

Lemma range_lookup (n : Z) (j : nat) :
  (j < Z.to_nat n)%nat -> range n !! j = Some (Z.of_nat j).
Proof.
  intros Hj. unfold range. rewrite list_lookup_fmap, lookup_seq_lt by exact Hj. reflexivity.
Qed.

Lemma range_length (n : Z) : length (range n) = Z.to_nat n.
Proof. unfold range. now rewrite length_map, length_seq. Qed.

Lemma fallback_vectors_lookup (texts : list string) (i : nat) :
  fallback_vectors self texts !! i = fallback_vector self (Z.of_nat i) <$> texts !! i.
Proof.
  unfold fallback_vectors, enumerate. rewrite list_lookup_fmap, enumerate_from_lookup.
  now destruct (texts !! i).
Qed.

Lemma fallback_vectors_length (texts : list string) :
  length (fallback_vectors self texts) = length texts.
Proof. unfold fallback_vectors, enumerate. now rewrite length_map, enumerate_from_length. Qed.

(** The fallback vector of the text at position [i] of the batch
    has [dim] components, and component [j] is
    [((base * (j + i + 1)) mod 17) / 17], where [base] is the sum of
    the character codes of the text, or 1 when that sum is 0. *)
Lemma fallback_vectors_component (texts : list string) (i : nat) (t : string) (j : Z) :
  texts !! i = Some t ->
  0 <= j < dim self ->
  exists v,
    fallback_vectors self texts !! i = Some v /\
    length v = Z.to_nat (dim self) /\
    v !! Z.to_nat j =
      Some (let total := sum (map ord (list_ascii_of_string t)) in
            let base := if total =? 0 then 1 else total in
            ((base * (j + Z.of_nat i + 1)) mod 17) # 17).
Proof.
  intros Ht Hj. rewrite fallback_vectors_lookup, Ht. simpl.
  eexists. split; [reflexivity|]. unfold fallback_vector. split.
  - now rewrite length_map, range_length.
  - rewrite list_lookup_fmap, range_lookup by lia. simpl.
    now rewrite Z2Nat.id by lia.
Qed.

(** The same text at the same position gets the same vector,
    whatever else the batch holds. *)
Lemma fallback_vectors_deterministic (texts texts' : list string) (i : nat) (t : string) :
  texts !! i = Some t -> texts' !! i = Some t ->
  fallback_vectors self texts !! i = fallback_vectors self texts' !! i.
Proof. intros H H'. now rewrite !fallback_vectors_lookup, H, H'. Qed.

Lemma embed_fallback_accepting (L : Logger.Impl) (texts : list string) (s : State) :
  Logger.accepts_kwargs L ->
  _embed_fallback L self texts s = (Ok (fallback_vectors self texts), s).
Proof.
  intros HL. unfold _embed_fallback, mbind, lift.
  now destruct (HL "Using fallback embeddings" ["count"]) as (_ & _ & -> & _).
Qed.

End Fallback.

(** C8, and the code as it is.  [_embed_fallback] passes the keyword
    argument [count] to [log_warning], which takes none: the call
    raises [TypeError] before any vector is computed, for every list
    of texts.  With a logger that takes keyword arguments it returns
    one vector for each text, the vector of the text at position [i]
    has component [j] equal to [((base * (j + i + 1)) mod 17) / 17],
    where [base] is the sum of the character codes of the text, or 1
    when that sum is 0, and that vector depends on the text and the
    position alone. *)
Theorem embed_fallback_type_error_and_formula
    (self : Embedder.EmbeddingsClient) (texts : list string) (s : Embedder.State) :
  Embedder._embed_fallback Logger.backend self texts s
    = (Raise (TypeError "log_warning() got an unexpected keyword argument 'count'"), s) /\
  forall L, Logger.accepts_kwargs L ->
    exists vectors,
      Embedder._embed_fallback L self texts s = (Ok vectors, s) /\
      length vectors = length texts /\
      (forall (i : nat) (t : string) (j : Z),
         texts !! i = Some t -> 0 <= j < Embedder.dim self ->
         exists v,
           vectors !! i = Some v /\
           length v = Z.to_nat (Embedder.dim self) /\
           v !! Z.to_nat j =
             Some (let total := sum (map ord (list_ascii_of_string t)) in
                   let base := if total =? 0 then 1 else total in
                   ((base * (j + Z.of_nat i + 1)) mod 17) # 17)) /\
      (forall texts' s' (i : nat) (t : string),
         texts !! i = Some t -> texts' !! i = Some t ->
         exists vectors',
           Embedder._embed_fallback L self texts' s' = (Ok vectors', s') /\
           vectors' !! i = vectors !! i).
Proof.
  split; [reflexivity|]. intros L HL.
  exists (Spec.fallback_vectors self texts).
  split; [now apply embed_fallback_accepting|].
  split; [apply fallback_vectors_length|]. split.
  - intros i t j Ht Hj. now apply fallback_vectors_component.
  - intros texts' s' i t Ht Ht'. exists (Spec.fallback_vectors self texts').
    split; [now apply embed_fallback_accepting|].
    now apply (fallback_vectors_deterministic self texts' texts i t).
Qed.

Lemma embed_fallback_type_error_and_formula_witness :
  Embedder._embed_fallback Logger.backend Spec.small_client ["a"; "b"] Embedder.initial_state
    = (Raise (TypeError "log_warning() got an unexpected keyword argument 'count'"),
       Embedder.initial_state) /\
  Embedder._embed_fallback Logger.lenient Spec.small_client ["a"; "b"] Embedder.initial_state
    = (Ok [[12 # 17; 7 # 17; 2 # 17]; [9 # 17; 5 # 17; 1 # 17]], Embedder.initial_state).
Proof.
  destruct (embed_fallback_type_error_and_formula Spec.small_client ["a"; "b"]
              Embedder.initial_state) as [Hraise Hformula].
  split; [exact Hraise|].
  destruct (Hformula Logger.lenient) as (vectors & Hrun & _); [intros m kw; repeat split|].
  reflexivity.
Defined.

(** ** Putting the vectors back in input order *)

Section Reconstruct.

Import Embedder Spec.

Lemma assign_all_length (vs : list (option vector)) (pairs : list (Z * vector)) :
  length (assign_all vs pairs) = length vs.
Proof.
  revert vs. induction pairs as [|[idx v] pairs IH]; intros vs; [reflexivity|].
  simpl. rewrite IH. unfold list_assign. apply length_insert.
Qed.

Lemma assign_all_lookup_other (vs : list (option vector)) (pairs : list (Z * vector))
    (i : nat) :
  (forall p, In p pairs -> Z.to_nat (fst p) <> i) ->
  assign_all vs pairs !! i = vs !! i.
Proof.
  revert vs. induction pairs as [|[idx v] pairs IH]; intros vs Hne; [reflexivity|].
  simpl. rewrite IH by (intros p Hp; apply Hne; now right).
  unfold list_assign. apply list_lookup_insert_ne.
  apply (Hne (idx, v)). now left.
Qed.

Lemma assign_combine_absent (vs : list (option vector)) (idxs : list Z) (nv : list vector)
    (i : nat) :
  Forall (fun idx => 0 <= idx) idxs ->
  ~ In (Z.of_nat i) idxs ->
  assign_all vs (combine idxs nv) !! i = vs !! i.
Proof.
  intros Hpos Hnot. apply assign_all_lookup_other. intros [idx v] Hin.
  apply in_combine_l in Hin. simpl. intros <-.
  apply Hnot. rewrite Z2Nat.id; [exact Hin|].
  now apply (proj1 (List.Forall_forall _ _) Hpos).
Qed.

Lemma assign_combine_present (vs : list (option vector)) (idxs : list Z) (nv : list vector)
    (i j : nat) :
  Forall (fun idx => 0 <= idx) idxs ->
  List.NoDup idxs ->
  idxs !! j = Some (Z.of_nat i) ->
  (i < length vs)%nat ->
  assign_all vs (combine idxs nv) !! i =
    match nv !! j with Some v => Some (Some v) | None => vs !! i end.
Proof.
  revert vs nv j. induction idxs as [|idx idxs IH]; intros vs nv j Hpos Hnd Hj Hi;
    [discriminate|].
  apply Forall_cons_1 in Hpos as [Hidx Hpos].
  apply List.NoDup_cons_iff in Hnd as [Hnotin Hnd].
  destruct nv as [|v nv]; [now destruct j|].
  simpl combine. simpl assign_all.
  change (fold_left _ (combine idxs nv) (list_assign vs idx (Some v)))
    with (assign_all (list_assign vs idx (Some v)) (combine idxs nv)).
  destruct j as [|j]; simpl in Hj |- *.
  - injection Hj as ->. rewrite assign_combine_absent by assumption.
    unfold list_assign. rewrite Nat2Z.id. now apply list_lookup_insert_eq.
  - rewrite (IH _ nv j Hpos Hnd Hj) by (unfold list_assign; now rewrite length_insert).
    destruct (nv !! j); [reflexivity|].
    unfold list_assign. apply list_lookup_insert_ne.
    intros Heq. apply Hnotin. replace idx with (Z.of_nat i) by lia.
    apply list_elem_of_In. now apply (list_elem_of_lookup_2 _ j).
Qed.

(** *** The indices of the scan *)

Variable md5 : string -> string.
Variable cache : dict vector.

Lemma enumerate_from_in {A} (xs : list A) (k p : Z) (x : A) :
  In (p, x) (enumerate_from k xs) -> k <= p /\ xs !! Z.to_nat (p - k) = Some x.
Proof.
  revert k. induction xs as [|y xs IH]; intros k Hin; [destruct Hin|].
  destruct Hin as [[= <- <-]|Hin].
  - split; [lia|]. now rewrite Z.sub_diag.
  - apply IH in Hin as [Hle Hlk]. split; [lia|].
    replace (Z.to_nat (p - k)) with (S (Z.to_nat (p - (k + 1)))) by lia. exact Hlk.
Qed.

Lemma filter_enumerate_indices (f : Z * string -> bool) (texts : list string) (k : Z) :
  Forall (fun idx => k <= idx) (map fst (List.filter f (enumerate_from k texts))) /\
  List.NoDup (map fst (List.filter f (enumerate_from k texts))).
Proof.
  revert k. induction texts as [|t texts IH]; intros k; [split; constructor|].
  destruct (IH (k + 1)) as [Hge Hnd]. simpl.
  assert (Hge' : Forall (fun idx => k <= idx)
                   (map fst (List.filter f (enumerate_from (k + 1) texts)))).
  { eapply List.Forall_impl; [|exact Hge]. simpl. intros; lia. }
  destruct (f (k, t)); [|now split]. simpl. split; [constructor; [lia | exact Hge']|].
  constructor; [|exact Hnd]. intros Hin.
  apply (proj1 (List.Forall_forall _ _) Hge) in Hin. lia.
Qed.

Lemma hit_indices (items : list (Z * string)) :
  map fst (flat_map (hit_pair md5 cache) items) =
    map fst (List.filter (is_hit md5 cache) items).
Proof.
  induction items as [|[p x] items IH]; [reflexivity|].
  simpl. unfold hit_pair at 1, is_hit at 1, is_miss. simpl.
  destruct (cached md5 cache x); simpl; now rewrite IH.
Qed.

(** The text at position [i], when it is a miss, sits in the miss
    batch at its rank, with index [i]. *)
Lemma miss_lookup (texts : list string) (k : Z) (i : nat) (t : string) :
  texts !! i = Some t ->
  cached md5 cache t = None ->
  List.filter (is_miss md5 cache) (enumerate_from k texts)
    !! length (List.filter (is_miss md5 cache) (enumerate_from k (firstn i texts)))
  = Some (k + Z.of_nat i, t).
Proof.
  revert k i. induction texts as [|x texts IH]; intros k i Ht Hmiss; [discriminate|].
  destruct i as [|i]; simpl in Ht.
  - injection Ht as ->. simpl. unfold is_miss at 1. simpl. rewrite Hmiss.
    simpl. now rewrite Z.add_0_r.
  - specialize (IH (k + 1) i Ht Hmiss).
    replace (k + Z.of_nat (S i)) with (k + 1 + Z.of_nat i) by lia.
    cbn [firstn enumerate_from List.filter].
    destruct (is_miss md5 cache (k, x)); [exact IH | exact IH].
Qed.

(** The text at position [i], when it is a hit, has its index and
    its cached vector at the same place of the two hit lists. *)
Lemma hit_lookup (texts : list string) (k : Z) (i : nat) (t : string) (v : vector) :
  texts !! i = Some t ->
  cached md5 cache t = Some v ->
  exists j, flat_map (hit_pair md5 cache) (enumerate_from k texts) !! j
            = Some (k + Z.of_nat i, v).
Proof.
  revert k i. induction texts as [|x texts IH]; intros k i Ht Hhit; [discriminate|].
  destruct i as [|i]; simpl in Ht.
  - injection Ht as ->. exists O. simpl. unfold hit_pair at 1. simpl. rewrite Hhit.
    simpl. now rewrite Z.add_0_r.
  - destruct (IH (k + 1) i Ht Hhit) as [j Hj].
    replace (k + Z.of_nat (S i)) with (k + 1 + Z.of_nat i) by lia.
    cbn [enumerate_from flat_map]. unfold hit_pair at 1. cbn [fst snd].
    destruct (cached md5 cache x); [exists (S j) | exists j]; exact Hj.
Qed.

Lemma index_in_filter (f : Z * string -> bool) (texts : list string) (i : nat) (t : string) :
  texts !! i = Some t ->
  In (Z.of_nat i) (map fst (List.filter f (enumerate texts))) ->
  f (Z.of_nat i, t) = true.
Proof.
  intros Ht Hin. apply in_map_iff in Hin as ([p x] & Hp & Hin). simpl in Hp. subst p.
  apply filter_In in Hin as [Hin Hf].
  apply enumerate_from_in in Hin as [_ Hx].
  rewrite Z.sub_0_r, Nat2Z.id, Ht in Hx. now injection Hx as ->.
Qed.

End Reconstruct.

(** ** [embed_texts] with a logger that takes keyword arguments *)

Section EmbedTexts.

Import Embedder Spec.

Variable md5 : string -> string.
Variable L : Logger.Impl.
Variable self : EmbeddingsClient.
Hypothesis L_accepts : Logger.accepts_kwargs L.

Lemma accepts_plain : Logger.plain_ok L.
Proof. intros m. apply L_accepts. Qed.

(** The [try] statement always yields vectors: what the body
    raises, the handler turns into the fallback. *)
Lemma embed_uncached_returns (to_embed : list string) (s : State) :
  exists nv s', embed_uncached md5 L self to_embed s = (Ok nv, s').
Proof.
  unfold embed_uncached, try_except.
  match goal with |- context [match ?b s with _ => _ end] => destruct (b s) as [[nv|e] s1] end.
  - now exists nv, s1.
  - unfold mbind, lift.
    destruct (L_accepts "Embeddings generation failed" ["fallback"]) as (_ & -> & _).
    rewrite embed_fallback_accepting by exact L_accepts. eauto.
Qed.

Lemma embed_texts_eval (texts : list string) (s : State) :
  texts <> [] ->
  let acc := scan_result md5 (_cache s) (enumerate texts) empty_scan in
  exists nv s',
    match texts_to_embed acc with
    | [] => (Ok nv, s') = (Ok [], s)
    | _ => embed_uncached md5 L self (texts_to_embed acc) s = (Ok nv, s')
    end /\
    embed_texts md5 L self texts s =
      (Ok (assign_all
             (assign_all (replicate (length texts) None)
                         (combine (cached_indices acc) (cached_vectors acc)))
             (combine (indices_to_embed acc) nv)), s').
Proof.
  intros Hne acc. unfold embed_texts. destruct texts as [|t0 rest]; [congruence|].
  set (texts := t0 :: rest) in *.
  unfold mbind at 1. rewrite (scan_cache_plain md5 L _ _ _ accepts_plain). fold acc.
  destruct (texts_to_embed acc) as [|m ms] eqn:Hm.
  - exists [], s. split; [reflexivity|]. unfold mbind, ret, lift.
    now destruct (L_accepts "Embeddings ready" ["count"; "elapsed_ms"]) as (-> & _).
  - destruct (embed_uncached_returns (m :: ms) s) as (nv & s' & Hrun).
    exists nv, s'. split; [exact Hrun|]. unfold mbind, ret, lift.
    destruct (L_accepts "Generating embeddings" ["total"; "cached"; "new"]) as (-> & _).
    rewrite Hrun.
    now destruct (L_accepts "Embeddings ready" ["count"; "elapsed_ms"]) as (-> & _).
Qed.

(** The vector at a position is the cached vector of the text at
    that position, or what the miss batch got at the rank of that
    text. *)
Lemma reconstruct_lookup (texts : list string) (cache : dict vector) (nv : list vector)
    (i : nat) (t : string) :
  texts !! i = Some t ->
  let acc := scan_result md5 cache (enumerate texts) empty_scan in
  assign_all
    (assign_all (replicate (length texts) None)
                (combine (cached_indices acc) (cached_vectors acc)))
    (combine (indices_to_embed acc) nv) !! i =
  match cached md5 cache t with
  | Some v => Some (Some v)
  | None => Some (nv !! miss_rank md5 cache texts i)
  end.
Proof.
  intros Ht acc.
  assert (Hi : (i < length texts)%nat) by (apply lookup_lt_is_Some; eauto).
  destruct (filter_enumerate_indices (is_miss md5 cache) texts 0) as [Hmpos Hmnd].
  destruct (filter_enumerate_indices (is_hit md5 cache) texts 0) as [Hhpos Hhnd].
  cbn [acc scan_result indices_to_embed cached_indices cached_vectors empty_scan app].
  rewrite hit_indices. unfold enumerate.
  destruct (cached md5 cache t) as [v|] eqn:Hc.
  - (* a hit: the miss pass does not touch position [i] *)
    rewrite assign_combine_absent; [|exact Hmpos|].
    + destruct (hit_lookup md5 cache texts 0 i t v Ht Hc) as [j Hj].
      rewrite (assign_combine_present _ _ _ i j); [| exact Hhpos | exact Hhnd | |].
      * rewrite list_lookup_fmap. now rewrite Hj.
      * rewrite <- hit_indices, list_lookup_fmap. now rewrite Hj.
      * now rewrite length_replicate.
    + intros Hin. apply (index_in_filter _ texts i t Ht) in Hin.
      unfold is_miss in Hin. simpl in Hin. now rewrite Hc in Hin.
  - (* a miss *)
    pose proof (miss_lookup md5 cache texts 0 i t Ht Hc) as Hj.
    rewrite (assign_combine_present _ _ _ i (miss_rank md5 cache texts i));
      [| exact Hmpos | exact Hmnd | |].
    + destruct (nv !! miss_rank md5 cache texts i); [reflexivity|].
      rewrite assign_combine_absent; [|exact Hhpos|].
      * now rewrite lookup_replicate_2.
      * intros Hin. apply (index_in_filter _ texts i t Ht) in Hin.
        unfold is_hit, is_miss in Hin. simpl in Hin. now rewrite Hc in Hin.
    + unfold miss_rank, misses, enumerate. rewrite length_map, list_lookup_fmap.
      now rewrite Hj.
    + now rewrite assign_all_length, length_replicate.
Qed.

Lemma miss_rank_lookup (texts : list string) (cache : dict vector) (i : nat) (t : string) :
  texts !! i = Some t -> cached md5 cache t = None ->
  misses md5 cache texts !! miss_rank md5 cache texts i = Some t.
Proof.
  intros Ht Hc. unfold miss_rank, misses, enumerate.
  rewrite length_map, list_lookup_fmap, (miss_lookup md5 cache texts 0 i t Ht Hc).
  reflexivity.
Qed.

End EmbedTexts.

Section EmbedUncached.

Import Embedder Spec.

Variable md5 : string -> string.
Variable L : Logger.Impl.
Variable self : EmbeddingsClient.
Hypothesis L_accepts : Logger.accepts_kwargs L.

Lemma update_all_put_all (texts : list string) (vectors : list vector) (s : State) :
  update_all md5 self (combine texts vectors) s
    = put_all self (cache_items md5 texts vectors) s.
Proof.
  unfold cache_items. revert s.
  induction (combine texts vectors) as [|[t v] pairs IH]; intros s; [reflexivity|].
  simpl. unfold mbind. unfold _get_cache_key.
  destruct (_update_cache self (md5 t) v s) as [[[]|e] s1]; [apply IH | reflexivity].
Qed.

Lemma put_all_returns (items : list (string * vector)) (s : State) :
  1 <= _max_cache_size self ->
  exists s', put_all self items s = (Ok tt, s') /\
             remote_calls s' = remote_calls s /\ slept s' = slept s /\
             forall front k v, items = front ++ [(k, v)] -> dict_get (_cache s') k = Some v.
Proof.
  intros Hcap. revert s. induction items as [|[k v] items IH]; intros s.
  - exists s. repeat split. intros [|? ?] ? ? H; discriminate H.
  - destruct (update_cache_ok self Hcap k v s) as (s1 & Hrun & Hget & _ & Hcalls & Hslept).
    destruct (IH s1) as (s' & Hrest & Hcalls' & Hslept' & Hlast).
    exists s'. simpl. unfold mbind. rewrite Hrun, Hrest.
    split; [reflexivity|]. split; [congruence|]. split; [congruence|].
    intros front k' v' Heq. destruct front as [|p front].
    + simpl in Heq. simplify_eq. simpl in Hrest. unfold ret in Hrest. now simplify_eq.
    + simpl in Heq. simplify_eq. now apply (Hlast front).
Qed.

Lemma retry_attempts_down (client : AzureOpenAI) (texts : list string) (max_retries a : Z)
    (rest : list Z) (s : State) :
  remote_down self client ->
  retry_attempts L self client texts max_retries (a :: rest) s =
    if a <? max_retries - 1
    then retry_attempts L self client texts max_retries rest (sleep (2 ^ a) (count_call s))
    else match embeddings_create client (remote_calls s) (deployment self) texts (dim self) with
         | Ok vs => (Ok (Some vs), count_call s)
         | Raise e => (Raise e, count_call s)
         end.
Proof.
  intros Hdown. destruct (Hdown (remote_calls s) texts) as [e He].
  destruct (L_accepts "Embedding attempt failed, retrying" []) as (_ & _ & Hwarn & _).
  cbn [retry_attempts]. unfold try_except, mbind, get_state, modify, lift, raise.
  rewrite He. destruct (a <? max_retries - 1); [|reflexivity].
  now rewrite Hwarn.
Qed.

(** The endpoint is down: three calls, waits of one and two seconds,
    then the fallback vectors; nothing is written to the cache. *)
Lemma embed_uncached_remote_down (client : AzureOpenAI) (to_embed : list string) (s : State) :
  _client self = Some client ->
  remote_down self client ->
  embed_uncached md5 L self to_embed s
    = (Ok (fallback_vectors self to_embed), after_three_failures s).
Proof.
  intros Hclient Hdown. unfold embed_uncached. rewrite Hclient.
  unfold _embed_with_openai_retry. change (range 3) with [0; 1; 2].
  destruct (L_accepts "Embeddings generation failed" ["fallback"]) as (_ & Herr & _).
  unfold try_except, mbind at 1.
  rewrite !retry_attempts_down by exact Hdown.
  change (0 <? 3 - 1) with true. change (1 <? 3 - 1) with true.
  change (2 <? 3 - 1) with false. cbv iota.
  destruct (Hdown (remote_calls (sleep (2 ^ 1) (count_call (sleep (2 ^ 0) (count_call s)))))
              to_embed) as [e He].
  rewrite He. unfold mbind, lift. rewrite Herr.
  now rewrite embed_fallback_accepting.
Qed.

(** No endpoint: the fallback vectors, each written to the cache. *)
Lemma embed_uncached_no_client (to_embed : list string) (s : State) :
  _client self = None ->
  1 <= _max_cache_size self ->
  exists s',
    put_all self (cache_items md5 to_embed (fallback_vectors self to_embed)) s = (Ok tt, s') /\
    embed_uncached md5 L self to_embed s = (Ok (fallback_vectors self to_embed), s').
Proof.
  intros Hclient Hcap. unfold embed_uncached. rewrite Hclient.
  destruct (put_all_returns (cache_items md5 to_embed (fallback_vectors self to_embed)) s Hcap)
    as (s' & Hput & _).
  exists s'. split; [exact Hput|].
  unfold try_except, mbind. rewrite embed_fallback_accepting by exact L_accepts.
  unfold ret at 1. rewrite update_all_put_all, Hput. reflexivity.
Qed.

Lemma retry_attempts_ok (client : AzureOpenAI) (texts : list string) (max_retries : Z)
    (attempts : list Z) (s s' : State) (vs : list vector) :
  retry_attempts L self client texts max_retries attempts s = (Ok (Some vs), s') ->
  exists n, embeddings_create client n (deployment self) texts (dim self) = Ok vs.
Proof.
  revert s. induction attempts as [|a rest IH]; intros s; [discriminate|].
  simpl. unfold try_except, mbind, get_state, modify, lift, ret.
  destruct (embeddings_create client (remote_calls s) (deployment self) texts (dim self))
    as [vs0|e] eqn:Hcall.
  - intros [= <- _]. eauto.
  - destruct (a <? max_retries - 1); [|discriminate].
    destruct (Logger.log_warning L _ _); [|discriminate]. apply IH.
Qed.

(** Whatever happens, the miss batch gets one vector for each text,
    when the endpoint returns one for each text. *)
Lemma embed_uncached_length (to_embed : list string) (nv : list vector) (s s' : State) :
  remote_contract self ->
  embed_uncached md5 L self to_embed s = (Ok nv, s') ->
  length nv = length to_embed.
Proof.
  intros Hremote. unfold embed_uncached, try_except.
  match goal with |- context [match ?b s with _ => _ end] =>
    destruct (b s) as [[nv0|e] s1] eqn:Hbody end.
  - intros [= <- <-]. revert Hbody. unfold mbind at 1.
    destruct (_client self) as [client|] eqn:Hclient.
    + destruct (_embed_with_openai_retry L self client to_embed 3 s) as [[[vs|]|e] s2] eqn:Hr;
        [|discriminate|discriminate].
      unfold mbind, ret. destruct (update_all md5 self (combine to_embed vs) s2) as [[[]|e] s3];
        [|discriminate].
      intros [= <- _]. apply retry_attempts_ok in Hr as [n Hn].
      now apply (Hremote client n).
    + unfold mbind at 1. rewrite embed_fallback_accepting by exact L_accepts.
      unfold ret at 1, mbind, ret.
      destruct (update_all md5 self _ s) as [[[]|e] s3]; [|discriminate].
      intros [= <- _]. apply fallback_vectors_length.
  - unfold mbind, lift.
    destruct (L_accepts "Embeddings generation failed" ["fallback"]) as (_ & -> & _).
    rewrite embed_fallback_accepting by exact L_accepts.
    intros [= <- _]. apply fallback_vectors_length.
Qed.

End EmbedUncached.

(** ** [embed_texts]: order, fallback and cache *)

Section EmbedTextsResults.

Import Embedder Spec.

Variable md5 : string -> string.
Variable L : Logger.Impl.
Variable self : EmbeddingsClient.
Hypothesis L_accepts : Logger.accepts_kwargs L.

Lemma texts_to_embed_misses (cache : dict vector) (texts : list string) :
  texts_to_embed (scan_result md5 cache (enumerate texts) empty_scan) = misses md5 cache texts.
Proof. reflexivity. Qed.

Lemma cache_items_snoc (front : list string) (t : string) (k : Z) :
  map (fun '(t, v) => (md5 t, v))
      (combine (front ++ [t])
         (map (fun '(i, x) => fallback_vector self i x) (enumerate_from k (front ++ [t]))))
  = map (fun '(t, v) => (md5 t, v))
        (combine front (map (fun '(i, x) => fallback_vector self i x) (enumerate_from k front)))
    ++ [(md5 t, fallback_vector self (k + Z.of_nat (length front)) t)].
Proof.
  revert k. induction front as [|x front IH]; intros k.
  - simpl. now rewrite Z.add_0_r.
  - cbn [app enumerate_from map combine length]. rewrite IH.
    replace (k + 1 + Z.of_nat (length front)) with (k + Z.of_nat (S (length front))) by lia.
    reflexivity.
Qed.

(** With a logger that takes keyword arguments [embed_texts]
    returns, and its result follows the input position by position:
    a cached text gets its cached vector, a text that is not cached
    gets the vector that the miss batch [nv] holds at the rank of
    that text among the misses. *)
Lemma embed_texts_positions (texts : list string) (s : State) :
  exists vectors nv s',
    embed_texts md5 L self texts s = (Ok vectors, s') /\
    length vectors = length texts /\
    (misses md5 (_cache s) texts = [] /\ nv = [] /\ s' = s \/
     embed_uncached md5 L self (misses md5 (_cache s) texts) s = (Ok nv, s')) /\
    forall i t, texts !! i = Some t ->
      vectors !! i =
        match cached md5 (_cache s) t with
        | Some v => Some (Some v)
        | None => Some (nv !! miss_rank md5 (_cache s) texts i)
        end.
Proof.
  destruct texts as [|t0 rest].
  - exists [], [], s. split; [reflexivity|]. split; [reflexivity|].
    split; [left; auto | intros i t Ht; discriminate].
  - set (texts := t0 :: rest).
    destruct (embed_texts_eval md5 L self L_accepts texts s) as (nv & s' & Hnv & Hrun);
      [discriminate|].
    rewrite texts_to_embed_misses in Hnv.
    eexists _, nv, s'. split; [exact Hrun|].
    split; [now rewrite !assign_all_length, length_replicate|]. split.
    + destruct (misses md5 (_cache s) texts); [left; now simplify_eq | right; exact Hnv].
    + intros i t Ht. now apply reconstruct_lookup.
Qed.

(** When the endpoint answers with one vector for each text, every
    position holds a vector, and it is the vector of the text at
    that position: the cached one, or the one at the place of the
    text in the miss batch. *)
Lemma embed_texts_order_preserved (texts : list string) (s : State) :
  remote_contract self ->
  exists vectors nv s',
    embed_texts md5 L self texts s = (Ok vectors, s') /\
    length vectors = length texts /\
    length nv = length (misses md5 (_cache s) texts) /\
    forall i t, texts !! i = Some t ->
      exists v, vectors !! i = Some (Some v) /\
        match cached md5 (_cache s) t with
        | Some c => v = c
        | None =>
            misses md5 (_cache s) texts !! miss_rank md5 (_cache s) texts i = Some t /\
            nv !! miss_rank md5 (_cache s) texts i = Some v
        end.
Proof.
  intros Hremote.
  destruct (embed_texts_positions texts s) as (vectors & nv & s' & Hrun & Hlen & Hnv & Hpos).
  assert (Hnvlen : length nv = length (misses md5 (_cache s) texts)).
  { destruct Hnv as [(-> & -> & _)|Hnv]; [reflexivity|].
    now apply (embed_uncached_length md5 L self L_accepts _ _ s s'). }
  exists vectors, nv, s'. split; [exact Hrun|]. split; [exact Hlen|]. split; [exact Hnvlen|].
  intros i t Ht. rewrite (Hpos i t Ht).
  destruct (cached md5 (_cache s) t) as [c|] eqn:Hc; [now exists c|].
  pose proof (miss_rank_lookup md5 texts (_cache s) i t Ht Hc) as Hrank.
  destruct (lookup_lt_is_Some_2 nv (miss_rank md5 (_cache s) texts i)) as [v Hv].
  { rewrite Hnvlen. apply lookup_lt_is_Some. eauto. }
  exists v. rewrite Hv. auto.
Qed.

(** The endpoint is down at every attempt: [embed_texts] returns a
    vector for every text, the fallback vector for a miss, and the
    cache is as it was. *)
Lemma embed_texts_remote_down (client : AzureOpenAI) (texts : list string) (s : State) :
  _client self = Some client ->
  remote_down self client ->
  exists vectors s',
    embed_texts md5 L self texts s = (Ok vectors, s') /\
    _cache s' = _cache s /\
    length vectors = length texts /\
    forall i t, texts !! i = Some t ->
      vectors !! i =
        Some (Some match cached md5 (_cache s) t with
                   | Some c => c
                   | None =>
                       fallback_vector self (Z.of_nat (miss_rank md5 (_cache s) texts i)) t
                   end).
Proof.
  intros Hclient Hdown.
  destruct (embed_texts_positions texts s) as (vectors & nv & s' & Hrun & Hlen & Hnv & Hpos).
  exists vectors, s'. split; [exact Hrun|].
  rewrite (embed_uncached_remote_down md5 L self L_accepts client _ s Hclient Hdown) in Hnv.
  split; [destruct Hnv as [(_ & _ & ->)|[= _ <-]]; reflexivity|]. split; [exact Hlen|].
  intros i t Ht. rewrite (Hpos i t Ht).
  destruct (cached md5 (_cache s) t) as [c|] eqn:Hc; [reflexivity|].
  pose proof (miss_rank_lookup md5 texts (_cache s) i t Ht Hc) as Hrank.
  destruct Hnv as [(Hnone & _)|[= <- _]]; [rewrite Hnone in Hrank; discriminate|].
  now rewrite fallback_vectors_lookup, Hrank.
Qed.

(** No endpoint is configured: [embed_texts] returns the same
    vectors, and each fallback vector is written to the cache under
    the key of its text; the last one written is there at the
    end. *)
Lemma embed_texts_no_client (texts : list string) (s : State) :
  _client self = None ->
  1 <= _max_cache_size self ->
  exists vectors s',
    embed_texts md5 L self texts s = (Ok vectors, s') /\
    put_all self (cache_items md5 (misses md5 (_cache s) texts)
                    (fallback_vectors self (misses md5 (_cache s) texts))) s = (Ok tt, s') /\
    (forall front t,
       misses md5 (_cache s) texts = front ++ [t] ->
       cached md5 (_cache s) t = None /\
       cached md5 (_cache s') t = Some (fallback_vector self (Z.of_nat (length front)) t)) /\
    forall i t, texts !! i = Some t ->
      vectors !! i =
        Some (Some match cached md5 (_cache s) t with
                   | Some c => c
                   | None =>
                       fallback_vector self (Z.of_nat (miss_rank md5 (_cache s) texts i)) t
                   end).
Proof.
  intros Hclient Hcap.
  destruct (embed_texts_positions texts s) as (vectors & nv & s' & Hrun & Hlen & Hnv & Hpos).
  destruct (embed_uncached_no_client md5 L self L_accepts (misses md5 (_cache s) texts) s
              Hclient Hcap) as (s1 & Hput & Huncached).
  assert (Hs : s' = s1 /\ (misses md5 (_cache s) texts <> [] ->
                           nv = fallback_vectors self (misses md5 (_cache s) texts))).
  { destruct Hnv as [(Hnone & -> & ->)|Hnv].
    - rewrite Hnone in Hput. simpl in Hput. unfold ret in Hput.
      split; [congruence | now rewrite Hnone].
    - rewrite Huncached in Hnv. now simplify_eq. }
  destruct Hs as [-> Hfb]. exists vectors, s1. split; [exact Hrun|]. split; [exact Hput|].
  split.
  - intros front t Hlast. split.
    + assert (Hin : In t (misses md5 (_cache s) texts))
        by (rewrite Hlast; apply in_or_app; right; now left).
      unfold misses in Hin. apply in_map_iff in Hin as ([p x] & <- & Hin).
      apply filter_In in Hin as [_ Hmiss]. unfold is_miss in Hmiss. simpl in *.
      now destruct (cached md5 (_cache s) x).
    + destruct (put_all_returns self
                  (cache_items md5 (misses md5 (_cache s) texts)
                     (fallback_vectors self (misses md5 (_cache s) texts))) s Hcap)
        as (s2 & Hput2 & _ & _ & Hfinal).
      rewrite Hput in Hput2. injection Hput2 as <-.
      unfold cached. apply (Hfinal (cache_items md5 front (fallback_vectors self front))).
      rewrite Hlast. unfold cache_items, fallback_vectors, enumerate.
      now rewrite cache_items_snoc.
  - intros i t Ht. rewrite (Hpos i t Ht).
    destruct (cached md5 (_cache s) t) as [c|] eqn:Hc; [reflexivity|].
    pose proof (miss_rank_lookup md5 texts (_cache s) i t Ht Hc) as Hrank.
    rewrite Hfb by (intros Hnone; rewrite Hnone in Hrank; discriminate).
    now rewrite fallback_vectors_lookup, Hrank.
Qed.

End EmbedTextsResults.

(** C2, and the code as it is.  For every list of texts that is not
    empty [embed_texts] raises [TypeError] and returns no list: with a
    miss, at [log_info("Generating embeddings", total=..., ...)];
    without, at [log_info("Embeddings ready", count=..., ...)];
    [log_info] takes the message alone.  With a logger that takes
    keyword arguments, and an endpoint that answers with one vector
    for each text, it returns a list as long as its input in which
    every position holds the vector of the text at that position: the
    cached vector of a cached text, and for a text that is not cached
    the vector that the miss batch got at the place where that text
    stands in the batch. *)
Theorem embed_texts_type_error_and_order
    (md5 : string -> string) (self : Embedder.EmbeddingsClient) (texts : list string)
    (s : Embedder.State) :
  (texts <> [] ->
   exists msg,
     Embedder.embed_texts md5 Logger.backend self texts s = (Raise (TypeError msg), s)) /\
  forall L, Logger.accepts_kwargs L -> Spec.remote_contract self ->
    exists vectors nv s',
      Embedder.embed_texts md5 L self texts s = (Ok vectors, s') /\
      length vectors = length texts /\
      length nv = length (Spec.misses md5 (Embedder._cache s) texts) /\
      forall i t, texts !! i = Some t ->
        exists v, vectors !! i = Some (Some v) /\
          match Spec.cached md5 (Embedder._cache s) t with
          | Some c => v = c
          | None =>
              Spec.misses md5 (Embedder._cache s) texts
                !! Spec.miss_rank md5 (Embedder._cache s) texts i = Some t /\
              nv !! Spec.miss_rank md5 (Embedder._cache s) texts i = Some v
          end.
Proof.
  split.
  - intros Hne. unfold Embedder.embed_texts. destruct texts as [|t0 rest]; [congruence|].
    unfold mbind at 1. rewrite scan_cache_plain by (intros m; repeat split).
    destruct (Embedder.texts_to_embed _) as [|m ms]; eexists; reflexivity.
  - intros L HL Hremote. now apply embed_texts_order_preserved.
Qed.

Lemma embed_texts_type_error_and_order_witness :
  (exists msg,
     Embedder.embed_texts (fun t => t) Logger.backend Spec.small_client ["a"; "b"; "c"]
       Embedder.initial_state = (Raise (TypeError msg), Embedder.initial_state)) /\
  exists vectors s',
    Embedder.embed_texts (fun t => t) Logger.lenient Spec.small_client ["a"; "b"; "c"]
      Embedder.initial_state = (Ok vectors, s') /\
    length vectors = 3%nat.
Proof.
  destruct (embed_texts_type_error_and_order (fun t => t) Spec.small_client ["a"; "b"; "c"]
              Embedder.initial_state) as [Hraise Horder].
  split; [apply Hraise; discriminate|].
  destruct (Horder Logger.lenient) as (vectors & nv & s' & Hrun & Hlen & _).
  - intros m kw. repeat split.
  - intros client n ts vs Hclient. discriminate Hclient.
  - now exists vectors, s'.
Defined.

(** C10, and the code as it is.  A batch with a text that is not
    cached raises [TypeError] at
    [log_info("Generating embeddings", ...)], before the [try]
    statement is entered: whether the endpoint is down or none is
    configured, no vector is returned and none is written to the
    cache.  With a logger that takes keyword arguments: when the
    endpoint raises at every attempt, [embed_texts] returns a vector
    for every text, the fallback vector for a text that is not cached,
    and leaves the cache as it was; when no endpoint is configured it
    returns the same vectors and writes each fallback vector to the
    cache, so that the last text of the miss batch, absent before, is
    cached afterwards. *)
Theorem embed_texts_type_error_and_fallback
    (md5 : string -> string) (self : Embedder.EmbeddingsClient) (texts : list string)
    (s : Embedder.State) :
  (Spec.misses md5 (Embedder._cache s) texts <> [] ->
   Embedder.embed_texts md5 Logger.backend self texts s
     = (Raise (TypeError "log_info() got an unexpected keyword argument 'total'"), s)) /\
  forall L, Logger.accepts_kwargs L ->
    let expected (i : nat) (t : string) :=
      match Spec.cached md5 (Embedder._cache s) t with
      | Some c => c
      | None =>
          Embedder.fallback_vector self
            (Z.of_nat (Spec.miss_rank md5 (Embedder._cache s) texts i)) t
      end in
    (forall client,
       Embedder._client self = Some client -> Spec.remote_down self client ->
       exists vectors s',
         Embedder.embed_texts md5 L self texts s = (Ok vectors, s') /\
         Embedder._cache s' = Embedder._cache s /\
         length vectors = length texts /\
         forall i t, texts !! i = Some t -> vectors !! i = Some (Some (expected i t))) /\
    (Embedder._client self = None -> 1 <= Embedder._max_cache_size self ->
     exists vectors s',
       Embedder.embed_texts md5 L self texts s = (Ok vectors, s') /\
       Spec.put_all self
         (Spec.cache_items md5 (Spec.misses md5 (Embedder._cache s) texts)
            (Spec.fallback_vectors self (Spec.misses md5 (Embedder._cache s) texts))) s
         = (Ok tt, s') /\
       (forall front t,
          Spec.misses md5 (Embedder._cache s) texts = front ++ [t] ->
          Spec.cached md5 (Embedder._cache s) t = None /\
          Spec.cached md5 (Embedder._cache s') t
            = Some (Embedder.fallback_vector self (Z.of_nat (length front)) t)) /\
       forall i t, texts !! i = Some t -> vectors !! i = Some (Some (expected i t))).
Proof.
  split.
  - intros Hmiss. unfold Embedder.embed_texts. destruct texts as [|t0 rest]; [now elim Hmiss|].
    unfold mbind at 1. rewrite scan_cache_plain by (intros m; repeat split).
    rewrite texts_to_embed_misses.
    destruct (Spec.misses md5 (Embedder._cache s) (t0 :: rest)); [congruence | reflexivity].
  - intros L HL expected. split.
    + intros client Hclient Hdown. now apply (embed_texts_remote_down md5 L self HL client).
    + intros Hclient Hcap. now apply embed_texts_no_client.
Qed.

Lemma embed_texts_type_error_and_fallback_witness :
  Embedder.embed_texts (fun t => t) Logger.backend Spec.remote_client ["a"; "b"]
    Embedder.initial_state
  = (Raise (TypeError "log_info() got an unexpected keyword argument 'total'"),
     Embedder.initial_state) /\
  (exists vectors s',
     Embedder.embed_texts (fun t => t) Logger.lenient Spec.remote_client ["a"; "b"]
       Embedder.initial_state = (Ok vectors, s') /\
     Embedder._cache s' = []) /\
  (exists vectors s',
     Embedder.embed_texts (fun t => t) Logger.lenient Spec.small_client ["a"; "b"]
       Embedder.initial_state = (Ok vectors, s') /\
     Spec.cached (fun t => t) (Embedder._cache s') "b" = Some [9 # 17; 5 # 17; 1 # 17]).
Proof.
  split; [|split].
  - apply (embed_texts_type_error_and_fallback (fun t => t) Spec.remote_client ["a"; "b"]).
    vm_compute. discriminate.
  - destruct (embed_texts_type_error_and_fallback (fun t => t) Spec.remote_client ["a"; "b"]
                Embedder.initial_state) as [_ H].
    destruct (H Logger.lenient) as [Hdown _]; [intros m kw; repeat split|].
    destruct (Hdown Spec.dead_endpoint) as (vectors & s' & Hrun & Hcache & _).
    + reflexivity.
    + intros n ts. now exists (RemoteError "503").
    + now exists vectors, s'.
  - destruct (embed_texts_type_error_and_fallback (fun t => t) Spec.small_client ["a"; "b"]
                Embedder.initial_state) as [_ H].
    destruct (H Logger.lenient) as [_ Hnone]; [intros m kw; repeat split|].
    destruct Hnone as (vectors & s' & Hrun & _ & Hlast & _); [reflexivity | vm_compute; discriminate |].
    exists vectors, s'. split; [exact Hrun|].
    now apply (Hlast ["a"] "b").
Defined.

(** First in, first out, not least recently used: with room for two
    vectors and ["a"], ["b"] cached in that order, a batch that hits
    ["a"] and misses ["c"] evicts ["a"]. *)
Example cache_hit_does_not_refresh :
  Embedder._cache
    (snd (Embedder.embed_texts (fun t => t) Logger.lenient Spec.small_client ["a"; "c"]
            {| Embedder._cache := [("a", [1 # 2]); ("b", [1 # 3])];
               Embedder.remote_calls := 0; Embedder.slept := [] |}))
  = [("b", [1 # 3]); ("c", [14 # 17; 11 # 17; 8 # 17])].
Proof. reflexivity. Qed.

(** ** Similarity search *)

Section Search.

Import Cosmos Spec.

Lemma collect_length (items : list Item) (s : Q) : llen (collect items s) <= llen items.
Proof.
  unfold llen. induction items as [|item items IH]; simpl; [lia|].
  destruct (Qle_bool s _); simpl; lia.
Qed.

Lemma collect_threshold (items : list Item) (s : Q) :
  Forall (fun r => (s <= similarity r)%Q) (collect items s).
Proof.
  induction items as [|item items IH]; simpl; [constructor|].
  destruct (Qle_bool s _) eqn:Hle; [|exact IH].
  constructor; [|exact IH]. simpl. now apply Qle_bool_iff.
Qed.

(** A result comes from a record, and its similarity is one minus
    the distance reported for that record. *)
Lemma collect_in (items : list Item) (s : Q) (r : Result) :
  In r (collect items s) ->
  exists item, In item items /\ similarity r = (1 - reported_distance item)%Q.
Proof.
  induction items as [|item items IH]; simpl; [intros []|].
  destruct (Qle_bool s _).
  - intros [<-|Hin]; [exists item; split; [now left | reflexivity]|].
    destruct (IH Hin) as (it & Hit & Hsim). exists it. split; [now right | exact Hsim].
  - intros Hin. destruct (IH Hin) as (it & Hit & Hsim). exists it. split; [now right | exact Hsim].
Qed.

Lemma collect_sorted (items : list Item) (s : Q) :
  StronglySorted (fun a b => (reported_distance a <= reported_distance b)%Q) items ->
  StronglySorted by_similarity_desc (collect items s).
Proof.
  induction 1 as [|item items Hsorted IH Hhead]; simpl; [constructor|].
  destruct (Qle_bool s _); [|exact IH].
  constructor; [exact IH|]. apply List.Forall_forall. intros r Hr.
  destruct (collect_in items s r Hr) as (it & Hit & Hsim).
  unfold by_similarity_desc. rewrite Hsim. simpl.
  pose proof (proj1 (List.Forall_forall _ _) Hhead it Hit) as Hle.
  fold (reported_distance item). cbv beta in Hle. lra.
Qed.

Variable L : Logger.Impl.
Variable self : CosmosDBClient.
Hypothesis L_plain : Logger.plain_ok L.

Lemma say_plain (call : string -> Logger.kwargs -> PyResult unit) (level message : string)
    (tr : list event) :
  call message [] = Ok tt ->
  say call level message [] tr = (Ok tt, tr ++ [Logged level message]).
Proof. intros Hcall. unfold say, mbind, lift, emit, modify. now rewrite Hcall. Qed.

(** The value of [search_similar] once the store is available and
    holds documents: the records collected, or nothing when the
    query or a logging call raised. *)
Lemma search_similar_outcome (q : list Q) (k : Z) (s : Q) (tr : list event) :
  is_available self = true -> has_documents self = true ->
  exists c tr',
    container self = Some c /\
    (search_similar L self q k s tr = (Ok [], tr') \/
     exists items, query_items c q k = Ok items /\
                   search_similar L self q k s tr = (Ok (collect items s), tr')).
Proof.
  intros Hav Hdocs. unfold search_similar. rewrite Hav, Hdocs. cbn [negb].
  unfold is_available in Hav. destruct (container self) as [c|];
    [|now rewrite andb_false_r in Hav].
  exists c. unfold try_except, mbind at 1. unfold mbind at 1, emit, modify, lift.
  destruct (L_plain "Vector search failed") as (_ & Herr & _).
  destruct (query_items c q k) as [items|e].
  - unfold mbind, say, mbind, lift, emit, modify, ret.
    destruct (Logger.log_info L "Vector search complete" ["returned"]).
    + eexists. split; [reflexivity|]. right. exists items. split; reflexivity.
    + rewrite Herr. eexists. split; [reflexivity|]. now left.
  - unfold mbind, say, mbind, lift, emit, modify, ret. rewrite Herr.
    eexists. split; [reflexivity|]. now left.
Qed.

End Search.

Lemma search_similar_short_circuit
    (L : Logger.Impl) (self : Cosmos.CosmosDBClient) (q : list Q) (k : Z) (s : Q)
    (tr : list Cosmos.event) :
  Logger.plain_ok L ->
  (Cosmos.is_available self = false ->
   Cosmos.search_similar L self q k s tr
     = (Ok [], tr ++ [Cosmos.Logged "ERROR" "Cosmos DB not available for search"])) /\
  (Cosmos.is_available self = true -> Cosmos.has_documents self = false ->
   Cosmos.search_similar L self q k s tr
     = (Ok [], tr ++ [Cosmos.Logged "INFO" "Container empty, skipping vector search"])).
Proof.
  intros HL. unfold Cosmos.search_similar. split.
  - intros ->. cbn [negb]. unfold mbind.
    rewrite say_plain by apply HL. reflexivity.
  - intros -> ->. cbn [negb]. unfold mbind.
    rewrite say_plain by apply HL. reflexivity.
Qed.

(** C9.  When the client is not available, or is available and its
    container holds no document, [search_similar] returns the empty
    list and does not raise.  It sends no query to the store: the one
    event of the call is a log record, an error when the client is
    not available. *)
Theorem search_similar_unavailable_or_empty
    (L : Logger.Impl) (self : Cosmos.CosmosDBClient) (q : list Q) (k : Z) (s : Q)
    (tr : list Cosmos.event) :
  Logger.plain_ok L ->
  Cosmos.is_available self = false \/ Cosmos.has_documents self = false ->
  exists record,
    Cosmos.search_similar L self q k s tr = (Ok [], tr ++ [record]) /\
    Cosmos.is_query record = false /\
    (Cosmos.is_available self = false ->
     record = Cosmos.Logged "ERROR" "Cosmos DB not available for search").
Proof.
  intros HL Hcase.
  destruct (search_similar_short_circuit L self q k s tr HL) as [Hun Hempty].
  destruct (Cosmos.is_available self) eqn:Hav.
  - destruct Hcase as [Hcase|Hdocs]; [discriminate|].
    eexists. split; [now apply Hempty|]. split; [reflexivity | discriminate].
  - eexists. split; [now apply Hun|]. split; reflexivity.
Qed.

Lemma search_similar_unavailable_or_empty_witness :
  fst (Cosmos.search_similar Logger.backend Spec.empty_client [1 # 2] 3 (6 # 10) []) = Ok [].
Proof.
  destruct (search_similar_unavailable_or_empty Logger.backend Spec.empty_client
              [1 # 2] 3 (6 # 10) []) as (record & Hrun & _).
  - intros m. repeat split.
  - now right.
  - now rewrite Hrun.
Defined.

(** C1.  For a store that answers the query with at most [top_k]
    records in ascending order of distance, and every [top_k >= 0]:
    [search_similar] returns at most [top_k] results, each with
    similarity at least [min_similarity], in descending order of
    similarity; the similarity of a result is one minus the distance
    that the store reported for its record. *)
Theorem search_similar_bounded_sorted
    (L : Logger.Impl) (self : Cosmos.CosmosDBClient) (q : list Q) (k : Z) (s : Q)
    (tr : list Cosmos.event) :
  Logger.plain_ok L ->
  Spec.store_contract self ->
  0 <= k ->
  exists rs tr',
    Cosmos.search_similar L self q k s tr = (Ok rs, tr') /\
    llen rs <= k /\
    Forall (fun r => (s <= Cosmos.similarity r)%Q) rs /\
    StronglySorted Spec.by_similarity_desc rs /\
    forall r, In r rs ->
      exists c items item,
        Cosmos.container self = Some c /\ Cosmos.query_items c q k = Ok items /\
        In item items /\
        Cosmos.similarity r = (1 - Spec.reported_distance item)%Q.
Proof.
  intros HL Hstore Hk.
  assert (Hnil : forall tr', Cosmos.search_similar L self q k s tr = (Ok [], tr') ->
            exists rs tr'',
              Cosmos.search_similar L self q k s tr = (Ok rs, tr'') /\
              llen rs <= k /\ Forall (fun r => (s <= Cosmos.similarity r)%Q) rs /\
              StronglySorted Spec.by_similarity_desc rs /\
              forall r, In r rs ->
                exists c items item,
                  Cosmos.container self = Some c /\ Cosmos.query_items c q k = Ok items /\
                  In item items /\
                  Cosmos.similarity r = (1 - Spec.reported_distance item)%Q).
  { intros tr' Hrun. exists [], tr'. split; [exact Hrun|].
    split; [exact Hk|]. split; [constructor|]. split; [constructor | intros r []]. }
  destruct (search_similar_short_circuit L self q k s tr HL) as [Hun Hempty].
  destruct (Cosmos.is_available self) eqn:Hav; [|now apply (Hnil _ (Hun eq_refl))].
  destruct (Cosmos.has_documents self) eqn:Hdocs; [|now apply (Hnil _ (Hempty eq_refl eq_refl))].
  destruct (search_similar_outcome L self HL q k s tr Hav Hdocs)
    as (c & tr' & Hc & [Hrun|(items & Hq & Hrun)]); [now apply (Hnil tr')|].
  destruct (Hstore c q k items Hc Hk Hq) as [Hlen Hsorted].
  exists (Cosmos.collect items s), tr'. split; [exact Hrun|]. split; [|split; [|split]].
  - pose proof (collect_length items s). lia.
  - apply collect_threshold.
  - apply collect_sorted. apply Sorted_StronglySorted; [|exact Hsorted].
    intros a b c0 Hab Hbc. lra.
  - intros r Hr. destruct (collect_in items s r Hr) as (item & Hitem & Hsim).
    now exists c, items, item.
Qed.

Lemma four_records_contract : Spec.store_contract Spec.connected_client.
Proof.
  intros c q k items [= <-] Hk [= <-]. split.
  - unfold llen. rewrite length_firstn. simpl length. lia.
  - destruct (Z.to_nat k) as [|[|[|[|n]]]]; simpl; rewrite ?List.firstn_nil;
      repeat first [apply Sorted_nil | apply Sorted_cons | apply HdRel_nil | apply HdRel_cons];
      apply Qle_bool_imp_le; reflexivity.
Qed.

Lemma search_similar_bounded_sorted_witness :
  exists rs tr',
    Cosmos.search_similar Logger.lenient Spec.connected_client [1 # 2] 3 (6 # 10) []
      = (Ok rs, tr') /\
    llen rs <= 3 /\
    Forall (fun r => (6 # 10 <= Cosmos.similarity r)%Q) rs /\
    StronglySorted Spec.by_similarity_desc rs.
Proof.
  destruct (search_similar_bounded_sorted Logger.lenient Spec.connected_client
              [1 # 2] 3 (6 # 10) []) as (rs & tr' & Hrun & Hlen & Hmin & Hsorted & _).
  - intros m. repeat split.
  - apply four_records_contract.
  - lia.
  - now exists rs, tr'.
Defined.

(** With the logging module as it is written the search never returns
    a record: once the store has answered,
    [log_info("Vector search complete", returned=...)] raises inside
    the [try] statement and the handler returns the empty list. *)
Lemma search_similar_backend_logger_empty
    (self : Cosmos.CosmosDBClient) (q : list Q) (k : Z) (s : Q) (tr : list Cosmos.event) :
  fst (Cosmos.search_similar Logger.backend self q k s tr) = Ok [].
Proof.
  unfold Cosmos.search_similar.
  destruct (Cosmos.is_available self); [|reflexivity].
  destruct (Cosmos.has_documents self); [|reflexivity].
  cbn [negb]. unfold try_except, mbind at 1.
  destruct (Cosmos.container self) as [c|]; [|reflexivity].
  unfold mbind at 1, Cosmos.emit, modify, lift.
  destruct (Cosmos.query_items c q k); reflexivity.
Qed.

(** With a logger that takes keyword arguments the nearest record
    comes first, with similarity one for distance zero. *)
Example search_similar_nearest_first :
  fst (Cosmos.search_similar Logger.lenient Spec.connected_client [1 # 2] 3 (6 # 10) [])
  = Ok [ {| Cosmos.id := Some "a"; Cosmos.filename := Some "notes.txt";
            Cosmos.text := Some "a"; Cosmos.chunk_index := Some 0%Z;
            Cosmos.similarity := 1 - 0 |};
         {| Cosmos.id := Some "b"; Cosmos.filename := Some "notes.txt";
            Cosmos.text := Some "b"; Cosmos.chunk_index := Some 0%Z;
            Cosmos.similarity := 1 - (1 # 4) |} ]%Q.
Proof. reflexivity. Qed.

(** * Further properties *)

(** ** White space and sentences *)

Section Strip.

Import Chunker More.

Lemma str_rev_app_app (s a b : string) : str_rev_app s a +:+ b = str_rev_app s (a +:+ b).
Proof.
  revert a. induction s as [|c s IH]; intros a; [reflexivity|].
  simpl. now rewrite IH.
Qed.

Lemma str_rev_app_rev (s a : string) : str_rev_app (str_rev_app s a) "" = str_rev_app a s.
Proof.
  revert a. induction s as [|c s IH]; intros a; [reflexivity|].
  simpl. now rewrite IH.
Qed.

Lemma str_rev_involutive (s : string) : str_rev (str_rev s) = s.
Proof. unfold str_rev. now rewrite str_rev_app_rev. Qed.

Lemma str_app_empty_r (s : string) : s +:+ "" = s.
Proof.
  induction s as [|c s IH]; [reflexivity|].
  change (String c (s +:+ "") = String c s). now rewrite IH.
Qed.

Lemma str_rev_app_acc (s acc : string) : str_rev_app s acc = str_rev_app s "" +:+ acc.
Proof. now rewrite str_rev_app_app. Qed.

Lemma str_rev_append (a b : string) : str_rev (a +:+ b) = str_rev b +:+ str_rev a.
Proof.
  unfold str_rev. revert b. induction a as [|c a IH]; intros b.
  - change (str_rev_app b "" = str_rev_app b "" +:+ ""). symmetry. apply str_app_empty_r.
  - change (str_rev_app (a +:+ b) (String c "")
            = str_rev_app b "" +:+ str_rev_app a (String c "")).
    rewrite (str_rev_app_acc (a +:+ b)), (str_rev_app_acc a (String c "")).
    rewrite IH. apply str_app_assoc.
Qed.

Lemma lstrip_split (s : string) :
  exists sp, s = sp +:+ lstrip s /\ blank sp = true.
Proof.
  induction s as [|c s (sp & Hs & Hsp)]; [now exists ""|].
  cbn [lstrip]. destruct (isspace c) eqn:Hc.
  - exists (String c sp). split.
    + change (String c s = String c (sp +:+ lstrip s)). now rewrite <- Hs.
    + cbn [blank]. now rewrite Hc.
  - now exists "".
Qed.

Lemma lstrip_length (s : string) : (String.length (lstrip s) <= String.length s)%nat.
Proof.
  induction s as [|c s IH]; [reflexivity|]. simpl.
  destruct (isspace c); simpl; lia.
Qed.

Lemma lstrip_fixed_head (c : ascii) (s : string) :
  lstrip (String c s) = String c s -> isspace c = false.
Proof.
  simpl. destruct (isspace c); [|reflexivity]. intros H.
  pose proof (lstrip_length s) as Hl. rewrite H in Hl. simpl in Hl. lia.
Qed.

Lemma lstrip_idempotent (s : string) : lstrip (lstrip s) = lstrip s.
Proof.
  induction s as [|c s IH]; [reflexivity|]. simpl.
  destruct (isspace c) eqn:Hc; [exact IH|]. simpl. now rewrite Hc.
Qed.

Lemma lstrip_blank (s : string) : blank s = true -> lstrip s = "".
Proof.
  induction s as [|c s IH]; [reflexivity|]. simpl.
  destruct (isspace c); [exact IH | discriminate].
Qed.

Lemma strip_blank (s : string) : blank s = true -> strip s = "".
Proof. intros H. unfold strip. now rewrite (lstrip_blank s H). Qed.

Lemma strip_trimmed (s : string) : trimmed (strip s).
Proof.
  unfold trimmed, strip. rewrite str_rev_involutive. split; [|apply lstrip_idempotent].
  set (a := lstrip s).
  destruct (lstrip_split (str_rev a)) as (sp & Hsplit & _).
  set (c := lstrip (str_rev a)) in *.
  assert (Ha : a = str_rev c +:+ str_rev sp).
  { rewrite <- str_rev_append, <- Hsplit. now rewrite str_rev_involutive. }
  destruct (str_rev c) as [|x d] eqn:Hd; [reflexivity|].
  assert (Hfix : lstrip a = a) by apply lstrip_idempotent.
  rewrite Ha in Hfix.
  change (lstrip (String x (d +:+ str_rev sp)) = String x (d +:+ str_rev sp)) in Hfix.
  apply lstrip_fixed_head in Hfix.
  cbn [lstrip]. now rewrite Hfix.
Qed.

Lemma trimmed_strip (s : string) : trimmed s -> strip s = s.
Proof.
  intros [Hl Hr]. unfold strip. rewrite Hl, Hr. apply str_rev_involutive.
Qed.

End Strip.

Section Sentences.

Import Chunker More.

Lemma blank_app (a b : string) : blank (a +:+ b) = blank a && blank b.
Proof.
  induction a as [|c a IH]; [reflexivity|].
  change (isspace c && blank (a +:+ b) = isspace c && blank a && blank b).
  rewrite IH. now rewrite andb_assoc.
Qed.

Lemma blank_lstrip (s : string) : blank (lstrip s) = blank s.
Proof.
  induction s as [|c s IH]; [reflexivity|]. cbn [lstrip blank].
  destruct (isspace c) eqn:Hc; [exact IH|]. cbn [blank]. now rewrite Hc.
Qed.

Lemma blank_rev_app (s acc : string) : blank (str_rev_app s acc) = blank s && blank acc.
Proof.
  revert acc. induction s as [|c s IH]; intros acc; [reflexivity|].
  cbn [str_rev_app blank]. rewrite IH. cbn [blank].
  destruct (isspace c), (blank s), (blank acc); reflexivity.
Qed.

Lemma blank_rev (s : string) : blank (str_rev s) = blank s.
Proof. unfold str_rev. rewrite blank_rev_app. cbn [blank]. now rewrite andb_true_r. Qed.

Lemma blank_strip (s : string) : blank (strip s) = blank s.
Proof. unfold strip. now rewrite blank_rev, blank_lstrip, blank_rev, blank_lstrip. Qed.

Lemma nonempty_strip (s : string) : nonempty (strip s) = negb (blank s).
Proof.
  destruct (blank s) eqn:Hb.
  - now rewrite (strip_blank s Hb).
  - rewrite <- blank_strip in Hb. destruct (strip s); [discriminate | reflexivity].
Qed.

Lemma adjacent_cons (P : ascii -> ascii -> bool) (c : ascii) (s : string) :
  adjacent P s = true -> adjacent P (String c s) = true.
Proof.
  intros H. destruct s as [|b s]; [discriminate|].
  change (P c b || adjacent P (String b s) = true). rewrite H. apply orb_true_r.
Qed.

Lemma adjacent_lstrip (P : ascii -> ascii -> bool) (s : string) :
  adjacent P s = false -> adjacent P (lstrip s) = false.
Proof.
  induction s as [|c s IH]; [reflexivity|]. intros H. cbn [lstrip].
  destruct (isspace c); [|exact H]. apply IH.
  destruct (adjacent P s) eqn:Hs; [|reflexivity].
  now rewrite (adjacent_cons P c s Hs) in H.
Qed.

Lemma adjacent_String (P : ascii -> ascii -> bool) (a : ascii) (t : string) :
  adjacent P (String a t) = boundary P (String a "") t || adjacent P t.
Proof. now destruct t. Qed.

Lemma adjacent_rev_app (P : ascii -> ascii -> bool) (s acc : string) :
  adjacent P (str_rev_app s acc)
  = adjacent (fun a b => P b a) s || boundary P s acc || adjacent P acc.
Proof.
  revert acc. induction s as [|a s IH]; intros acc; [reflexivity|].
  cbn [str_rev_app]. rewrite IH. rewrite !adjacent_String.
  generalize (adjacent (fun a b => P b a) s) (adjacent P acc). intros x y.
  destruct s as [|b s], acc as [|c acc]; cbn [boundary];
    repeat match goal with |- context [P ?u ?v] => destruct (P u v) end;
    destruct x, y; reflexivity.
Qed.

Lemma adjacent_rev (P : ascii -> ascii -> bool) (s : string) :
  adjacent P (str_rev s) = adjacent (fun a b => P b a) s.
Proof.
  unfold str_rev. rewrite adjacent_rev_app.
  destruct s; cbn [boundary adjacent]; now rewrite ?orb_false_r.
Qed.

Lemma adjacent_strip (P : ascii -> ascii -> bool) (s : string) :
  adjacent P s = false -> adjacent P (strip s) = false.
Proof.
  intros H. unfold strip. rewrite adjacent_rev. apply adjacent_lstrip.
  rewrite adjacent_rev. apply adjacent_lstrip. exact H.
Qed.

(** The pieces cut by the scanner hold no place where it would cut. *)
Lemma re_split_go_no_break (s : string) (st : scan_state) (cur : string) :
  adjacent (fun a b => sentence_break b a) cur = false ->
  match st with
  | InPiece after => after = head_is_terminator cur
  | InSeparator => cur = ""
  end ->
  Forall (fun p => adjacent sentence_break p = false) (re_split_go st cur s).
Proof.
  revert st cur. induction s as [|c rest IH]; intros st cur Hcur Hst.
  - constructor; [|constructor]. now rewrite adjacent_rev.
  - cbn [re_split_go]. destruct st as [after|].
    + destruct (after && isspace c) eqn:Hcut.
      * constructor; [now rewrite adjacent_rev|]. now apply IH.
      * apply IH; [|reflexivity]. destruct cur as [|a cur]; [reflexivity|].
        rewrite adjacent_String, Hcur. cbn [boundary]. unfold sentence_break.
        cbn [head_is_terminator] in Hst. rewrite <- Hst, Hcut. reflexivity.
    + subst cur. destruct (isspace c); [now apply IH | now apply IH].
Qed.

(** The first piece holds what was read of it before. *)
Lemma re_split_go_head (s : string) (st : scan_state) (cur : string) :
  blank cur = false ->
  exists p ps, re_split_go st cur s = p :: ps /\ blank p = false.
Proof.
  revert st cur. induction s as [|c rest IH]; intros st cur Hcur.
  - exists (str_rev cur), []. split; [reflexivity | now rewrite blank_rev].
  - assert (Hnext : blank (String c cur) = false)
      by (cbn [blank]; rewrite Hcur; apply andb_false_r).
    cbn [re_split_go]. destruct st as [after|].
    + destruct (after && isspace c).
      * eexists _, _. split; [reflexivity | now rewrite blank_rev].
      * now apply IH.
    + destruct (isspace c); now apply IH.
Qed.

Lemma split_sentences_blank (text : string) :
  _split_sentences text = [] <-> blank text = true.
Proof.
  unfold _split_sentences, re_split_sentences. split.
  - intros H. destruct (blank text) eqn:Hb; [reflexivity|]. exfalso.
    rewrite <- blank_strip in Hb. destruct (strip text) as [|c s] eqn:Hs; [discriminate|].
    cbn [blank] in Hb. cbn [re_split_go andb] in H.
    destruct (re_split_go_head s (InPiece (is_terminator c)) (String c "")) as (p & ps & Hgo & Hp).
    { cbn [blank]. destruct (isspace c) eqn:Hc; [|reflexivity].
      pose proof (strip_trimmed text) as [Hl _]. rewrite Hs in Hl.
      apply lstrip_fixed_head in Hl. congruence. }
    rewrite Hgo in H. cbn [List.filter] in H. rewrite nonempty_strip, Hp in H. discriminate.
  - intros Hb. now rewrite (strip_blank text Hb).
Qed.

End Sentences.

(** X1.  Every sentence that [_split_sentences] returns is non-empty,
    starts and ends with a character that is not white space (stripping
    it changes nothing), and holds no place where the splitter cuts:
    no [.], [!] or [?] directly followed by white space. *)
Theorem split_sentences_clean (text : string) :
  Forall (fun s => s <> "" /\ strip s = s /\ More.adjacent More.sentence_break s = false)
         (Chunker._split_sentences text).
Proof.
  unfold Chunker._split_sentences. apply Forall_map. apply List.Forall_forall.
  intros p Hp. apply filter_In in Hp as [Hin Hne]. cbv beta.
  split; [|split].
  - intros E. now rewrite E in Hne.
  - apply trimmed_strip, strip_trimmed.
  - apply adjacent_strip.
    pose proof (re_split_go_no_break (strip text) (Chunker.InPiece false) "" eq_refl eq_refl) as H.
    now apply (proj1 (List.Forall_forall _ _) H).
Qed.

(** ** The hard split *)

Section HardSplit.

Import Chunker More.

Lemma str_drop_drop (a b : nat) (s : string) : str_drop a (str_drop b s) = str_drop (b + a) s.
Proof.
  revert s. induction b as [|b IH]; intros s; [reflexivity|].
  destruct s as [|c s]; [now destruct a|]. cbn [str_drop Nat.add]. apply IH.
Qed.

Lemma str_drop_all (n : nat) (s : string) : (String.length s <= n)%nat -> str_drop n s = "".
Proof.
  revert s. induction n as [|n IH]; intros s Hn.
  - destruct s; [reflexivity | simpl in Hn; lia].
  - destruct s as [|c s]; [reflexivity|]. cbn [str_drop]. apply IH. simpl in Hn. lia.
Qed.

Lemma join_empty_cons (p : string) (l : list string) : join "" (p :: l) = p +:+ join "" l.
Proof. destruct l; [symmetry; apply str_app_empty_r | reflexivity]. Qed.

Lemma range_up_bounds (fuel : nat) (i stop step : Z) :
  0 <= step -> Forall (fun j => i <= j < stop) (range_up fuel i stop step).
Proof.
  intros Hs. revert i. induction fuel as [|fuel IH]; intros i; simpl; [constructor|].
  destruct (Z.ltb_spec i stop); [|constructor]. constructor; [lia|].
  eapply List.Forall_impl; [|apply IH]. simpl. intros; lia.
Qed.

Lemma range_up_nonempty (fuel : nat) (i stop step : Z) :
  i < stop -> (0 < fuel)%nat -> range_up fuel i stop step <> [].
Proof.
  intros Hi Hf. destruct fuel; [lia|]. simpl.
  destruct (Z.ltb_spec i stop); [discriminate | lia].
Qed.

(** The character slices taken at the starts of [range(i, len, size)]
    make up the text from [i] on. *)
Lemma str_slices_cover (text : string) (size : Z) (fuel : nat) (i : Z) :
  0 < size -> 0 <= i -> len text - i <= Z.of_nat fuel ->
  join "" (map (fun j => str_slice text (Some j) (Some (j + size)))
               (range_up fuel i (len text) size))
  = str_drop (Z.to_nat i) text.
Proof.
  intros Hsize. revert i. induction fuel as [|fuel IH]; intros i Hi Hfuel.
  - simpl. symmetry. apply str_drop_all. unfold len in *. lia.
  - cbn [range_up]. destruct (Z.ltb_spec i (len text)) as [Hlt|Hge].
    + cbn [map]. rewrite join_empty_cons, IH by lia.
      unfold str_slice, slice_bounds, clamp_index.
      destruct (Z.ltb_spec i 0); [lia|]. destruct (Z.ltb_spec (i + size) 0); [lia|].
      rewrite (Z.min_l i) by lia.
      etransitivity;
        [|symmetry; apply (str_take_drop (Z.to_nat (Z.min (i + size) (len text) - i)))].
      f_equal. rewrite str_drop_drop.
      destruct (Z.le_gt_cases (i + size) (len text)) as [Hin|Hout].
      * rewrite Z.min_l by lia. f_equal. lia.
      * rewrite Z.min_r by lia. rewrite !str_drop_all; [reflexivity| |];
          unfold len in *; lia.
    + simpl. symmetry. apply str_drop_all. unfold len in *. lia.
Qed.

(** The same for the token slices. *)
Lemma list_slices_cover {A} (tokens : list A) (size : Z) (fuel : nat) (i : Z) :
  0 < size -> 0 <= i -> llen tokens - i <= Z.of_nat fuel ->
  concat (map (fun j => list_slice tokens (Some j) (Some (j + size)))
              (range_up fuel i (llen tokens) size))
  = skipn (Z.to_nat i) tokens.
Proof.
  intros Hsize. revert i. induction fuel as [|fuel IH]; intros i Hi Hfuel.
  - simpl. symmetry. apply skipn_all2. unfold llen in *. lia.
  - cbn [range_up]. destruct (Z.ltb_spec i (llen tokens)) as [Hlt|Hge].
    + cbn [map concat]. rewrite IH by lia.
      unfold list_slice, slice_bounds, clamp_index.
      destruct (Z.ltb_spec i 0); [lia|]. destruct (Z.ltb_spec (i + size) 0); [lia|].
      rewrite (Z.min_l i) by lia.
      etransitivity;
        [|apply (firstn_skipn (Z.to_nat (Z.min (i + size) (llen tokens) - i)))].
      f_equal. rewrite skipn_skipn.
      destruct (Z.le_gt_cases (i + size) (llen tokens)) as [Hin|Hout].
      * rewrite Z.min_l by lia. f_equal. lia.
      * rewrite Z.min_r by lia. rewrite !skipn_all2; [reflexivity| |];
          unfold llen in *; lia.
    + simpl. symmetry. apply skipn_all2. unfold llen in *. lia.
Qed.

End HardSplit.

(** X2.  The hard split loses nothing.  For a positive [max_tokens],
    in approximate mode the pieces of [_hard_split], put end to end,
    are the text again, and each piece is non-empty and has at most
    [4 * max_tokens] characters; in exact mode the pieces are the
    decodings of non-empty token runs of at most [max_tokens] tokens
    that, put end to end, are the tokens of the text. *)
Theorem hard_split_covers (self : Chunker.DocumentChunker) (text : string) :
  0 < Chunker.max_tokens self ->
  exists pieces,
    Chunker._hard_split self text = Ok pieces /\
    match Chunker._enc self with
    | None =>
        join "" pieces = text /\
        Forall (fun p => p <> "" /\ len p <= Chunker.max_tokens self * 4) pieces
    | Some enc =>
        exists runs,
          pieces = map (Chunker.decode enc) runs /\
          concat runs = Chunker.encode enc text /\
          Forall (fun ts => ts <> [] /\ llen ts <= Chunker.max_tokens self) runs
    end.
Proof.
  intros Hmax. unfold Chunker._hard_split. destruct (Chunker._enc self) as [enc|].
  - set (tokens := Chunker.encode enc text). unfold range3.
    destruct (Z.eqb_spec (Chunker.max_tokens self) 0); [lia|].
    destruct (Z.ltb_spec 0 (Chunker.max_tokens self)); [|lia]. cbn [bind].
    eexists. split; [reflexivity|].
    exists (map (fun i => list_slice tokens (Some i) (Some (i + Chunker.max_tokens self)))
                (range_up (Z.to_nat (llen tokens - 0)) 0 (llen tokens) (Chunker.max_tokens self))).
    split; [now rewrite map_map|]. split.
    + rewrite list_slices_cover by (pose proof (llen_nonneg tokens); lia). reflexivity.
    + apply Forall_map. eapply List.Forall_impl; [|apply range_up_bounds; lia].
      intros i Hi. cbv beta in Hi |- *. split.
      * intros E. apply (f_equal llen) in E. revert E.
        unfold list_slice, slice_bounds, clamp_index.
        destruct (Z.ltb_spec i 0); [lia|].
        destruct (Z.ltb_spec (i + Chunker.max_tokens self) 0); [lia|].
        unfold llen in *. rewrite length_firstn, length_skipn. cbn [length]. lia.
      * apply llen_list_slice_width; lia.
  - unfold range3.
    destruct (Z.eqb_spec (Chunker.max_tokens self * 4) 0); [lia|].
    destruct (Z.ltb_spec 0 (Chunker.max_tokens self * 4)); [|lia]. cbn [bind].
    eexists. split; [reflexivity|]. split.
    + rewrite str_slices_cover by (pose proof (len_nonneg text); lia). reflexivity.
    + apply Forall_map. eapply List.Forall_impl; [|apply range_up_bounds; lia].
      intros i Hi. cbv beta in Hi |- *. split.
      * intros E. apply (f_equal len) in E. revert E. rewrite len_str_slice.
        unfold slice_bounds, clamp_index.
        destruct (Z.ltb_spec i 0); [lia|].
        destruct (Z.ltb_spec (i + Chunker.max_tokens self * 4) 0); [lia|].
        unfold len in *. cbn [String.length]. lia.
      * apply len_str_slice_width; lia.
Qed.

(** [default_chunker] cuts a text of 2500 characters into two pieces
    that make it up again. *)
Lemma hard_split_covers_witness :
  0 < Chunker.max_tokens Chunker.default_chunker /\
  exists pieces,
    Chunker._hard_split Chunker.default_chunker (Spec.str_repeat "abcde" 500) = Ok pieces /\
    join "" pieces = Spec.str_repeat "abcde" 500 /\
    Forall (fun p => p <> "" /\ len p <= Chunker.max_tokens Chunker.default_chunker * 4) pieces.
Proof.
  split; [reflexivity|].
  exact (hard_split_covers Chunker.default_chunker (Spec.str_repeat "abcde" 500) eq_refl).
Defined.

(** ** What the merge pass keeps *)

Section MergeKeeps.

Import Chunker Spec More.

Variable self : DocumentChunker.

Lemma join_cons (p : string) (l : list string) :
  l <> [] -> join " " (p :: l) = p +:+ " " +:+ join " " l.
Proof. destruct l; [congruence | reflexivity]. Qed.

(** Joining depends on the rest of the list through its join and
    through whether it is empty. *)
Lemma join_cons_congr (p : string) (l l' : list string) :
  join " " l = join " " l' -> (l = [] <-> l' = []) ->
  join " " (p :: l) = join " " (p :: l').
Proof.
  intros Hj He. destruct l as [|a l].
  - now rewrite (proj1 He eq_refl).
  - destruct l' as [|a' l']; [now destruct (proj2 He eq_refl)|].
    rewrite !join_cons by discriminate. now rewrite Hj.
Qed.

Lemma merge_go_nil (chunks : list Chunk) (buffer : option Chunk) :
  merge_go self buffer chunks = [] <-> buffer = None /\ chunks = [].
Proof.
  revert buffer. induction chunks as [|c rest IH]; intros buffer.
  - destruct buffer; simpl; split; intros H; try easy; now destruct H.
  - split; [|now intros [_ ?]]. simpl.
    destruct (small self c), buffer as [b|];
      try destruct (min_chunk_tokens self <=? _); try discriminate;
      intros H; apply IH in H; now destruct H.
Qed.

Lemma merge_go_join (chunks : list Chunk) (buffer : option Chunk) :
  join " " (map text (merge_go self buffer chunks))
  = join " " (map text (buffer_list buffer ++ chunks)).
Proof.
  revert buffer. induction chunks as [|c rest IH]; intros buffer.
  - destruct buffer; reflexivity.
  - assert (Hnone : join " " (text c :: map text (merge_go self None rest))
                    = join " " (text c :: map text rest)).
    { apply join_cons_congr; [apply (IH None)|].
      split; intros H; apply map_eq_nil in H.
      - apply merge_go_nil in H as [_ ->]. reflexivity.
      - subst rest. reflexivity. }
    simpl merge_go. destruct (small self c).
    + destruct buffer as [b|]; [|apply (IH (Some c))]. cbv zeta.
      assert (Hb : join " " (map text (buffer_list (Some b) ++ c :: rest))
                   = join " " ((text b +:+ " " +:+ text c) :: map text rest)).
      { cbn [buffer_list app map]. rewrite join_cons by discriminate.
        destruct rest as [|d rest]; [reflexivity|].
        cbn [map]. rewrite (join_cons (text c)) by discriminate.
        rewrite (join_cons (text b +:+ " " +:+ text c)) by discriminate.
        now rewrite !str_app_assoc. }
      rewrite Hb.
      destruct (min_chunk_tokens self <=? _).
      * cbn [map text set_text]. apply join_cons_congr; [apply (IH None)|].
        split; intros H; apply map_eq_nil in H.
        -- apply merge_go_nil in H as [_ ->]. reflexivity.
        -- subst rest. reflexivity.
      * rewrite IH. reflexivity.
    + destruct buffer as [b|]; [|exact Hnone].
      cbn [buffer_list app map]. rewrite !(join_cons (text b)) by discriminate.
      now rewrite Hnone.
Qed.

Lemma merge_go_length (chunks : list Chunk) (buffer : option Chunk) :
  (length (merge_go self buffer chunks) <= length (buffer_list buffer ++ chunks))%nat.
Proof.
  revert buffer. induction chunks as [|c rest IH]; intros buffer.
  - destruct buffer; simpl; lia.
  - simpl merge_go. destruct (small self c), buffer as [b|];
      try destruct (min_chunk_tokens self <=? _); cbn [buffer_list app length];
      try (specialize (IH None); cbn [buffer_list app] in IH; lia).
    + specialize (IH (Some (set_text b (text b +:+ " " +:+ text c)))).
      cbn [buffer_list app length] in IH. lia.
    + specialize (IH (Some c)). cbn [buffer_list app length] in IH. lia.
Qed.

Lemma reindex_length (i : Z) (l : list Chunk) : length (reindex i l) = length l.
Proof. revert i. induction l as [|c l IH]; intros i; simpl; [|rewrite IH]; reflexivity. Qed.

Lemma reindex_lookup (i : Z) (l : list Chunk) (k : nat) (c : Chunk) :
  reindex i l !! k = Some c ->
  exists c0, l !! k = Some c0 /\ c = set_chunk_index c0 (i + Z.of_nat k).
Proof.
  revert i k. induction l as [|a l IH]; intros i k H; [discriminate|].
  destruct k as [|k]; simpl in H.
  - injection H as <-. exists a. split; [reflexivity|]. f_equal. lia.
  - destruct (IH _ _ H) as (c0 & H0 & ->). exists c0. split; [exact H0|]. f_equal. lia.
Qed.

End MergeKeeps.

Lemma merge_small_chunks_parts (self : Chunker.DocumentChunker) (chunks : list Chunker.Chunk) :
  Spec.settled self (Chunker._merge_small_chunks self chunks) /\
  join " " (map Chunker.text (Chunker._merge_small_chunks self chunks))
  = join " " (map Chunker.text chunks) /\
  (length (Chunker._merge_small_chunks self chunks) <= length chunks)%nat /\
  (Chunker._merge_small_chunks self chunks = [] <-> chunks = []).
Proof.
  rewrite merge_small_chunks_eq. split; [|split; [|split]].
  - apply reindex_settled, merge_go_settled. discriminate.
  - rewrite reindex_text. apply (merge_go_join self chunks None).
  - rewrite reindex_length. apply (merge_go_length self chunks None).
  - split.
    + intros H. apply (f_equal (@length _)) in H. rewrite reindex_length in H.
      apply nil_length_inv in H. now apply merge_go_nil in H.
    + now intros ->.
Qed.

(** X3.  The merge pass leaves no two neighbouring chunks that are
    both below [min_chunk_tokens]: a chunk below the threshold is the
    last one or is followed by a chunk at or above it.  The pass loses
    no text (the texts joined with single spaces are the same before
    and after), never adds a chunk, returns no chunk only for no chunk,
    and numbers the chunks 0, 1, 2, ... *)
Theorem merge_small_chunks_keeps (self : Chunker.DocumentChunker) (chunks : list Chunker.Chunk) :
  let merged := Chunker._merge_small_chunks self chunks in
  Spec.settled self merged /\
  join " " (map Chunker.text merged) = join " " (map Chunker.text chunks) /\
  (length merged <= length chunks)%nat /\
  (merged = [] <-> chunks = []) /\
  (forall (i : nat) (c : Chunker.Chunk),
      merged !! i = Some c -> Chunker.chunk_index c = Z.of_nat i).
Proof.
  cbv zeta. destruct (merge_small_chunks_parts self chunks) as (H1 & H2 & H3 & H4).
  split; [exact H1|]. split; [exact H2|]. split; [exact H3|]. split; [exact H4|].
  intros i c H. rewrite merge_small_chunks_eq in H.
  apply reindex_lookup in H as (c0 & _ & ->). simpl. lia.
Qed.

Lemma merge_small_chunks_keeps_witness :
  join " " (map Chunker.text (Chunker._merge_small_chunks Chunker.default_chunker
                                Spec.three_chunks))
  = "Cats are mammals. Dogs are mammals too. Fish are not." /\
  forall (i : nat) (c : Chunker.Chunk),
    Chunker._merge_small_chunks Chunker.default_chunker Spec.three_chunks !! i = Some c ->
    Chunker.chunk_index c = Z.of_nat i.
Proof.
  destruct (merge_small_chunks_keeps Chunker.default_chunker Spec.three_chunks)
    as (_ & Hjoin & _ & _ & Hindex).
  split; [exact Hjoin | exact Hindex].
Defined.

(** ** What the sentence loop keeps *)

Section LoopKeeps.

Import Chunker Spec More.

Variable self : DocumentChunker.

Lemma same_join_refl (l : list string) : same_join l l.
Proof. now split. Qed.

Lemma same_join_trans (a b c : list string) : same_join a b -> same_join b c -> same_join a c.
Proof. intros [H1 E1] [H2 E2]. split; [congruence | tauto]. Qed.

Lemma same_join_snoc (l l' : list string) (s : string) :
  same_join l l' -> same_join (l ++ [s]) (l' ++ [s]).
Proof.
  intros [Hj He]. split.
  - destruct l as [|a l].
    + now rewrite (proj1 He eq_refl).
    + destruct l' as [|a' l']; [now destruct (proj2 He eq_refl)|].
      rewrite !join_snoc by discriminate. now rewrite Hj.
  - split; intros H; now apply app_eq_nil in H as [_ H].
Qed.

Lemma same_join_flushed (front group : list string) :
  same_join (front ++ flushed group) (front ++ group).
Proof.
  destruct group as [|g group]; [apply same_join_refl|]. cbn [flushed].
  split.
  - induction front as [|a front IH]; [reflexivity|].
    cbn [app]. apply join_cons_congr; [exact IH|].
    split; intros H; now apply app_eq_nil in H as [_ H].
  - split; intros H; now apply app_eq_nil in H as [_ H].
Qed.

Lemma flush_text (doc : string) (cs : list Chunk) (sentences : list string) :
  map text (flush doc cs sentences) = map text cs ++ flushed sentences.
Proof.
  destruct sentences as [|s rest]; [now rewrite app_nil_r|].
  unfold flush, append_chunk. now rewrite map_app.
Qed.

Lemma flush_doc_id (doc : string) (cs : list Chunk) (sentences : list string) :
  Forall (fun c => doc_id c = doc) cs ->
  Forall (fun c => doc_id c = doc) (flush doc cs sentences).
Proof.
  intros H. destruct sentences; [exact H|]. unfold flush, append_chunk.
  apply Forall_app. split; [exact H | now constructor].
Qed.

Lemma fold_append_doc_id (doc : string) (pieces : list string) (cs : list Chunk) :
  Forall (fun c => doc_id c = doc) cs ->
  Forall (fun c => doc_id c = doc) (fold_left (append_chunk doc) pieces cs).
Proof.
  revert cs. induction pieces as [|p pieces IH]; intros cs H; [exact H|].
  simpl. apply IH. unfold append_chunk. apply Forall_app. split; [exact H | now constructor].
Qed.

Lemma sentence_step_doc_id (doc : string) (st st' : loop_state) (sentence : string) :
  sentence_step self doc st sentence = Ok st' ->
  Forall (fun c => doc_id c = doc) (chunks st) ->
  Forall (fun c => doc_id c = doc) (chunks st').
Proof.
  unfold sentence_step. intros Hstep Hcs.
  destruct (max_tokens self <? _count_tokens self sentence).
  - destruct (current_sentences st) as [|s0 cur];
      (destruct (_hard_split self sentence) as [pieces|e]; [|discriminate]);
      cbn [bind] in Hstep; injection Hstep as <-; cbn [chunks];
      apply fold_append_doc_id;
      first [exact (flush_doc_id doc (chunks st) [] Hcs)
            | exact (flush_doc_id doc (chunks st) (s0 :: cur) Hcs)].
  - destruct (current_tokens st + _count_tokens self sentence <=? target_tokens self);
      injection Hstep as <-; cbn [chunks]; [exact Hcs | now apply flush_doc_id].
Qed.

Lemma sentence_loop_doc_id (doc : string) (sentences : list string) (st st' : loop_state) :
  sentence_loop self doc st sentences = Ok st' ->
  Forall (fun c => doc_id c = doc) (chunks st) ->
  Forall (fun c => doc_id c = doc) (chunks st').
Proof.
  revert st. induction sentences as [|s rest IH]; intros st Hloop Hcs.
  - now injection Hloop as <-.
  - simpl in Hloop. destruct (sentence_step self doc st s) as [st1|e] eqn:Hstep; [|discriminate].
    simpl in Hloop. eapply IH; [exact Hloop|]. eapply sentence_step_doc_id; eassumption.
Qed.

Lemma merge_go_doc_id (doc : string) (chunks : list Chunk) (buffer : option Chunk) :
  Forall (fun c => doc_id c = doc) (buffer_list buffer ++ chunks) ->
  Forall (fun c => doc_id c = doc) (merge_go self buffer chunks).
Proof.
  revert buffer. induction chunks as [|c rest IH]; intros buffer H.
  - destruct buffer; simpl in *; now rewrite ?app_nil_r in H.
  - simpl merge_go. destruct (small self c).
    + destruct buffer as [b|]; [|now apply IH].
      cbn [buffer_list app] in H.
      apply Forall_cons_1 in H as [Hb H]. apply Forall_cons_1 in H as [Hc H].
      cbv zeta. destruct (min_chunk_tokens self <=? _).
      * constructor; [exact Hb | now apply IH].
      * apply IH. now constructor.
    + destruct buffer as [b|]; cbn [buffer_list app] in H.
      * apply Forall_cons_1 in H as [Hb H]. apply Forall_cons_1 in H as [Hc H].
        constructor; [exact Hb|]. constructor; [exact Hc | now apply IH].
      * apply Forall_cons_1 in H as [Hc H]. constructor; [exact Hc | now apply IH].
Qed.

Lemma reindex_dense (doc : string) (l : list Chunk) :
  Forall (fun c => doc_id c = doc) l -> dense doc (reindex 0 l).
Proof.
  intros H i c Hi. apply reindex_lookup in Hi as (c0 & H0 & ->).
  split; [simpl; lia|]. simpl.
  exact (Forall_lookup_1 _ _ _ _ H H0).
Qed.

Lemma overlap_from_dense (doc : string) (prev : Chunk) (rest : list Chunk) (k : nat) :
  (forall (i : nat) (c : Chunk),
      rest !! i = Some c -> chunk_index c = Z.of_nat (k + i) /\ doc_id c = doc) ->
  forall (i : nat) (c : Chunk),
    overlap_from self prev rest !! i = Some c ->
    chunk_index c = Z.of_nat (k + i) /\ doc_id c = doc.
Proof.
  revert prev k. induction rest as [|a rest IH]; intros prev k H i c Hi; [discriminate|].
  destruct i as [|i]; simpl in Hi.
  - injection Hi as <-. exact (H O a eq_refl).
  - replace (k + S i)%nat with (S k + i)%nat by lia.
    apply (IH a (S k)); [|exact Hi]. intros j d Hj.
    replace (S k + j)%nat with (k + S j)%nat by lia. now apply (H (S j)).
Qed.

Lemma apply_overlap_dense (doc : string) (cs : list Chunk) :
  dense doc cs -> dense doc (_apply_overlap self cs).
Proof.
  intros H. unfold _apply_overlap.
  destruct ((overlap_tokens self <=? 0) || (llen cs <? 2)); [exact H|].
  destruct cs as [|first rest]; [exact H|].
  intros i c Hi. destruct i as [|i]; [exact (H O c Hi)|].
  simpl in Hi. apply (overlap_from_dense doc first rest 1); [|exact Hi].
  intros j d Hj. exact (H (S j) d Hj).
Qed.

Lemma apply_overlap_length (cs : list Chunk) :
  length (_apply_overlap self cs) = length cs.
Proof.
  unfold _apply_overlap.
  destruct ((overlap_tokens self <=? 0) || (llen cs <? 2)); [reflexivity|].
  destruct cs as [|first rest]; [reflexivity|]. simpl. now rewrite overlap_from_length.
Qed.

(** A step that meets no sentence above [max_tokens] keeps the
    sentences. *)
Lemma sentence_step_pending (doc : string) (st : loop_state) (sentence : string) :
  _count_tokens self sentence <= max_tokens self ->
  exists st', sentence_step self doc st sentence = Ok st' /\
              same_join (pending st') (pending st ++ [sentence]).
Proof.
  intros Hok. unfold sentence_step.
  destruct (Z.ltb_spec (max_tokens self) (_count_tokens self sentence)); [lia|].
  destruct (current_tokens st + _count_tokens self sentence <=? target_tokens self).
  - eexists. split; [reflexivity|]. unfold pending. cbn [chunks current_sentences].
    rewrite app_assoc. apply same_join_refl.
  - eexists. split; [reflexivity|]. unfold pending. cbn [chunks current_sentences].
    rewrite flush_text. apply same_join_snoc, same_join_flushed.
Qed.

Lemma sentence_loop_pending (doc : string) (sentences : list string) (st : loop_state) :
  Forall (fun s => _count_tokens self s <= max_tokens self) sentences ->
  exists st', sentence_loop self doc st sentences = Ok st' /\
              same_join (pending st') (pending st ++ sentences).
Proof.
  revert st. induction sentences as [|s rest IH]; intros st Hall.
  - exists st. split; [reflexivity|]. rewrite app_nil_r. apply same_join_refl.
  - apply Forall_cons_1 in Hall as [Hs Hrest].
    destruct (sentence_step_pending doc st s Hs) as (st1 & Hstep & Hsame).
    destruct (IH st1 Hrest) as (st' & Hloop & Hsame').
    exists st'. split; [simpl; rewrite Hstep; exact Hloop|].
    eapply same_join_trans; [exact Hsame'|].
    replace (pending st ++ s :: rest) with ((pending st ++ [s]) ++ rest)
      by now rewrite <- app_assoc.
    clear - Hsame. induction rest as [|r rest IHr] using rev_ind.
    + now rewrite !app_nil_r.
    + rewrite !app_assoc. now apply same_join_snoc.
Qed.

(** For a positive [max_tokens] a sentence above it is cut into at
    least one piece. *)
Lemma hard_split_nonempty (sentence : string) (pieces : list string) :
  0 < max_tokens self -> max_tokens self < _count_tokens self sentence ->
  _hard_split self sentence = Ok pieces -> pieces <> [].
Proof.
  unfold _hard_split, _count_tokens. intros Hmax Hbig.
  destruct (_enc self) as [enc|]; unfold range3.
  - destruct (Z.eqb_spec (max_tokens self) 0); [lia|].
    destruct (Z.ltb_spec 0 (max_tokens self)); [|lia]. cbn [bind]. intros [= <-] E.
    apply map_eq_nil in E. revert E. apply range_up_nonempty; lia.
  - destruct (Z.eqb_spec (max_tokens self * 4) 0); [lia|].
    destruct (Z.ltb_spec 0 (max_tokens self * 4)); [|lia]. cbn [bind]. intros [= <-] E.
    apply map_eq_nil in E. revert E.
    assert (0 < len sentence).
    { pose proof (len_nonneg sentence).
      assert (len sentence / 4 <= len sentence) by (apply Z.div_le_upper_bound; lia).
      lia. }
    apply range_up_nonempty; lia.
Qed.

Lemma sentence_step_nonempty (doc : string) (st st' : loop_state) (sentence : string) :
  0 < max_tokens self ->
  sentence_step self doc st sentence = Ok st' -> pending st' <> [].
Proof.
  intros Hmax. unfold sentence_step.
  destruct (Z.ltb_spec (max_tokens self) (_count_tokens self sentence)) as [Hbig|Hok].
  - intros Hstep E.
    assert (Hchunks : map text (chunks st') = []).
    { unfold pending in E. now apply app_eq_nil in E as [E _]. }
    destruct (_hard_split self sentence) as [pieces|e] eqn:Hsplit;
      [|destruct (current_sentences st); discriminate].
    apply (hard_split_nonempty sentence pieces Hmax Hbig Hsplit).
    destruct (current_sentences st); cbn [bind] in Hstep; injection Hstep as <-;
      cbn [chunks] in Hchunks;
      rewrite fold_append_chunk in Hchunks; now apply app_eq_nil in Hchunks as [_ ?].
  - destruct (current_tokens st + _count_tokens self sentence <=? target_tokens self);
      intros [= <-] E; unfold pending in E; cbn [chunks current_sentences] in E;
      apply app_eq_nil in E as [_ E]; [now apply app_eq_nil in E as [_ E] | discriminate].
Qed.

Lemma sentence_loop_nonempty (doc : string) (sentences : list string) (st st' : loop_state) :
  0 < max_tokens self ->
  pending st <> [] \/ sentences <> [] ->
  sentence_loop self doc st sentences = Ok st' -> pending st' <> [].
Proof.
  intros Hmax. revert st. induction sentences as [|s rest IH]; intros st Hne Hloop.
  - injection Hloop as <-. now destruct Hne.
  - simpl in Hloop. destruct (sentence_step self doc st s) as [st1|e] eqn:Hstep; [|discriminate].
    apply (IH st1); [left; now apply (sentence_step_nonempty doc st st1 s) | exact Hloop].
Qed.

(** For a negative [max_tokens] every sentence is above it and is
    cut into no piece at all. *)
Lemma sentence_loop_negative (doc : string) (sentences : list string) :
  max_tokens self < 0 -> sentence_loop self doc loop_start sentences = Ok loop_start.
Proof.
  intros Hmax. induction sentences as [|s rest IH]; [reflexivity|].
  simpl sentence_loop. unfold sentence_step at 1.
  pose proof (count_tokens_nonneg self s) as Hs.
  destruct (Z.ltb_spec (max_tokens self) (_count_tokens self s)); [|lia].
  assert (Hsplit : _hard_split self s = Ok []).
  { unfold _hard_split. destruct (_enc self) as [enc|].
    - destruct (range3_from_zero (llen (encode enc s)) (max_tokens self))
        as (starts & -> & _ & Hneg); [apply llen_nonneg | lia |].
      now rewrite (Hneg Hmax).
    - destruct (range3_from_zero (len s) (max_tokens self * 4))
        as (starts & -> & _ & Hneg); [apply len_nonneg | lia |].
      now rewrite Hneg by lia. }
  rewrite Hsplit. exact IH.
Qed.

End LoopKeeps.

Lemma chunk_document_accepting
    (self : Chunker.DocumentChunker) (L : Logger.Impl) (text doc : string) (cs : list Chunker.Chunk) :
  Logger.accepts_kwargs L ->
  Chunker.pre_overlap_chunks self text doc = Ok cs ->
  Chunker.chunk_document self L text doc = Ok (Chunker._apply_overlap self cs).
Proof.
  intros HL Hpre. unfold Chunker.chunk_document.
  destruct (HL "Starting chunking" ["doc_id"; "text_length"; "sentences"]) as (-> & _).
  cbn [bind]. rewrite Hpre. cbn [bind].
  destruct (HL "Chunking complete" ["doc_id"; "total_chunks"; "avg_tokens"]) as (-> & _).
  reflexivity.
Qed.

Lemma pre_overlap_chunks_eq
    (self : Chunker.DocumentChunker) (text doc : string) (st : Chunker.loop_state) :
  Chunker.sentence_loop self doc More.loop_start (Chunker._split_sentences text) = Ok st ->
  Chunker.pre_overlap_chunks self text doc
  = Ok (Chunker._merge_small_chunks self
          (Chunker.flush doc (Chunker.chunks st) (Chunker.current_sentences st))).
Proof.
  intros H. unfold Chunker.pre_overlap_chunks. fold More.loop_start. now rewrite H.
Qed.

(** X4.  Chunking keeps every sentence, in order.  When no sentence
    counts more than [max_tokens] tokens, the pre-overlap texts of the
    passages, joined with single spaces, are the sentences of the
    document joined with single spaces; with a logger that takes
    keyword arguments [chunk_document] returns the overlap pass of
    these passages. *)
Theorem chunk_document_keeps_sentences
    (self : Chunker.DocumentChunker) (text doc : string) :
  Forall (fun s => Chunker._count_tokens self s <= Chunker.max_tokens self)
         (Chunker._split_sentences text) ->
  exists cs,
    Chunker.pre_overlap_chunks self text doc = Ok cs /\
    join " " (map Chunker.text cs) = join " " (Chunker._split_sentences text) /\
    forall L, Logger.accepts_kwargs L ->
              Chunker.chunk_document self L text doc = Ok (Chunker._apply_overlap self cs).
Proof.
  intros Hall.
  destruct (sentence_loop_pending self doc _ More.loop_start Hall) as (st & Hloop & Hj & _).
  pose proof (pre_overlap_chunks_eq self text doc st Hloop) as Hpre.
  eexists. split; [exact Hpre|]. split.
  - destruct (merge_small_chunks_parts self
                (Chunker.flush doc (Chunker.chunks st) (Chunker.current_sentences st)))
      as (_ & -> & _).
    rewrite flush_text. rewrite (proj1 (same_join_flushed _ _)). exact Hj.
  - intros L HL. now apply chunk_document_accepting.
Qed.

Lemma chunk_document_keeps_sentences_witness :
  exists cs,
    Chunker.pre_overlap_chunks Chunker.default_chunker
      "One fish.  Two fish!   Red fish? Blue fish." "d" = Ok cs /\
    join " " (map Chunker.text cs) = "One fish. Two fish! Red fish? Blue fish.".
Proof.
  destruct (chunk_document_keeps_sentences Chunker.default_chunker
              "One fish.  Two fish!   Red fish? Blue fish." "d") as (cs & Hpre & Hjoin & _).
  - vm_compute. repeat constructor; discriminate.
  - exists cs. split; [exact Hpre | exact Hjoin].
Defined.

(** X5.  The passages of [chunk_document] are numbered in order and
    carry the document identifier: when [max_tokens] is not zero and
    the logger takes keyword arguments, passage [i] of the result has
    [chunk_index = i] and [doc_id] equal to the argument. *)
Theorem chunk_document_dense
    (self : Chunker.DocumentChunker) (L : Logger.Impl) (text doc : string) :
  Chunker.max_tokens self <> 0 -> Logger.accepts_kwargs L ->
  exists cs, Chunker.chunk_document self L text doc = Ok cs /\ More.dense doc cs.
Proof.
  intros Hmax HL.
  destruct (sentence_loop_invariant self Hmax doc (Chunker._split_sentences text) More.loop_start)
    as (st & Hloop & _).
  { split; [constructor|]. split; [constructor|]. split; [reflexivity | right; simpl; lia]. }
  pose proof (pre_overlap_chunks_eq self text doc st Hloop) as Hpre.
  eexists. split; [exact (chunk_document_accepting self L text doc _ HL Hpre)|].
  apply apply_overlap_dense. rewrite merge_small_chunks_eq. apply reindex_dense.
  apply merge_go_doc_id. cbn [Spec.buffer_list app]. apply flush_doc_id.
  apply (sentence_loop_doc_id self doc _ _ _ Hloop). constructor.
Qed.

Lemma chunk_document_dense_witness :
  exists cs, Chunker.chunk_document Spec.exact_chunker Logger.lenient
               "One fish.  Two fish!   Red fish? Blue fish." "d" = Ok cs /\
             More.dense "d" cs.
Proof.
  apply (chunk_document_dense Spec.exact_chunker Logger.lenient); [discriminate|].
  intros m kw. repeat split.
Defined.

(** X6.  For a positive [max_tokens] and a logger that takes keyword
    arguments, [chunk_document] returns no passage exactly when the
    text is empty or holds white space only. *)
Theorem chunk_document_empty_iff_blank
    (self : Chunker.DocumentChunker) (L : Logger.Impl) (text doc : string) :
  0 < Chunker.max_tokens self -> Logger.accepts_kwargs L ->
  exists cs, Chunker.chunk_document self L text doc = Ok cs /\
             (cs = [] <-> More.blank text = true).
Proof.
  intros Hmax HL.
  assert (Hnz : Chunker.max_tokens self <> 0) by lia.
  destruct (sentence_loop_invariant self Hnz doc (Chunker._split_sentences text) More.loop_start)
    as (st & Hloop & _).
  { split; [constructor|]. split; [constructor|]. split; [reflexivity | right; simpl; lia]. }
  pose proof (pre_overlap_chunks_eq self text doc st Hloop) as Hpre.
  eexists. split; [exact (chunk_document_accepting self L text doc _ HL Hpre)|].
  rewrite <- split_sentences_blank.
  set (cs := Chunker.flush doc (Chunker.chunks st) (Chunker.current_sentences st)).
  assert (Hcs : cs = [] <-> More.pending st = []).
  { unfold More.pending. split; intros H.
    - apply (f_equal (map Chunker.text)) in H. unfold cs in H. rewrite flush_text in H.
      apply app_eq_nil in H as [-> H]. now destruct (Chunker.current_sentences st).
    - apply app_eq_nil in H as [H1 H2]. apply map_eq_nil in H1. unfold cs.
      now rewrite H1, H2. }
  assert (Hout : Chunker._apply_overlap self (Chunker._merge_small_chunks self cs) = []
                 <-> cs = []).
  { destruct (merge_small_chunks_parts self cs) as (_ & _ & _ & Hnil).
    rewrite <- Hnil. split; intros H.
    - apply nil_length_inv. rewrite <- (apply_overlap_length self). now rewrite H.
    - rewrite H. unfold Chunker._apply_overlap. now destruct (_ || _). }
  rewrite Hout, Hcs. split.
  - intros Hp. destruct (Chunker._split_sentences text) as [|s rest] eqn:Hs; [reflexivity|].
    exfalso. apply (sentence_loop_nonempty self doc (s :: rest) More.loop_start st Hmax);
      [now right | exact Hloop | exact Hp].
  - intros Hs. rewrite Hs in Hloop. now injection Hloop as <-.
Qed.

Lemma chunk_document_empty_iff_blank_witness :
  exists cs, Chunker.chunk_document Chunker.default_chunker Logger.lenient
               "  " "d" = Ok cs /\ (cs = [] <-> More.blank "  " = true).
Proof.
  apply (chunk_document_empty_iff_blank Chunker.default_chunker Logger.lenient);
    [reflexivity|].
  intros m kw. repeat split.
Defined.

(** X7.  A negative [max_tokens] loses the document without an error:
    every sentence counts more than [max_tokens], the hard split cuts
    it into no piece, and [chunk_document] (with a logger that takes
    keyword arguments) returns the empty list for every text. *)
Theorem chunk_document_negative_max
    (self : Chunker.DocumentChunker) (L : Logger.Impl) (text doc : string) :
  Chunker.max_tokens self < 0 -> Logger.accepts_kwargs L ->
  Chunker.chunk_document self L text doc = Ok [].
Proof.
  intros Hmax HL.
  pose proof (sentence_loop_negative self doc (Chunker._split_sentences text) Hmax) as Hloop.
  rewrite (chunk_document_accepting self L text doc _ HL
             (pre_overlap_chunks_eq self text doc _ Hloop)).
  cbn [More.loop_start Chunker.chunks Chunker.current_sentences Chunker.flush
       Chunker._merge_small_chunks].
  unfold Chunker._apply_overlap. now destruct (_ || _).
Qed.

Lemma chunk_document_negative_max_witness :
  Chunker.chunk_document
    {| Chunker.target_tokens := -100; Chunker.max_tokens := -100 + 50;
       Chunker.overlap_tokens := 50; Chunker.min_chunk_tokens := 60; Chunker._enc := None |}
    Logger.lenient "A sentence. Another sentence." "d" = Ok [].
Proof.
  apply chunk_document_negative_max; [reflexivity|].
  intros m kw. repeat split.
Defined.

(** ** Retries *)

Section Retry.

Import Embedder Spec More.

Variable L : Logger.Impl.
Variable self : EmbeddingsClient.
Variable client : AzureOpenAI.
Variable texts : list string.

Lemma after_calls_zero (s : State) : after_calls s 0 [] = s.
Proof. destruct s as [c n w]. unfold after_calls. cbn. now rewrite Nat.add_0_r, app_nil_r. Qed.

Lemma after_calls_step (s : State) (a n k : nat) :
  after_calls (sleep (2 ^ Z.of_nat a) (count_call s)) n (backoff_from (S a) k)
  = after_calls s (S n) (backoff_from a (S k)).
Proof.
  unfold after_calls, sleep, count_call, backoff_from. cbn [_cache remote_calls slept seq map].
  f_equal; [lia|]. now rewrite <- app_assoc.
Qed.

(** A failed attempt that is not the last one: one call, one wait,
    and the remaining attempts. *)
Lemma retry_attempts_failed (max_retries : Z) (a : nat) (rest : list Z) (s : State) (e : exn) :
  Logger.plain_ok L ->
  call_outcome self client texts (remote_calls s) = Raise e ->
  Z.of_nat a < max_retries - 1 ->
  retry_attempts L self client texts max_retries (Z.of_nat a :: rest) s
  = retry_attempts L self client texts max_retries rest (sleep (2 ^ Z.of_nat a) (count_call s)).
Proof.
  intros HL He Ha. destruct (HL "Embedding attempt failed, retrying") as (_ & _ & Hwarn & _).
  unfold call_outcome in He.
  cbn [retry_attempts]. unfold try_except, mbind, get_state, modify, lift, raise.
  rewrite He. destruct (Z.ltb_spec (Z.of_nat a) (max_retries - 1)); [|lia].
  now rewrite Hwarn.
Qed.

Lemma retry_attempts_recovers (max_retries : Z) (k a n : nat) (s : State) (vs : list vector) :
  Logger.plain_ok L ->
  (k < n)%nat -> Z.of_nat (a + n) = max_retries ->
  (forall j, (j < k)%nat -> exists e, call_outcome self client texts (remote_calls s + j) = Raise e) ->
  call_outcome self client texts (remote_calls s + k) = Ok vs ->
  retry_attempts L self client texts max_retries (map Z.of_nat (seq a n)) s
  = (Ok (Some vs), after_calls s (S k) (backoff_from a k)).
Proof.
  intros HL. revert a n s. induction k as [|k IH]; intros a n s Hk Hn Hfail Hok.
  - destruct n as [|n]; [lia|]. cbn [seq map retry_attempts].
    unfold try_except, mbind, get_state, modify, lift, ret.
    unfold call_outcome in Hok. rewrite Nat.add_0_r in Hok. rewrite Hok.
    unfold after_calls, count_call, backoff_from. cbn. do 2 f_equal; [lia|].
    now rewrite app_nil_r.
  - destruct n as [|n]; [lia|]. cbn [seq map].
    destruct (Hfail O) as [e He]; [lia|]. rewrite Nat.add_0_r in He.
    rewrite (retry_attempts_failed max_retries a _ s e HL He) by lia.
    rewrite (IH (S a) n); [now rewrite after_calls_step | lia | lia | |].
    + intros j Hj. destruct (Hfail (S j)) as [e' He']; [lia|]. exists e'.
      cbn [sleep count_call remote_calls]. now replace (S (remote_calls s) + j)%nat
        with (remote_calls s + S j)%nat by lia.
    + cbn [sleep count_call remote_calls]. now replace (S (remote_calls s) + k)%nat
        with (remote_calls s + S k)%nat by lia.
Qed.

Lemma retry_attempts_gives_up (max_retries : Z) (k a : nat) (s : State) (e : exn) :
  Logger.plain_ok L ->
  Z.of_nat (a + S k) = max_retries ->
  (forall j, (j < k)%nat -> exists e', call_outcome self client texts (remote_calls s + j) = Raise e') ->
  call_outcome self client texts (remote_calls s + k) = Raise e ->
  retry_attempts L self client texts max_retries (map Z.of_nat (seq a (S k))) s
  = (Raise e, after_calls s (S k) (backoff_from a k)).
Proof.
  intros HL. revert a s. induction k as [|k IH]; intros a s Hn Hfail Hlast.
  - cbn [seq map retry_attempts].
    unfold try_except, mbind, get_state, modify, lift, ret, raise.
    unfold call_outcome in Hlast. rewrite Nat.add_0_r in Hlast. rewrite Hlast.
    destruct (Z.ltb_spec (Z.of_nat a) (max_retries - 1)); [lia|].
    unfold after_calls, count_call, backoff_from. cbn. do 2 f_equal; [lia|].
    now rewrite app_nil_r.
  - cbn [seq map].
    destruct (Hfail O) as [e0 He0]; [lia|]. rewrite Nat.add_0_r in He0.
    rewrite (retry_attempts_failed max_retries a _ s e0 HL He0) by lia.
    change (map Z.of_nat (seq (S a) (S k))) with (map Z.of_nat (seq (S a) (S k))).
    rewrite (IH (S a)); [now rewrite after_calls_step | lia | |].
    + intros j Hj. destruct (Hfail (S j)) as [e' He']; [lia|]. exists e'.
      cbn [sleep count_call remote_calls]. now replace (S (remote_calls s) + j)%nat
        with (remote_calls s + S j)%nat by lia.
    + cbn [sleep count_call remote_calls]. now replace (S (remote_calls s) + k)%nat
        with (remote_calls s + S k)%nat by lia.
Qed.

End Retry.

(** X8.  Retry with exponential back-off.  When the first [k] calls
    to the endpoint fail and the next one answers, with [k] below
    [max_retries], [_embed_with_openai_retry] returns that answer after
    exactly [k + 1] calls and the waits 1, 2, ..., [2 ** (k - 1)]
    seconds; the cache is not touched.  The logger only needs to
    accept a call with the message alone. *)
Theorem embed_with_openai_retry_recovers
    (L : Logger.Impl) (self : Embedder.EmbeddingsClient) (client : Embedder.AzureOpenAI)
    (texts : list string) (max_retries : Z) (k : nat) (s : Embedder.State)
    (vs : list Embedder.vector) :
  Logger.plain_ok L ->
  Z.of_nat k < max_retries ->
  (forall j, (j < k)%nat ->
     exists e, More.call_outcome self client texts (Embedder.remote_calls s + j) = Raise e) ->
  More.call_outcome self client texts (Embedder.remote_calls s + k) = Ok vs ->
  Embedder._embed_with_openai_retry L self client texts max_retries s
  = (Ok (Some vs), More.after_calls s (S k) (More.backoff k)).
Proof.
  intros HL Hk Hfail Hok. unfold Embedder._embed_with_openai_retry, range.
  apply (retry_attempts_recovers L self client texts max_retries k 0 (Z.to_nat max_retries) s vs
           HL); [lia | lia | exact Hfail | exact Hok].
Qed.

Lemma embed_with_openai_retry_recovers_witness :
  Embedder._embed_with_openai_retry Logger.backend More.flaky_client More.flaky_endpoint
    ["a"; "b"] 3 Embedder.initial_state
  = (Ok (Some [[1 # 2; 1 # 3; 1 # 5]; [1 # 2; 1 # 3; 1 # 5]]%Q),
     More.after_calls Embedder.initial_state 3 [1; 2]).
Proof.
  apply (embed_with_openai_retry_recovers Logger.backend More.flaky_client More.flaky_endpoint
           ["a"; "b"] 3 2 Embedder.initial_state).
  - intros m. repeat split.
  - lia.
  - intros j Hj. exists (RemoteError "429"). destruct j as [|[|j]]; [reflexivity | reflexivity | lia].
  - reflexivity.
Defined.

(** X9.  When all [max_retries = k + 1] calls fail,
    [_embed_with_openai_retry] raises the exception of the last call,
    after exactly [max_retries] calls and the waits 1, 2, ...,
    [2 ** (max_retries - 2)] seconds: it does not wait after the last
    failure, and the cache is not touched. *)
Theorem embed_with_openai_retry_gives_up
    (L : Logger.Impl) (self : Embedder.EmbeddingsClient) (client : Embedder.AzureOpenAI)
    (texts : list string) (k : nat) (s : Embedder.State) (e : exn) :
  Logger.plain_ok L ->
  (forall j, (j < k)%nat ->
     exists e', More.call_outcome self client texts (Embedder.remote_calls s + j) = Raise e') ->
  More.call_outcome self client texts (Embedder.remote_calls s + k) = Raise e ->
  Embedder._embed_with_openai_retry L self client texts (Z.of_nat (S k)) s
  = (Raise e, More.after_calls s (S k) (More.backoff k)).
Proof.
  intros HL Hfail Hlast. unfold Embedder._embed_with_openai_retry, range.
  rewrite Nat2Z.id.
  apply (retry_attempts_gives_up L self client texts (Z.of_nat (S k)) k 0 s e HL);
    [reflexivity | exact Hfail | exact Hlast].
Qed.

Lemma embed_with_openai_retry_gives_up_witness :
  Embedder._embed_with_openai_retry Logger.backend Spec.remote_client Spec.dead_endpoint
    ["a"] 3 Embedder.initial_state
  = (Raise (RemoteError "503"), More.after_calls Embedder.initial_state 3 [1; 2]).
Proof.
  apply (embed_with_openai_retry_gives_up Logger.backend Spec.remote_client Spec.dead_endpoint
           ["a"] 2 Embedder.initial_state (RemoteError "503")).
  - intros m. repeat split.
  - intros j _. now exists (RemoteError "503").
  - reflexivity.
Defined.

(** ** The cost of a batch *)

Section Budget.

Import Embedder Spec More.

Variable md5 : string -> string.
Variable L : Logger.Impl.
Variable self : EmbeddingsClient.

Lemma spent_zero (s s' : State) : same_meter s s' -> spent s s' 0.
Proof. intros [Hc Hw]. split; [lia|]. cbn. now rewrite app_nil_r. Qed.

Lemma spent_then (s s1 s2 : State) (n : nat) :
  spent s s1 n -> same_meter s1 s2 -> spent s s2 n.
Proof. intros [Hc Hw] [Hc' Hw']. split; congruence. Qed.

Lemma update_cache_meter (key : string) (v : vector) (s : State) :
  same_meter s (snd (_update_cache self key v s)).
Proof.
  rewrite update_cache_eval.
  destruct (_max_cache_size self <=? llen (_cache s)); [|now split].
  destruct (_cache s) as [|[k0 v0] rest]; now split.
Qed.

Lemma update_all_meter (pairs : list (string * vector)) (s : State) :
  same_meter s (snd (update_all md5 self pairs s)).
Proof.
  revert s. induction pairs as [|[t v] rest IH]; intros s; [now split|].
  cbn [update_all]. unfold mbind.
  pose proof (update_cache_meter (_get_cache_key md5 t) v s) as [Hc Hw].
  destruct (_update_cache self (_get_cache_key md5 t) v s) as [[[]|e] s1]; cbn [snd] in *.
  - destruct (IH s1) as [Hc' Hw']. split; congruence.
  - now split.
Qed.

Lemma embed_fallback_state (texts : list string) (s : State) :
  snd (_embed_fallback L self texts s) = s.
Proof. unfold _embed_fallback, mbind, lift, ret. now destruct (Logger.log_warning L _ _). Qed.

Lemma retry_attempts_spent (client : AzureOpenAI) (texts : list string) (max_retries : Z)
    (n a : nat) (s : State) :
  Z.of_nat (a + n) = max_retries ->
  exists j, (j <= n)%nat /\ (1 <= n -> 1 <= j)%nat /\
            snd (retry_attempts L self client texts max_retries (map Z.of_nat (seq a n)) s)
            = after_calls s j (backoff_from a (j - 1)).
Proof.
  revert a s. induction n as [|n IH]; intros a s Hn.
  - exists O. split; [lia|]. split; [lia|]. cbn. now rewrite after_calls_zero.
  - assert (Hone : count_call s = after_calls s 1 (backoff_from a (1 - 1))).
    { destruct s as [c m w]. unfold count_call, after_calls, backoff_from. cbn.
      f_equal; [lia | now rewrite app_nil_r]. }
    cbn [seq map retry_attempts]. unfold try_except, mbind, get_state, modify, lift, ret, raise.
    destruct (embeddings_create client (remote_calls s) (deployment self) texts (dim self))
      as [vs|e].
    + exists 1%nat. split; [lia|]. split; [lia|]. exact Hone.
    + destruct (Z.ltb_spec (Z.of_nat a) (max_retries - 1)) as [Hmore|Hlast].
      * destruct (Logger.log_warning L _ _).
        -- destruct (IH (S a) (sleep (2 ^ Z.of_nat a) (count_call s))) as (j & Hj & Hj1 & ->);
             [lia|].
           exists (S j). split; [lia|]. split; [lia|].
           assert (1 <= j)%nat by (apply Hj1; lia).
           rewrite after_calls_step. do 2 f_equal. lia.
        -- exists 1%nat. split; [lia|]. split; [lia|]. exact Hone.
      * exists 1%nat. split; [lia|]. split; [lia|]. exact Hone.
Qed.

Lemma after_calls_spent (s : State) (j : nat) : spent s (after_calls s j (backoff (j - 1))) j.
Proof. now split. Qed.

Lemma embed_uncached_spent (to_embed : list string) (s : State) :
  exists n, (n <= 3)%nat /\ spent s (snd (embed_uncached md5 L self to_embed s)) n /\
            (_client self = None -> n = O).
Proof.
  unfold embed_uncached, try_except.
  set (handler := mbind (lift (Logger.log_error L "Embeddings generation failed" ["fallback"]))
                        (fun _ => _embed_fallback L self to_embed)).
  assert (Hhandler : forall s1, snd (handler s1) = s1).
  { intros s1. unfold handler, mbind, lift. destruct (Logger.log_error L _ _); [|reflexivity].
    apply embed_fallback_state. }
  clearbody handler.
  unfold mbind at 1. destruct (_client self) as [client|].
  - unfold _embed_with_openai_retry, range.
    destruct (retry_attempts_spent client to_embed 3 (Z.to_nat 3) 0 s eq_refl)
      as (j & Hj & _ & Hs).
    fold (backoff (j - 1)) in Hs.
    destruct (retry_attempts L self client to_embed 3 _ s) as [[[nv|]|e] s1];
      cbn [snd] in Hs; subst s1.
    + exists j. split; [exact Hj|]. split; [|discriminate].
      unfold mbind, ret.
      pose proof (update_all_meter (combine to_embed nv) (after_calls s j (backoff (j - 1)))) as Hm.
      destruct (update_all md5 self _ _) as [[[]|e] s2]; cbn [snd] in *.
      * eapply spent_then; [apply after_calls_spent | exact Hm].
      * cbv beta iota; rewrite Hhandler. eapply spent_then; [apply after_calls_spent | exact Hm].
    + exists j. split; [exact Hj|]. split; [|discriminate].
      unfold raise. cbv beta iota; rewrite Hhandler. apply after_calls_spent.
    + exists j. split; [exact Hj|]. split; [|discriminate].
      cbv beta iota; rewrite Hhandler. apply after_calls_spent.
  - exists O. split; [lia|]. split; [|reflexivity]. apply spent_zero.
    unfold mbind at 1. pose proof (embed_fallback_state to_embed s) as Hf.
    destruct (_embed_fallback L self to_embed s) as [[vs|e] s1]; cbn [snd] in Hf; subst s1.
    + unfold ret at 1. unfold mbind, ret.
      pose proof (update_all_meter (combine to_embed vs) s) as Hm.
      destruct (update_all md5 self _ s) as [[[]|e] s2]; cbn [snd] in *; [exact Hm|].
      now cbv beta iota; rewrite Hhandler.
    + cbv beta iota; rewrite Hhandler. now split.
Qed.

(** X10.  A batch costs at most three remote calls, however many
    texts it holds and whatever the logger does: [embed_texts] leaves
    a state that differs from the one it found by [n <= 3] calls to
    the endpoint and by the waits between them (none for one call, one
    second for two, one and two seconds for three).  It calls the
    endpoint not at all when none is configured or when the cache
    holds every text of the batch. *)
Theorem embed_texts_remote_budget (texts : list string) (s : State) :
  exists n, (n <= 3)%nat /\ spent s (snd (embed_texts md5 L self texts s)) n /\
            (_client self = None -> n = O) /\
            (misses md5 (_cache s) texts = [] -> n = O).
Proof.
  assert (Hzero : exists n, (n <= 3)%nat /\ spent s s n /\
                            (_client self = None -> n = O) /\
                            (misses md5 (_cache s) texts = [] -> n = O)).
  { exists O. split; [lia|]. split; [now apply spent_zero|]. now split. }
  unfold embed_texts. destruct texts as [|t0 rest]; [exact Hzero|].
  set (texts := t0 :: rest) in *.
  unfold mbind at 1.
  pose proof (scan_cache_state md5 L (enumerate texts) empty_scan s) as Hst.
  pose proof (fun acc' => scan_cache_ok md5 L (enumerate texts) empty_scan acc' s) as Hok.
  destruct (scan_cache md5 L (enumerate texts) empty_scan s) as [[acc|e] s1];
    cbn [snd] in Hst; subst s1; [|exact Hzero].
  specialize (Hok acc eq_refl).
  assert (Hmiss : texts_to_embed acc = misses md5 (_cache s) texts) by now rewrite Hok.
  destruct (texts_to_embed acc) as [|m ms] eqn:Hte.
  - unfold mbind, ret, lift. destruct (Logger.log_info L _ _); exact Hzero.
  - unfold mbind at 1. unfold mbind at 1, lift at 1.
    destruct (Logger.log_info L "Generating embeddings" _); [|exact Hzero].
    destruct (embed_uncached_spent (m :: ms) s) as (n & Hn & Hspent & Hnone).
    exists n. split; [exact Hn|].
    split; [|split; [exact Hnone | intros E; rewrite E in Hmiss; discriminate]].
    destruct (embed_uncached md5 L self (m :: ms) s) as [[nv|e] s1]; cbn [snd] in Hspent.
    + unfold mbind, lift, ret. now destruct (Logger.log_info L _ _).
    + exact Hspent.
Qed.

End Budget.

Lemma embed_texts_remote_budget_witness :
  exists n, (n <= 3)%nat /\
    More.spent Embedder.initial_state
      (snd (Embedder.embed_texts (fun t => t) Logger.lenient More.flaky_client ["a"; "b"]
              Embedder.initial_state)) n.
Proof.
  destruct (embed_texts_remote_budget (fun t => t) Logger.lenient More.flaky_client ["a"; "b"]
              Embedder.initial_state) as (n & Hn & Hspent & _).
  exists n. split; [exact Hn | exact Hspent].
Defined.

(** ** Asking again *)

Section Repeat.

Import Embedder Spec More.

Variable md5 : string -> string.
Variable L : Logger.Impl.
Variable self : EmbeddingsClient.
Hypothesis L_accepts : Logger.accepts_kwargs L.
Hypothesis capacity_positive : 1 <= _max_cache_size self.

Lemma singleton_lookup {A} (l : list A) (x : A) :
  length l = 1%nat -> l !! O = Some x -> l = [x].
Proof. destruct l as [|a [|b l]]; try discriminate. now intros _ [= ->]. Qed.

(** A text that the cache holds: its vector, and nothing changes. *)
Lemma embed_texts_one_hit (t : string) (v : vector) (s : State) :
  cached md5 (_cache s) t = Some v ->
  embed_texts md5 L self [t] s = (Ok [Some v], s).
Proof.
  intros Hc.
  destruct (embed_texts_positions md5 L self L_accepts [t] s)
    as (vectors & nv & s' & Hrun & Hlen & _ & Hpos).
  pose proof (embed_texts_all_hits md5 L self [t] s) as Hst.
  rewrite Hrun in Hst. cbn [snd] in Hst. rewrite Hst in Hrun.
  - specialize (Hpos O t eq_refl). rewrite Hc in Hpos.
    now rewrite (singleton_lookup vectors (Some v) Hlen Hpos) in Hrun.
  - constructor; [congruence | constructor].
Qed.

(** A text that the cache does not hold, and an endpoint that
    answers the first call with one vector. *)
Lemma embed_texts_one_miss (client : AzureOpenAI) (t : string) (v : vector) (s : State) :
  _client self = Some client ->
  cached md5 (_cache s) t = None ->
  call_outcome self client [t] (remote_calls s) = Ok [v] ->
  exists s', embed_texts md5 L self [t] s = (Ok [Some v], s') /\
             cached md5 (_cache s') t = Some v /\
             remote_calls s' = S (remote_calls s) /\ slept s' = slept s.
Proof.
  intros Hclient Hmiss Hcall.
  assert (Hmisses : misses md5 (_cache s) [t] = [t]).
  { unfold misses, enumerate. cbn [enumerate_from List.filter]. unfold is_miss. cbn [snd].
    now rewrite Hmiss. }
  assert (Huncached : exists s', embed_uncached md5 L self [t] s = (Ok [v], s') /\
             cached md5 (_cache s') t = Some v /\
             remote_calls s' = S (remote_calls s) /\ slept s' = slept s).
  { unfold embed_uncached, try_except. rewrite Hclient. unfold mbind at 1.
    unfold _embed_with_openai_retry, range.
    rewrite (retry_attempts_recovers L self client [t] 3 0 0 (Z.to_nat 3) s [v]);
      [| now apply accepts_plain | simpl; lia | reflexivity | intros j Hj; lia
       | now rewrite Nat.add_0_r].
    destruct (put_all_returns self (cache_items md5 [t] [v])
                (after_calls s 1 (backoff_from 0 0)) capacity_positive)
      as (s' & Hput & Hcalls & Hslept & Hlast).
    exists s'. unfold mbind, ret. rewrite update_all_put_all, Hput.
    split; [reflexivity|]. split; [exact (Hlast [] (md5 t) v eq_refl)|].
    rewrite Hcalls, Hslept. cbn. split; [lia | now rewrite app_nil_r]. }
  destruct Huncached as (s' & Hrun' & Hget & Hcalls & Hslept).
  destruct (embed_texts_positions md5 L self L_accepts [t] s)
    as (vectors & nv & s1 & Hrun & Hlen & Hnv & Hpos).
  rewrite Hmisses in Hnv. destruct Hnv as [(E & _)|Hnv]; [discriminate|].
  rewrite Hrun' in Hnv. injection Hnv as <- <-.
  specialize (Hpos O t eq_refl). rewrite Hmiss in Hpos.
  exists s'. split; [|auto].
  now rewrite (singleton_lookup vectors (Some v) Hlen Hpos) in Hrun.
Qed.

End Repeat.

(** X11.  A vector obtained from the endpoint is served from the
    cache afterwards.  With a logger that takes keyword arguments and
    room for at least one vector: when the text [t] is not cached and
    the endpoint answers the first call with one vector [v],
    [embed_texts [t]] returns [v] after one remote call and no wait;
    a second [embed_texts [t]] returns [v] again, makes no remote call
    and leaves the state as it is, whatever the endpoint would answer
    then. *)
Theorem embed_texts_served_from_cache
    (md5 : string -> string) (L : Logger.Impl) (self : Embedder.EmbeddingsClient)
    (client : Embedder.AzureOpenAI) (t : string) (v : Embedder.vector) (s : Embedder.State) :
  Logger.accepts_kwargs L ->
  1 <= Embedder._max_cache_size self ->
  Embedder._client self = Some client ->
  Spec.cached md5 (Embedder._cache s) t = None ->
  More.call_outcome self client [t] (Embedder.remote_calls s) = Ok [v] ->
  exists s',
    Embedder.embed_texts md5 L self [t] s = (Ok [Some v], s') /\
    Embedder.remote_calls s' = S (Embedder.remote_calls s) /\
    Embedder.slept s' = Embedder.slept s /\
    Embedder.embed_texts md5 L self [t] s' = (Ok [Some v], s').
Proof.
  intros HL Hcap Hclient Hmiss Hcall.
  destruct (embed_texts_one_miss md5 L self HL Hcap client t v s Hclient Hmiss Hcall)
    as (s' & Hrun & Hget & Hcalls & Hslept).
  exists s'. split; [exact Hrun|]. split; [exact Hcalls|]. split; [exact Hslept|].
  now apply embed_texts_one_hit.
Qed.

Lemma embed_texts_served_from_cache_witness :
  exists s',
    Embedder.embed_texts (fun t => t) Logger.lenient More.one_shot_client ["query"]
      Embedder.initial_state = (Ok [Some [1 # 2; 1 # 3; 1 # 5]%Q], s') /\
    Embedder.remote_calls s' = 1%nat /\
    Embedder.slept s' = [] /\
    Embedder.embed_texts (fun t => t) Logger.lenient More.one_shot_client ["query"] s'
    = (Ok [Some [1 # 2; 1 # 3; 1 # 5]%Q], s').
Proof.
  apply (embed_texts_served_from_cache (fun t => t) Logger.lenient More.one_shot_client
           More.one_shot_endpoint "query" [1 # 2; 1 # 3; 1 # 5]%Q Embedder.initial_state).
  - intros m kw. repeat split.
  - vm_compute. discriminate.
  - reflexivity.
  - reflexivity.
  - reflexivity.
Defined.

(** ** The prompt *)

Section Prompt.

Import Chat.

(** [l[-n:]] holds the last [n] elements, or all of them when there
    are fewer. *)
Lemma list_slice_suffix {A} (l : list A) (n : Z) :
  0 < n ->
  exists older, l = older ++ list_slice l (Some (- n)) None /\
                length (list_slice l (Some (- n)) None) = Nat.min (Z.to_nat n) (length l).
Proof.
  intros Hn. unfold list_slice, slice_bounds, clamp_index.
  destruct (Z.ltb_spec (- n) 0); [|lia].
  exists (firstn (Z.to_nat (Z.max 0 (llen l + - n))) l).
  unfold llen in *.
  set (k := Z.to_nat (Z.max 0 (Z.of_nat (length l) + - n))).
  rewrite (firstn_all2 (skipn k l)) by (rewrite length_skipn; lia).
  split; [now rewrite firstn_skipn|]. rewrite length_skipn. lia.
Qed.

End Prompt.

(** X12.  The message list of [_build_messages] starts with one
    system message whose content starts with the fixed instructions,
    ends with the user message, and holds between them the last five
    messages of the conversation history in their order, or the whole
    history when it has fewer ([None] counts as no history). *)
Theorem build_messages_shape
    (user_message context : string) (conversation_history : option (list Chat.Message))
    (available_docs : option string) :
  let history := match conversation_history with Some h => h | None => [] end in
  exists sys recent older more,
    Chat._build_messages user_message context conversation_history available_docs
    = sys :: recent ++ [{| Chat.role := "user"; Chat.content := user_message |}] /\
    Chat.role sys = "system" /\
    Chat.content sys = Chat.system_prompt +:+ more /\
    history = older ++ recent /\
    length recent = Nat.min 5 (length history).
Proof.
  cbv zeta. unfold Chat._build_messages.
  match goal with |- context [{| Chat.role := "system"; Chat.content := ?c |}] =>
    set (content := c) end.
  assert (Hprefix : exists more, content = Chat.system_prompt +:+ more).
  { unfold content. destruct available_docs as [docs|]; [destruct (Chunker.nonempty docs)|];
      destruct (Chunker.nonempty context);
      rewrite ?str_app_assoc; eauto using eq_sym, str_app_empty_r. }
  destruct Hprefix as [more Hmore].
  destruct conversation_history as [[|m history]|].
  - exists {| Chat.role := "system"; Chat.content := content |}, [], [], more. auto.
  - destruct (list_slice_suffix (m :: history) 5) as (older & Hsplit & Hlen); [lia|].
    exists {| Chat.role := "system"; Chat.content := content |},
           (list_slice (m :: history) (Some (-5)) None), older, more.
    split; [reflexivity|]. split; [reflexivity|]. split; [exact Hmore|].
    split; [exact Hsplit | exact Hlen].
  - exists {| Chat.role := "system"; Chat.content := content |}, [], [], more. auto.
Qed.

(** * The store: counting, connecting, writing *)

Lemma backend_plain : Logger.plain_ok Logger.backend.
Proof. intros m. repeat split. Qed.

Lemma lenient_accepts : Logger.accepts_kwargs Logger.lenient.
Proof. intros m kw. repeat split. Qed.

Lemma lenient_accepts_plain : Logger.plain_ok Logger.lenient.
Proof. intros m. repeat split. Qed.

Lemma accepts_kwargs_plain (L : Logger.Impl) : Logger.accepts_kwargs L -> Logger.plain_ok L.
Proof. intros H m. apply H. Qed.

Section StoreFacts.

Import Cosmos Store More.

Context {Doc Summary : Type}.
Variable L : Logger.Impl.
Variable ops : ContainerOps Doc Summary.
Hypothesis L_plain : Logger.plain_ok L.

Lemma update_document_count_plain (s : State Doc) :
  _update_document_count L ops s = (Ok tt, after_count L ops s).
Proof.
  destruct (L_plain "Failed to get document count") as (_ & _ & Hwarn & _).
  unfold _update_document_count, after_count, counted, try_except, container_call,
    mbind, modify, lift.
  destruct (container (client s)) as [c|];
    destruct (count_query ops (length (requests s))) as [[|n items]|e];
    destruct (Logger.log_info L "Document count updated" ["count"]) as [[]|e'];
    rewrite ?Hwarn; reflexivity.
Qed.

Lemma after_count_client (s : State Doc) :
  connected (client (after_count L ops s)) = connected (client s) /\
  container (client (after_count L ops s)) = container (client s) /\
  document_count (client (after_count L ops s)) = counted L ops s.
Proof. unfold after_count. destruct (container (client s)) eqn:E; cbn; rewrite ?E; auto. Qed.

Lemma after_count_requests (s : State Doc) :
  requests (after_count L ops s)
  = requests s ++ match container (client s) with Some _ => [CountQuery] | None => [] end.
Proof. unfold after_count. destruct (container (client s)); simpl; now rewrite ?app_nil_r. Qed.

End StoreFacts.

Section Upsert.

Import Cosmos Store More.

Context {Doc Summary : Type}.
Variable L : Logger.Impl.
Variable ops : ContainerOps Doc Summary.
Hypothesis L_accepts : Logger.accepts_kwargs L.

Lemma accepted_range (n : nat) (chunks : list Doc) :
  0 <= accepted ops n chunks <= llen chunks.
Proof.
  unfold llen. revert n. induction chunks as [|c rest IH]; intros n; [simpl; lia|].
  cbn [accepted length]. specialize (IH (S n)).
  destruct (upsert_item ops n c); lia.
Qed.

Lemma upsert_loop (chunks : list Doc) (s : State Doc) (k : Z) :
  container (client s) <> None ->
  for_each (upsert_step L ops) chunks (s, k)
  = (Ok tt, (sent chunks s, k + accepted ops (length (requests s)) chunks)).
Proof.
  revert s k. induction chunks as [|c rest IH]; intros s k Hc.
  - cbn [for_each accepted]. unfold ret, sent. cbn [map]. rewrite app_nil_r, Z.add_0_r.
    now destruct s.
  - destruct (L_accepts "Chunk upserted" ["id"]) as (_ & _ & _ & Hdebug).
    destruct (L_accepts "Failed to upsert chunk" ["id"]) as (_ & Herr & _).
    cbn [for_each accepted]. unfold mbind at 1, upsert_step at 1.
    unfold try_except, mbind at 1, on_fst, container_call.
    destruct (container (client s)) as [p|] eqn:Hp; [|congruence].
    assert (Hnext : sent rest (add_request (UpsertItem c) s) = sent (c :: rest) s).
    { unfold sent, add_request. cbn [client requests map]. now rewrite <- app_assoc. }
    assert (Hlen : length (requests (add_request (UpsertItem c) s)) = S (length (requests s))).
    { unfold add_request. cbn [requests]. rewrite length_app. simpl. lia. }
    destruct (upsert_item ops (length (requests s)) c) as [[]|e].
    + unfold mbind, modify, lift. rewrite Hdebug. cbn [fst snd].
      rewrite IH by (cbn; congruence). rewrite Hnext, Hlen. do 2 f_equal. lia.
    + unfold lift. rewrite Herr.
      rewrite IH by (cbn; congruence). rewrite Hnext, Hlen. do 2 f_equal.
Qed.

Lemma upsert_chunks_available (chunks : list Doc) (s : State Doc) :
  is_available (client s) = true ->
  let n := accepted ops (length (requests s)) chunks in
  upsert_chunks L ops chunks s
  = (Ok n, if 0 <? n then after_count L ops (sent chunks s) else sent chunks s).
Proof.
  intros Hav n. unfold upsert_chunks, mbind at 1, get_state. rewrite Hav. cbn [negb].
  assert (Hc : container (client s) <> None).
  { unfold is_available in Hav. destruct (container (client s)); [discriminate|].
    now rewrite andb_false_r in Hav. }
  unfold mbind at 1, with_local. rewrite (upsert_loop chunks s 0 Hc). rewrite Z.add_0_l.
  fold n. unfold mbind at 1.
  destruct (L_accepts "Batch upsert complete" ["total"; "success"; "failed"; "elapsed_ms"])
    as (Hinfo & _).
  destruct (0 <? n).
  - rewrite (update_document_count_plain L ops (accepts_kwargs_plain L L_accepts)).
    unfold mbind, lift, ret. now rewrite Hinfo.
  - unfold ret at 1. unfold mbind, lift, ret. now rewrite Hinfo.
Qed.

End Upsert.

Lemma upsert_chunks_unavailable {Doc Summary : Type}
    (L : Logger.Impl) (ops : Store.ContainerOps Doc Summary) (chunks : list Doc)
    (s : Store.State Doc) :
  Logger.plain_ok L ->
  Cosmos.is_available (Store.client s) = false ->
  Store.upsert_chunks L ops chunks s = (Ok 0, s).
Proof.
  intros HL Hav. unfold Store.upsert_chunks, mbind at 1, get_state. rewrite Hav. cbn [negb].
  destruct (HL "Cosmos DB not available for upsert") as (_ & Herr & _).
  unfold mbind, lift, ret. now rewrite Herr.
Qed.

(** X13.  [upsert_chunks] counts what the store accepted.  With a
    logger that takes keyword arguments the call never raises and
    returns a number between zero and the number of chunks.  When the
    client is not available it returns zero and sends nothing.  When
    it is available, every chunk is sent once, in order, whatever the
    store answered to the chunks before; the number returned is the
    number of chunks the store accepted; one count query follows when
    that number is positive, and none otherwise. *)
Theorem upsert_chunks_counts_accepted {Doc Summary : Type}
    (L : Logger.Impl) (ops : Store.ContainerOps Doc Summary) (chunks : list Doc)
    (s : Store.State Doc) :
  Logger.accepts_kwargs L ->
  exists n s',
    Store.upsert_chunks L ops chunks s = (Ok n, s') /\
    0 <= n <= llen chunks /\
    (Cosmos.is_available (Store.client s) = false -> n = 0 /\ s' = s) /\
    (Cosmos.is_available (Store.client s) = true ->
     n = More.accepted ops (length (Store.requests s)) chunks /\
     Store.requests s'
     = Store.requests s ++ map Store.UpsertItem chunks
       ++ (if 0 <? n then [Store.CountQuery] else []) /\
     Cosmos.is_available (Store.client s') = true).
Proof.
  intros HL. destruct (Cosmos.is_available (Store.client s)) eqn:Hav.
  - pose proof (upsert_chunks_available L ops HL chunks s Hav) as Hrun. cbv zeta in Hrun.
    eexists _, _. split; [exact Hrun|]. split; [apply accepted_range|].
    split; [discriminate|]. intros _. split; [reflexivity|].
    assert (Hsent : Cosmos.is_available (Store.client (More.sent chunks s)) = true) by exact Hav.
    destruct (0 <? More.accepted ops (length (Store.requests s)) chunks).
    + rewrite after_count_requests.
      destruct (after_count_client L ops (More.sent chunks s)) as (Hc & Hp & _).
      unfold Cosmos.is_available in *. rewrite Hc, Hp. split; [|exact Hsent].
      destruct (Cosmos.container (Store.client (More.sent chunks s)));
        [|now rewrite andb_false_r in Hsent].
      cbn [More.sent Store.requests]. now rewrite <- app_assoc.
    + split; [|exact Hsent]. cbn [More.sent Store.requests]. now rewrite app_nil_r.
  - rewrite (upsert_chunks_unavailable L ops chunks s (accepts_kwargs_plain L HL) Hav).
    exists 0, s. split; [reflexivity|]. pose proof (llen_nonneg chunks).
    split; [lia|]. split; [auto | discriminate].
Qed.

Lemma upsert_chunks_counts_accepted_witness :
  exists s',
    Store.upsert_chunks Logger.lenient More.picky_container ["c0"; "c1"; "c2"]
      More.available_store = (Ok 2, s') /\
    Store.requests s'
    = [Store.UpsertItem "c0"; Store.UpsertItem "c1"; Store.UpsertItem "c2"; Store.CountQuery].
Proof.
  destruct (upsert_chunks_counts_accepted Logger.lenient More.picky_container
              ["c0"; "c1"; "c2"] More.available_store lenient_accepts)
    as (n & s' & Hrun & _ & _ & Hav).
  destruct (Hav eq_refl) as (Hn & Hreq & _).
  exists s'. rewrite Hn in Hrun, Hreq. split; [exact Hrun | exact Hreq].
Defined.

Section Connect.

Import Cosmos Store More.

Context {Doc Summary : Type}.
Variable L : Logger.Impl.
Variable ops : ContainerOps Doc Summary.
Variable azure : Azure.
Hypothesis L_plain : Logger.plain_ok L.

Ltac plain_logs :=
  repeat match goal with
         | |- context [Logger.log_error L ?m []] =>
             rewrite (proj1 (proj2 (L_plain m)))
         | |- context [Logger.log_warning L ?m []] =>
             rewrite (proj1 (proj2 (proj2 (L_plain m))))
         | |- context [Logger.log_info L ?m []] =>
             rewrite (proj1 (L_plain m))
         end.

(** [_connect] never raises.  It ends connected exactly when every
    step went through; then the container is set and the document
    count is the one read at start-up. *)
Lemma connect_plain (s : State Doc) :
  connected (client s) = false ->
  exists s',
    _connect L ops azure s = (Ok tt, s') /\
    (connected (client s') = true <-> connect_succeeds L azure) /\
    (connected (client s') = true ->
     is_available (client s') = true /\
     exists c, get_container_client azure = Ok c /\
               s' = on_client (fun cl => set_connected cl true)
                      (after_count L ops (on_client (fun cl => set_container cl (Some c)) s))).
Proof.
  intros Hs. unfold _connect, connect_succeeds.
  destruct (HAS_COSMOS azure); cbn [negb].
  2:{ unfold lift. plain_logs. exists s. split; [reflexivity|].
      split; [split; [congruence | now intros (? & _)] | congruence]. }
  destruct (Chunker.nonempty (endpoint azure)); cbn [negb orb].
  2:{ unfold lift. plain_logs. exists s. split; [reflexivity|].
      split; [split; [congruence | now intros (_ & ? & _)] | congruence]. }
  destruct (Chunker.nonempty (key azure)); cbn [negb].
  2:{ unfold lift. plain_logs. exists s. split; [reflexivity|].
      split; [split; [congruence | now intros (_ & _ & ? & _)] | congruence]. }
  unfold try_except at 1. unfold mbind at 1, lift at 1.
  destruct (new_client azure) as [[]|e].
  2:{ unfold mbind, lift, modify. plain_logs. eexists. split; [reflexivity|]. cbn.
      split; [split; [congruence | now intros (_ & _ & _ & ? & _)] | congruence]. }
  unfold mbind at 1, lift at 1.
  destruct (create_database_if_not_exists azure) as [[]|e].
  2:{ unfold mbind, lift, modify. plain_logs. eexists. split; [reflexivity|]. cbn.
      split; [split; [congruence | now intros (_ & _ & _ & _ & ? & _)] | congruence]. }
  unfold mbind at 1, try_except at 1. unfold mbind at 1, lift at 1.
  destruct (get_container_client azure) as [c|e].
  2:{ unfold mbind, lift, modify, raise. plain_logs. eexists. split; [reflexivity|]. cbn.
      split; [split; [congruence | now intros (_ & _ & _ & _ & _ & [? ?] & _)] | congruence]. }
  unfold mbind at 1, modify at 1. unfold mbind at 1, lift at 1.
  destruct (container_read azure) as [[]|e].
  2:{ unfold mbind, lift, modify, raise. plain_logs. eexists. split; [reflexivity|]. cbn.
      split; [split; [congruence | now intros (_ & _ & _ & _ & _ & _ & ? & _)] | congruence]. }
  unfold lift at 1. plain_logs.
  unfold mbind at 1. rewrite (update_document_count_plain L ops L_plain).
  unfold mbind at 1, modify at 1. unfold lift at 1.
  set (s1 := on_client (fun cl => set_connected cl true) _).
  destruct (Logger.log_info L "Connected to Cosmos DB" ["database"; "container"]) as [[]|e].
  - exists s1. split; [reflexivity|]. split; [|intros _; split].
    + split; [intros _; repeat split; eauto | reflexivity].
    + unfold s1, is_available, after_count. reflexivity.
    + exists c. split; reflexivity.
  - unfold mbind, lift, modify. plain_logs. eexists. split; [reflexivity|]. cbn.
    split; [split; [congruence | now intros (_ & _ & _ & _ & _ & _ & _ & ?)] | congruence].
Qed.

End Connect.

(** X14.  [_connect] never raises when the logger accepts a call
    with the message alone, and from a client that is not connected
    it ends connected exactly when every step went through: the
    package is installed, both credentials are set, the SDK client,
    the database and the container are obtained, the container can be
    read, and the last logging call (with its keyword arguments)
    returns.  A connected client is available: its container is the
    one obtained. *)
Theorem connect_connected_iff {Doc Summary : Type}
    (L : Logger.Impl) (ops : Store.ContainerOps Doc Summary) (azure : Store.Azure)
    (s : Store.State Doc) :
  Logger.plain_ok L ->
  Cosmos.connected (Store.client s) = false ->
  exists s',
    Store._connect L ops azure s = (Ok tt, s') /\
    (Cosmos.connected (Store.client s') = true <-> More.connect_succeeds L azure) /\
    (Cosmos.connected (Store.client s') = true ->
     Cosmos.is_available (Store.client s') = true /\
     exists c, Store.get_container_client azure = Ok c /\
               Cosmos.container (Store.client s') = Some c).
Proof.
  intros HL Hs. destruct (connect_plain L ops azure HL s Hs) as (s' & Hrun & Hiff & Hconn).
  exists s'. split; [exact Hrun|]. split; [exact Hiff|].
  intros H. destruct (Hconn H) as (Hav & c & Hc & ->). split; [exact Hav|].
  exists c. split; [exact Hc|]. unfold More.after_count. reflexivity.
Qed.

Lemma connect_connected_iff_witness :
  exists s',
    Store._connect Logger.lenient More.picky_container More.healthy_azure Store.initial_state
    = (Ok tt, s') /\
    Cosmos.connected (Store.client s') = true /\
    Cosmos.is_available (Store.client s') = true.
Proof.
  destruct (connect_connected_iff Logger.lenient More.picky_container More.healthy_azure
              Store.initial_state) as (s' & Hrun & Hiff & Hav).
  - intros m. repeat split.
  - reflexivity.
  - assert (Hc : Cosmos.connected (Store.client s') = true).
    { apply Hiff. unfold More.connect_succeeds. repeat split. eexists. reflexivity. }
    exists s'. split; [exact Hrun|]. split; [exact Hc|]. now apply Hav.
Defined.

(** X15.  With the logging module as written, a store client is
    never available.  The last step of [_connect] passes keyword
    arguments to [log_info], which takes none: the [TypeError] is
    caught and [connected] is set back to false.  So after
    [__init__], whatever the account answers, [is_available] is
    false, [upsert_chunks] returns zero and [search_similar] returns
    the empty list, both without a request to the store. *)
Theorem connect_backend_logger_never_available {Doc Summary : Type}
    (ops : Store.ContainerOps Doc Summary) (azure : Store.Azure) :
  exists s',
    Store._connect Logger.backend ops azure Store.initial_state = (Ok tt, s') /\
    Cosmos.is_available (Store.client s') = false /\
    (forall chunks, Store.upsert_chunks Logger.backend ops chunks s' = (Ok 0, s')) /\
    (forall q k m tr,
       Cosmos.search_similar Logger.backend (Store.client s') q k m tr
       = (Ok [], tr ++ [Cosmos.Logged "ERROR" "Cosmos DB not available for search"])).
Proof.
  destruct (connect_plain Logger.backend ops azure backend_plain Store.initial_state eq_refl)
    as (s' & Hrun & Hiff & _).
  assert (Hav : Cosmos.is_available (Store.client s') = false).
  { unfold Cosmos.is_available.
    destruct (Cosmos.connected (Store.client s')); [|reflexivity].
    destruct (proj1 Hiff eq_refl) as (_ & _ & _ & _ & _ & _ & _ & Hlog). discriminate Hlog. }
  exists s'. split; [exact Hrun|]. split; [exact Hav|]. split.
  - intros chunks. now apply upsert_chunks_unavailable; [apply backend_plain|].
  - intros q k m tr.
    now apply (proj1 (search_similar_short_circuit Logger.backend (Store.client s') q k m tr
                        backend_plain)).
Qed.

(** * The chat client *)

Section Listing.

Import Cosmos Store More.

Context {Doc Summary : Type}.
Variable L : Logger.Impl.
Variable ops : ContainerOps Doc Summary.
Hypothesis L_plain : Logger.plain_ok L.

Lemma list_documents_plain (s : State Doc) :
  list_documents L ops s = (Ok (listed L ops s), after_listing s).
Proof.
  destruct (L_plain "Cosmos DB not available") as (_ & Hna & _).
  destruct (L_plain "Failed to list documents") as (_ & Herr & _).
  unfold list_documents, listed, after_listing, mbind at 1, get_state.
  destruct (is_available (client s)) eqn:Hav; cbn [negb].
  - unfold try_except, mbind at 1, container_call.
    unfold is_available in Hav. destruct (container (client s)) as [c|];
      [|now rewrite andb_false_r in Hav].
    destruct (list_query ops (length (requests s))) as [docs|e].
    + unfold mbind, lift, ret.
      destruct (Logger.log_info L "Documents listed" ["count"]) as [[]|e]; [reflexivity|].
      now rewrite Herr.
    + unfold mbind, lift, ret. rewrite Herr.
      now destruct (Logger.log_info L "Documents listed" ["count"]) as [[]|e'].
  - unfold mbind, lift, ret. now rewrite Hna.
Qed.

End Listing.

(** X16.  [_get_available_documents] never raises when the logger
    accepts a call with the message alone.  It returns one line
    ["- <filename> (subido: <uploaded_at>)"] for each record of the
    listing, in order, with ["unknown"] for a missing field.  In every
    other case (the client is not available, the query fails, the
    listing is empty, or the logging call of [list_documents] raises)
    it returns the text for an empty knowledge base: a failure to
    list cannot be told from an empty store, and the text for a
    failure is not returned. *)
Theorem get_available_documents_lines {Doc : Type}
    (L : Logger.Impl) (ops : Store.ContainerOps Doc Chat.DocSummary) (s : Store.State Doc) :
  Logger.plain_ok L ->
  exists out,
    Chat._get_available_documents L ops s = (Ok out, More.after_listing s) /\
    (out = "No hay documentos en la base de conocimiento." /\ More.listed L ops s = [] \/
     exists doc docs,
       Cosmos.is_available (Store.client s) = true /\
       Store.list_query ops (length (Store.requests s)) = Ok (doc :: docs) /\
       Logger.log_info L "Documents listed" ["count"] = Ok tt /\
       out = join nl (map Chat.doc_line (doc :: docs))).
Proof.
  intros HL. unfold Chat._get_available_documents, try_except, mbind.
  rewrite (list_documents_plain L ops HL).
  destruct (More.listed L ops s) as [|doc docs] eqn:Hl.
  - eexists. split; [reflexivity|]. now left.
  - eexists. split; [reflexivity|]. right. exists doc, docs.
    unfold More.listed in Hl.
    destruct (Cosmos.is_available (Store.client s)); [|discriminate].
    destruct (Store.list_query ops (length (Store.requests s))) as [ds|e]; [|discriminate].
    destruct (Logger.log_info L "Documents listed" ["count"]) as [[]|e]; [|discriminate].
    now rewrite Hl.
Qed.

Lemma get_available_documents_lines_witness :
  exists out,
    Chat._get_available_documents Logger.lenient More.library_container More.available_store
    = (Ok out, More.after_listing More.available_store) /\
    out = "- manual.pdf (subido: 2025-01-01T10:00:00)" +:+ nl +:+ "- faq.md (subido: unknown)".
Proof.
  destruct (get_available_documents_lines Logger.lenient More.library_container
              More.available_store lenient_accepts_plain)
    as (out & Hrun & [[_ Hl]|(doc & docs & _ & Hq & _ & Hout)]).
  - discriminate Hl.
  - exists out. split; [exact Hrun|]. injection Hq as <- <-. exact Hout.
Defined.

Section Context.

Import Cosmos More.

Variable md5 : string -> string.
Variable self : Chat.ChatClient.
Variable null_query : Z -> PyResult (list Item).

Lemma embed_texts_backend_raises (client : Embedder.EmbeddingsClient) (texts : list string)
    (s : Embedder.State) :
  texts <> [] ->
  exists msg,
    Embedder.embed_texts md5 Logger.backend client texts s = (Raise (TypeError msg), s).
Proof.
  intros Hne. unfold Embedder.embed_texts. destruct texts as [|t0 rest]; [congruence|].
  unfold mbind at 1. rewrite scan_cache_plain by apply backend_plain.
  destruct (Embedder.texts_to_embed _) as [|m ms]; eexists; reflexivity.
Qed.

Lemma chat_state_eta (s : Chat.State) :
  {| Chat.embed_state := Chat.embed_state s; Chat.events := Chat.events s;
     Chat.chat_calls := Chat.chat_calls s; Chat.chat_slept := Chat.chat_slept s |} = s.
Proof. now destruct s. Qed.

(** [search_similar] never raises. *)
Lemma search_similar_returns (L : Logger.Impl) (client : CosmosDBClient) (q : list Q) (k : Z)
    (m : Q) (tr : list event) :
  Logger.plain_ok L ->
  exists results tr', search_similar L client q k m tr = (Ok results, tr').
Proof.
  intros HL. destruct (is_available client) eqn:Hav.
  - destruct (has_documents client) eqn:Hdocs.
    + destruct (search_similar_outcome L client HL q k m tr Hav Hdocs)
        as (c & tr' & _ & [H|(items & _ & H)]); eauto.
    + rewrite (proj2 (search_similar_short_circuit L client q k m tr HL) Hav Hdocs). eauto.
  - rewrite (proj1 (search_similar_short_circuit L client q k m tr HL) Hav). eauto.
Qed.

Lemma search_returns (L : Logger.Impl) (qv : option Embedder.vector) (k : Z) (tr : list event) :
  Logger.plain_ok L ->
  exists results tr', Chat.search L self null_query qv k tr = (Ok results, tr').
Proof. intros HL. unfold Chat.search. destruct qv; now apply search_similar_returns. Qed.

Lemma context_parts_each (results : list Result) (parts : list string) :
  Chat.context_parts results = Ok parts ->
  Forall2 (fun r p => Chat.context_part r = Ok p) results parts.
Proof.
  revert parts. induction results as [|r rest IH]; intros parts H.
  - injection H as <-. constructor.
  - cbn [Chat.context_parts] in H.
    destruct (Chat.context_part r) as [p|e] eqn:Hp; [|discriminate]. cbn [bind] in H.
    destruct (Chat.context_parts rest) as [ps|e]; [|discriminate]. cbn [bind] in H.
    injection H as <-. constructor; [exact Hp | now apply IH].
Qed.

Lemma get_relevant_context_plain (L : Logger.Impl) (query : string) (top_k : Z)
    (s : Chat.State) :
  Logger.plain_ok L ->
  exists context s',
    Chat._get_relevant_context md5 L self null_query query top_k s = (Ok context, s') /\
    Chat.chat_calls s' = Chat.chat_calls s /\ Chat.chat_slept s' = Chat.chat_slept s /\
    (context = "" \/
     exists query_vector rest e' results parts,
       Embedder.embed_texts md5 L (Chat.embedder self) [query] (Chat.embed_state s)
       = (Ok (query_vector :: rest), e') /\
       Chat.search L self null_query query_vector top_k (Chat.events s)
       = (Ok results, Chat.events s') /\
       results <> [] /\
       Forall2 (fun r p => Chat.context_part r = Ok p) results parts /\
       context = join (nl +:+ nl) parts).
Proof.
  intros HL. destruct (HL "Context retrieval failed") as (_ & Herr & _).
  unfold Chat._get_relevant_context, try_except, mbind at 1, Chat.on_embedder.
  destruct (Embedder.embed_texts md5 L (Chat.embedder self) [query] (Chat.embed_state s))
    as [[[|qv rest]|e] e'] eqn:Hembed.
  - unfold ret. eexists _, _. split; [reflexivity|]. cbn. auto.
  - unfold mbind at 1, Chat.on_events. cbn [Chat.events].
    destruct (search_returns L qv top_k (Chat.events s) HL) as (results & tr' & Hsearch).
    rewrite Hsearch. destruct results as [|r results].
    + unfold ret. eexists _, _. split; [reflexivity|]. cbn. auto.
    + unfold mbind at 1, lift at 1.
      destruct (Chat.context_parts (r :: results)) as [parts|e] eqn:Hparts.
      * unfold mbind, lift, ret.
        destruct (Logger.log_info L "Context retrieved" ["chunks"; "context_length"])
          as [[]|e].
        -- eexists _, _. split; [reflexivity|]. cbn. split; [reflexivity|].
           split; [reflexivity|]. right. exists qv, rest, e', (r :: results), parts.
           split; [reflexivity|]. split; [exact Hsearch|]. split; [discriminate|].
           split; [now apply context_parts_each | reflexivity].
        -- rewrite Herr. eexists _, _. split; [reflexivity|]. cbn. auto.
      * unfold mbind, lift, ret. rewrite Herr. eexists _, _. split; [reflexivity|]. cbn. auto.
  - unfold mbind, lift, ret. rewrite Herr. eexists _, _. split; [reflexivity|]. cbn. auto.
Qed.

End Context.

(** X17.  [_get_relevant_context] never raises when the logger
    accepts a call with the message alone: whatever the embedder and
    the store do, it returns a text.  The text is empty, or it is
    made of one part ["[<filename>] <stripped text>"] for each result
    of the search for the embedding of the query, in the order of the
    results, joined by blank lines. *)
Theorem get_relevant_context_total
    (md5 : string -> string) (L : Logger.Impl) (self : Chat.ChatClient)
    (null_query : Z -> PyResult (list Cosmos.Item)) (query : string) (top_k : Z)
    (s : Chat.State) :
  Logger.plain_ok L ->
  exists context s',
    Chat._get_relevant_context md5 L self null_query query top_k s = (Ok context, s') /\
    (context = "" \/
     exists query_vector rest e' results parts,
       Embedder.embed_texts md5 L (Chat.embedder self) [query] (Chat.embed_state s)
       = (Ok (query_vector :: rest), e') /\
       Chat.search L self null_query query_vector top_k (Chat.events s)
       = (Ok results, Chat.events s') /\
       results <> [] /\
       Forall2 (fun r p => Chat.context_part r = Ok p) results parts /\
       context = join (nl +:+ nl) parts).
Proof.
  intros HL.
  destruct (get_relevant_context_plain md5 self null_query L query top_k s HL)
    as (context & s' & Hrun & _ & _ & Hform).
  now exists context, s'.
Qed.

(** X18.  With the logging module as written no context is ever
    retrieved: [embed_texts] raises [TypeError] at its first logging
    call with keyword arguments, before any call to the endpoint, and
    [_get_relevant_context] catches it.  It returns the empty text
    and leaves everything as it was: no remote call, no request to
    the store. *)
Theorem get_relevant_context_backend_logger
    (md5 : string -> string) (self : Chat.ChatClient)
    (null_query : Z -> PyResult (list Cosmos.Item)) (query : string) (top_k : Z)
    (s : Chat.State) :
  Chat._get_relevant_context md5 Logger.backend self null_query query top_k s = (Ok "", s).
Proof.
  unfold Chat._get_relevant_context, try_except, mbind at 1, Chat.on_embedder.
  destruct (embed_texts_backend_raises md5 (Chat.embedder self) [query] (Chat.embed_state s))
    as [msg ->]; [discriminate|].
  unfold mbind, lift, ret. cbn. now rewrite chat_state_eta.
Qed.

Lemma get_relevant_context_total_witness :
  exists s',
    Chat._get_relevant_context (fun t => t) Logger.lenient More.sample_chat
      (fun _ => Ok []) "hi" 3 More.fresh_chat
    = (Ok ("[notes.txt] a" +:+ nl +:+ nl +:+ "[notes.txt] b"), s').
Proof.
  destruct (get_relevant_context_total (fun t => t) Logger.lenient More.sample_chat
              (fun _ => Ok []) "hi" 3 More.fresh_chat lenient_accepts_plain)
    as (context & s' & Hrun & _).
  exists s'. rewrite Hrun. f_equal.
  assert (H : fst (Chat._get_relevant_context (fun t => t) Logger.lenient More.sample_chat
                     (fun _ => Ok []) "hi" 3 More.fresh_chat)
              = Ok ("[notes.txt] a" +:+ nl +:+ nl +:+ "[notes.txt] b")) by (vm_compute; reflexivity).
  rewrite Hrun in H. exact H.
Defined.

Section ChatRetry.

Import More.

Variable L : Logger.Impl.
Variable self : Chat.ChatClient.
Variable api : Chat.AzureOpenAI.
Variable messages : list Chat.Message.
Hypothesis L_accepts : Logger.accepts_kwargs L.

Lemma after_chat_step (s : Chat.State) (a n k : nat) :
  after_chat (Chat.chat_sleep (2 ^ Z.of_nat a) (Chat.count_chat_call s)) n
             (backoff_from (S a) k)
  = after_chat s (S n) (backoff_from a (S k)).
Proof.
  unfold after_chat, Chat.chat_sleep, Chat.count_chat_call, backoff_from.
  cbn [Chat.embed_state Chat.events Chat.chat_calls Chat.chat_slept seq map].
  f_equal; [lia|]. now rewrite <- app_assoc.
Qed.

Lemma chat_attempts_outcome (max_retries : Z) (n a : nat) (s : Chat.State) :
  Z.of_nat (a + S n) = max_retries ->
  exists out j,
    (1 <= j <= S n)%nat /\
    Chat.chat_attempts L self api messages max_retries (map Z.of_nat (seq a (S n))) s
    = (Ok (Some out), after_chat s j (backoff_from a (j - 1))) /\
    (forall i, (i < j - 1)%nat ->
       exists e, Chat.completions_create api (Chat.chat_calls s + i) (Chat.deployment self)
                   messages = Raise e) /\
    (Chat.completions_create api (Chat.chat_calls s + (j - 1)) (Chat.deployment self) messages
     = Ok out \/
     j = S n /\ out = Chat.error_message /\
     exists e, Chat.completions_create api (Chat.chat_calls s + (j - 1)) (Chat.deployment self)
                 messages = Raise e).
Proof.
  destruct (L_accepts "Chat response generated"
              ["prompt_tokens"; "completion_tokens"; "total_tokens"; "attempt"]) as (Hinfo & _).
  destruct (L_accepts "Chat attempt failed, retrying" []) as (_ & _ & Hwarn & _).
  destruct (L_accepts "Chat completion failed" []) as (_ & Herr & _).
  revert a s. induction n as [|n IH]; intros a s Hmax.
  - cbn [seq map Chat.chat_attempts].
    unfold try_except, mbind, get_state, modify, lift, ret.
    assert (Hone : Chat.count_chat_call s = after_chat s 1 (backoff_from a (1 - 1))).
    { destruct s. unfold Chat.count_chat_call, after_chat, backoff_from. cbn.
      f_equal; [lia | now rewrite app_nil_r]. }
    destruct (Chat.completions_create api (Chat.chat_calls s) (Chat.deployment self) messages)
      as [answer|e] eqn:Hcall.
    + rewrite Hinfo. exists answer, 1%nat. split; [lia|]. split; [now rewrite Hone|].
      split; [intros i Hi; lia|]. left. now rewrite Nat.add_0_r.
    + destruct (Z.ltb_spec (Z.of_nat a) (max_retries - 1)); [lia|].
      rewrite Herr. exists Chat.error_message, 1%nat. split; [lia|].
      split; [now rewrite Hone|]. split; [intros i Hi; lia|]. right.
      split; [reflexivity|]. split; [reflexivity|]. exists e. now rewrite Nat.add_0_r.
  - change (map Z.of_nat (seq a (S (S n))))
      with (Z.of_nat a :: map Z.of_nat (seq (S a) (S n))).
    cbn [Chat.chat_attempts].
    unfold try_except, mbind at 1, get_state at 1. unfold mbind at 1, modify at 1.
    unfold mbind at 1, lift at 1.
    assert (Hone : Chat.count_chat_call s = after_chat s 1 (backoff_from a (1 - 1))).
    { destruct s. unfold Chat.count_chat_call, after_chat, backoff_from. cbn.
      f_equal; [lia | now rewrite app_nil_r]. }
    destruct (Chat.completions_create api (Chat.chat_calls s) (Chat.deployment self) messages)
      as [answer|e] eqn:Hcall.
    + unfold mbind, lift, ret. rewrite Hinfo. exists answer, 1%nat. split; [lia|].
      split; [now rewrite Hone|]. split; [intros i Hi; lia|]. left. now rewrite Nat.add_0_r.
    + destruct (Z.ltb_spec (Z.of_nat a) (max_retries - 1)); [|lia].
      unfold mbind at 1, lift at 1. rewrite Hwarn. unfold mbind at 1, modify at 1.
      destruct (IH (S a) (Chat.chat_sleep (2 ^ Z.of_nat a) (Chat.count_chat_call s)))
        as (out & j & Hj & Hrun & Hbefore & Hout); [lia|].
      cbn [Chat.chat_sleep Chat.count_chat_call Chat.chat_calls] in Hbefore, Hout.
      exists out, (S j). split; [lia|]. split.
      * rewrite Hrun. rewrite after_chat_step.
        do 3 f_equal. lia.
      * replace (Chat.chat_calls s + (S j - 1))%nat with (S (Chat.chat_calls s) + (j - 1))%nat
          by lia.
        split.
        -- intros [|i] Hi.
           ++ exists e. now rewrite Nat.add_0_r.
           ++ replace (Chat.chat_calls s + S i)%nat with (S (Chat.chat_calls s) + i)%nat by lia.
              apply Hbefore. lia.
        -- destruct Hout as [Hout|(-> & -> & Hlast)]; [now left|]. right.
           split; [reflexivity|]. split; [reflexivity|]. exact Hlast.
Qed.

End ChatRetry.

(** X19.  [chat_with_rag] with a logger that takes keyword arguments
    and a configured chat endpoint never raises and always returns a
    text.  It sends the same message list (that of [_build_messages]
    for the retrieved context) at most three times, waiting one second
    after the first failure and two after the second.  Every call
    before the last one made has raised; the last one made either
    succeeds, and its answer is returned, or is the third and raises,
    and the apology is returned. *)
Theorem chat_with_rag_answers
    (md5 : string -> string) (L : Logger.Impl) (self : Chat.ChatClient)
    (null_query : Z -> PyResult (list Cosmos.Item)) (api : Chat.AzureOpenAI)
    (user_message : string) (conversation_history : option (list Chat.Message)) (top_k : Z)
    (s : Chat.State) :
  Logger.accepts_kwargs L ->
  Chat._client self = Some api ->
  exists out s' j context,
    Chat.chat_with_rag md5 L self null_query user_message conversation_history top_k s
    = (Ok (Some out), s') /\
    (1 <= j <= 3)%nat /\
    Chat.chat_calls s' = (Chat.chat_calls s + j)%nat /\
    Chat.chat_slept s' = Chat.chat_slept s ++ More.backoff (j - 1) /\
    fst (Chat._get_relevant_context md5 L self null_query user_message top_k s) = Ok context /\
    let messages := Chat._build_messages user_message context conversation_history
                      (Chat._available_docs_cache self) in
    let call (i : nat) := Chat.completions_create api (Chat.chat_calls s + i)
                            (Chat.deployment self) messages in
    (forall i, (i < j - 1)%nat -> exists e, call i = Raise e) /\
    (call (j - 1)%nat = Ok out \/
     j = 3%nat /\ out = Chat.error_message /\ exists e, call 2%nat = Raise e).
Proof.
  intros HL Hclient. unfold Chat.chat_with_rag. rewrite Hclient.
  destruct (HL "Processing chat request" ["message_length"]) as (Hinfo & _).
  unfold mbind at 1, lift at 1. rewrite Hinfo.
  destruct (get_relevant_context_plain md5 self null_query L user_message top_k s
              (accepts_kwargs_plain L HL)) as (context & s1 & Hctx & Hcalls & Hslept & _).
  unfold mbind. rewrite Hctx.
  destruct (chat_attempts_outcome L self api
              (Chat._build_messages user_message context conversation_history
                 (Chat._available_docs_cache self)) HL 3 2 0 s1 eq_refl)
    as (out & j & Hj & Hrun & Hbefore & Hout).
  exists out, (More.after_chat s1 j (More.backoff_from 0 (j - 1))), j, context.
  split; [exact Hrun|]. split; [exact Hj|].
  cbn [More.after_chat Chat.chat_calls Chat.chat_slept]. rewrite Hcalls, Hslept.
  split; [reflexivity|]. split; [reflexivity|]. split; [reflexivity|].
  cbv zeta. rewrite <- Hcalls. split; [exact Hbefore|].
  destruct Hout as [Hout|(Hthree & Herr & Hlast)]; [now left|]. right.
  split; [exact Hthree|]. split; [exact Herr|]. now rewrite Hthree in Hlast.
Qed.

Lemma chat_with_rag_answers_witness :
  exists s',
    Chat.chat_with_rag (fun t => t) Logger.lenient More.sample_chat (fun _ => Ok [])
      "hi" None 3 More.fresh_chat = (Ok (Some "Hola."), s') /\
    Chat.chat_calls s' = 2%nat /\ Chat.chat_slept s' = [1].
Proof.
  destruct (chat_with_rag_answers (fun t => t) Logger.lenient More.sample_chat (fun _ => Ok [])
              More.slow_chat_endpoint "hi" None 3 More.fresh_chat lenient_accepts eq_refl)
    as (out & s' & j & context & Hrun & _).
  exists s'.
  assert (H : Chat.chat_with_rag (fun t => t) Logger.lenient More.sample_chat (fun _ => Ok [])
                "hi" None 3 More.fresh_chat
              = (Ok (Some "Hola."),
                 snd (Chat.chat_with_rag (fun t => t) Logger.lenient More.sample_chat
                        (fun _ => Ok []) "hi" None 3 More.fresh_chat)))
    by (vm_compute; reflexivity).
  rewrite Hrun in H. cbn [snd] in H. injection H as Hout.
  rewrite Hout in Hrun. split; [exact Hrun|].
  assert (H2 : snd (Chat.chat_with_rag (fun t => t) Logger.lenient More.sample_chat
                      (fun _ => Ok []) "hi" None 3 More.fresh_chat)
               = s') by now rewrite Hrun.
  rewrite <- H2. split; vm_compute; reflexivity.
Defined.

(** * The processor *)

Section ProcessFile.

Import Processor More.

Variable md5 : string -> string.
Variable L : Logger.Impl.
Variable chunker : Chunker.DocumentChunker.
Variable embedder : Embedder.EmbeddingsClient.
Context {Summary : Type}.
Variable ops : Store.ContainerOps CosmosDoc Summary.
Hypothesis L_accepts : Logger.accepts_kwargs L.

Lemma extract_text_accepting (readers : Readers) (ext : string) :
  exists extracted,
    _extract_text L readers ext = Ok extracted /\
    (supported ext = false -> extracted = "").
Proof.
  destruct (L_accepts "Text extraction failed" ["filepath"]) as (_ & Herr & _).
  unfold _extract_text, supported. rewrite Herr.
  destruct (String.eqb ext ".txt" || String.eqb ext ".md") eqn:Htxt.
  { destruct (from_txt readers); eexists; (split; [reflexivity|]); cbn [orb]; discriminate. }
  clear Htxt. cbn [orb].
  destruct (String.eqb ext ".pdf").
  { destruct (from_pdf readers); eexists; (split; [reflexivity|]); cbn [orb]; discriminate. }
  destruct (String.eqb ext ".docx").
  { destruct (from_docx readers); eexists; (split; [reflexivity|]); cbn [orb]; discriminate. }
  eexists. split; reflexivity.
Qed.

Lemma upsert_chunks_accepting (docs : list CosmosDoc) (st : Store.State CosmosDoc) :
  exists n st',
    Store.upsert_chunks L ops docs st = (Ok n, st') /\
    0 <= n <= llen docs /\
    (Cosmos.is_available (Store.client st) = false -> n = 0 /\ st' = st) /\
    (Cosmos.is_available (Store.client st) = true ->
     exists tail, Store.requests st' = Store.requests st ++ map Store.UpsertItem docs ++ tail).
Proof.
  destruct (Cosmos.is_available (Store.client st)) eqn:Hav.
  - pose proof (upsert_chunks_available L ops L_accepts docs st Hav) as Hrun. cbv zeta in Hrun.
    eexists _, _. split; [exact Hrun|]. split; [apply accepted_range|].
    split; [discriminate|]. intros _.
    destruct (0 <? accepted ops (length (Store.requests st)) docs).
    + rewrite after_count_requests. cbn [sent Store.requests]. rewrite <- app_assoc. eauto.
    + exists []. cbn [sent Store.requests]. now rewrite app_nil_r.
  - rewrite (upsert_chunks_unavailable L ops docs st (accepts_kwargs_plain L L_accepts) Hav).
    exists 0, st. split; [reflexivity|]. pose proof (llen_nonneg docs).
    split; [lia|]. split; [auto | discriminate].
Qed.

Lemma passage_docs_length (doc_id filename now : string) (chunks : list Chunker.Chunk)
    (embeddings : list (option Embedder.vector)) :
  length embeddings = length chunks ->
  length (passage_docs doc_id filename now chunks embeddings) = length chunks.
Proof.
  intros H. unfold passage_docs, enumerate.
  rewrite length_map, enumerate_from_length, length_combine. lia.
Qed.

(** The cases of [process_file] with a logger that takes keyword
    arguments: a failure that changed nothing, or every step done. *)
Lemma process_file_cases (readers : Readers) (ext filename doc_id now : string) (s : State) :
  exists r s',
    process_file md5 L chunker embedder ops readers ext filename doc_id now s = (Ok r, s') /\
    ((exists msg, r = Failed msg /\ s' = s /\
                  (_extract_text L readers ext = Ok "" ->
                   msg = "No text could be extracted from file") /\
                  (msg = "No text could be extracted from file" \/
                   msg = "No chunks generated from document" \/
                   exists extracted e,
                     Chunker.chunk_document chunker L extracted doc_id = Raise e /\
                     msg = exn_str e)) \/
     exists extracted chunks embeddings n,
       _extract_text L readers ext = Ok extracted /\ extracted <> "" /\
       Chunker.chunk_document chunker L extracted doc_id = Ok chunks /\ chunks <> [] /\
       Embedder.embed_texts md5 L embedder (map Chunker.text chunks) (fst s)
       = (Ok embeddings, fst s') /\
       length embeddings = length chunks /\
       Store.upsert_chunks L ops (passage_docs doc_id filename now chunks embeddings) (snd s)
       = (Ok n, snd s') /\
       r = Processed doc_id filename (llen chunks) n (len extracted) now).
Proof.
  destruct s as [es st].
  destruct (L_accepts "Processing file" ["filename"]) as (Hstart & _).
  destruct (L_accepts "File processing failed" ["filename"]) as (_ & Herr & _).
  destruct (L_accepts "File processed successfully" ["filename"; "chunks"]) as (Hdone & _).
  unfold process_file. unfold mbind at 1, lift at 1. rewrite Hstart.
  unfold try_except. unfold mbind at 1, lift at 1.
  destruct (extract_text_accepting readers ext) as (extracted & Hex & _). rewrite Hex.
  destruct extracted as [|c0 rest0] eqn:Htext.
  { cbn [Chunker.nonempty negb]. unfold ret. eexists _, _. split; [reflexivity|].
    left. eexists. split; [reflexivity|]. split; [reflexivity|]. split; [reflexivity|].
    now left. }
  rewrite <- Htext in *. assert (Hne : extracted <> "") by (rewrite Htext; discriminate).
  replace (negb (Chunker.nonempty extracted)) with false by now rewrite Htext.
  unfold mbind at 1, lift at 1.
  destruct (Chunker.chunk_document chunker L extracted doc_id) as [chunks|e] eqn:Hchunks.
  2:{ unfold mbind, lift, ret. rewrite Herr. eexists _, _. split; [reflexivity|].
      left. eexists. split; [reflexivity|]. split; [reflexivity|].
      split; [rewrite Htext; discriminate|]. right. right. now exists extracted, e. }
  destruct chunks as [|ch chs].
  { unfold ret. eexists _, _. split; [reflexivity|].
    left. eexists. split; [reflexivity|]. split; [reflexivity|].
    split; [rewrite Htext; discriminate|]. right. now left. }
  cbv iota. set (chunks := ch :: chs) in *.
  assert (Hcne : chunks <> []) by discriminate.
  destruct (embed_texts_positions md5 L embedder L_accepts (map Chunker.text chunks) es)
    as (embeddings & nv & es' & Hembed & Hlen & _).
  rewrite length_map in Hlen.
  unfold mbind at 1, on_fst. rewrite Hembed.
  replace (llen embeddings =? llen chunks) with true
    by (symmetry; apply Z.eqb_eq; unfold llen; now rewrite Hlen).
  cbn [negb].
  destruct (upsert_chunks_accepting (passage_docs doc_id filename now chunks embeddings) st)
    as (n & st' & Hup & _).
  unfold mbind at 1, on_snd. unfold passage_docs in Hup. rewrite Hup.
  unfold mbind, lift, ret. rewrite Hdone.
  eexists _, _. split; [reflexivity|]. right.
  exists extracted, chunks, embeddings, n. cbn [fst snd]. auto 10.
Qed.

End ProcessFile.

Section PassageDocs.

Import Processor More.

Lemma combine_lookup {A B} (l : list A) (l' : list B) (i : nat) (p : A * B) :
  combine l l' !! i = Some p <-> l !! i = Some (fst p) /\ l' !! i = Some (snd p).
Proof.
  revert l' i. induction l as [|a l IH]; intros l' i.
  - simpl. split; [discriminate | now intros [? _]].
  - destruct l' as [|b l']; [simpl; split; [discriminate | now intros [_ ?]]|].
    destruct i as [|i]; simpl.
    + destruct p as [x y]. split; [now intros [= <- <-] | now intros [[= <-] [= <-]]].
    + apply IH.
Qed.

Lemma str_app_inv_head (a b c : string) : a +:+ b = a +:+ c -> b = c.
Proof.
  induction a as [|x a IH]; [trivial|].
  change (String x (a +:+ b) = String x (a +:+ c) -> b = c). intros [= H]. now apply IH.
Qed.

Lemma passage_docs_lookup (doc_id filename now : string) (chunks : list Chunker.Chunk)
    (embeddings : list (option Embedder.vector)) (k : nat) (d : CosmosDoc) :
  passage_docs doc_id filename now chunks embeddings !! k = Some d ->
  exists c e, chunks !! k = Some c /\ embeddings !! k = Some e /\
              d = cosmos_doc doc_id filename now (Z.of_nat k, (c, e)).
Proof.
  unfold passage_docs, enumerate. rewrite list_lookup_fmap, enumerate_from_lookup.
  destruct (combine chunks embeddings !! k) as [[c e]|] eqn:Hk; [|discriminate].
  apply combine_lookup in Hk as [Hc He]. cbn. intros [= <-].
  exists c, e. rewrite Z.add_0_l. auto.
Qed.

Lemma passage_docs_ids (doc_id filename now : string) (chunks : list Chunker.Chunk)
    (embeddings : list (option Embedder.vector)) :
  NoDup (map id (passage_docs doc_id filename now chunks embeddings)).
Proof.
  apply NoDup_alt. intros i j x Hi Hj.
  rewrite list_lookup_fmap in Hi, Hj.
  destruct (passage_docs doc_id filename now chunks embeddings !! i) as [di|] eqn:Hdi;
    [|discriminate].
  destruct (passage_docs doc_id filename now chunks embeddings !! j) as [dj|] eqn:Hdj;
    [|discriminate].
  apply passage_docs_lookup in Hdi as (ci & ei & _ & _ & ->).
  apply passage_docs_lookup in Hdj as (cj & ej & _ & _ & ->).
  cbn in Hi, Hj. injection Hi as <-. injection Hj as Hj.
  apply str_app_inv_head in Hj. apply (str_app_inv_head "::") in Hj.
  unfold str_of_int in Hj. apply pretty.pretty_Z_inj in Hj. lia.
Qed.

End PassageDocs.

(** X20.  [process_file] with a logger that takes keyword arguments
    never raises.  A failure changes nothing: no vector is cached and
    nothing is sent to the store.  Its error is "No text could be
    extracted from file" (always so for an extension other than
    [.txt], [.md], [.pdf], [.docx]), "No chunks generated from
    document", or the text of an exception of [chunk_document]; the
    error "Embedding count mismatch" does not occur.  A success reports the identifier, file name and time it
    was given, at least one passage, and a number of stored passages
    between zero and the number of passages.  When the store client is
    not available the result is still a success, with zero stored
    passages and no request to the store. *)
Theorem process_file_outcome
    (md5 : string -> string) (L : Logger.Impl) (chunker : Chunker.DocumentChunker)
    (embedder : Embedder.EmbeddingsClient) {Summary : Type}
    (ops : Store.ContainerOps Processor.CosmosDoc Summary) (readers : Processor.Readers)
    (ext filename doc_id now : string) (s : Processor.State) :
  Logger.accepts_kwargs L ->
  exists r s',
    Processor.process_file md5 L chunker embedder ops readers ext filename doc_id now s
    = (Ok r, s') /\
    match r with
    | Processor.Failed msg =>
        s' = s /\
        (More.supported ext = false -> msg = "No text could be extracted from file") /\
        (msg = "No text could be extracted from file" \/
         msg = "No chunks generated from document" \/
         exists extracted e,
           Chunker.chunk_document chunker L extracted doc_id = Raise e /\
           msg = exn_str e)
    | Processor.Processed i f total stored _ uploaded =>
        i = doc_id /\ f = filename /\ uploaded = now /\
        1 <= total /\ 0 <= stored <= total /\
        (Cosmos.is_available (Store.client (snd s)) = false ->
         stored = 0 /\ snd s' = snd s)
    end.
Proof.
  intros HL.
  destruct (process_file_cases md5 L chunker embedder ops HL readers ext filename doc_id now s)
    as (r & s' & Hrun & [(msg & -> & -> & Hmsg & Hwhy)|
                         (extracted & chunks & embeddings & n & Hex & Hne & Hchunks & Hcne &
                          Hembed & Hlen & Hup & ->)]).
  - exists (Processor.Failed msg), s. split; [exact Hrun|]. split; [reflexivity|].
    split; [|exact Hwhy].
    intros Hsup. apply Hmsg.
    destruct (extract_text_accepting L HL readers ext) as (t & Ht & Hempty).
    now rewrite Ht, (Hempty Hsup).
  - eexists _, s'. split; [exact Hrun|]. cbv iota.
    destruct (upsert_chunks_accepting L ops HL
                (More.passage_docs doc_id filename now chunks embeddings) (snd s))
      as (n' & st' & Hup' & Hrange & Hunav & _).
    rewrite Hup in Hup'. injection Hup' as <- <-.
    rewrite <- (Nat2Z.id (length chunks)) in Hlen.
    assert (Hdocs : llen (More.passage_docs doc_id filename now chunks embeddings) = llen chunks).
    { unfold llen. rewrite passage_docs_length; [reflexivity|]. now rewrite Nat2Z.id in Hlen. }
    rewrite Hdocs in Hrange.
    split; [reflexivity|]. split; [reflexivity|]. split; [reflexivity|].
    split; [|split; [exact Hrange | exact Hunav]].
    unfold llen. destruct chunks; [congruence | simpl; lia].
Qed.

Lemma process_file_outcome_witness :
  exists s',
    Processor.process_file (fun t => t) Logger.lenient Chunker.default_chunker
      Spec.small_client More.open_container More.two_sentences ".txt" "pets.txt"
      "doc-1" "2025-01-01T10:00:00" More.unavailable_processor
    = (Ok (Processor.Processed "doc-1" "pets.txt" 1 0 31 "2025-01-01T10:00:00"), s') /\
    snd s' = snd More.unavailable_processor.
Proof.
  destruct (process_file_outcome (fun t => t) Logger.lenient Chunker.default_chunker
              Spec.small_client More.open_container More.two_sentences ".txt" "pets.txt"
              "doc-1" "2025-01-01T10:00:00" More.unavailable_processor lenient_accepts)
    as (r & s' & Hrun & Hr).
  assert (H : fst (Processor.process_file (fun t => t) Logger.lenient Chunker.default_chunker
                     Spec.small_client More.open_container More.two_sentences ".txt" "pets.txt"
                     "doc-1" "2025-01-01T10:00:00" More.unavailable_processor)
              = Ok (Processor.Processed "doc-1" "pets.txt" 1 0 31 "2025-01-01T10:00:00"))
    by (vm_compute; reflexivity).
  rewrite Hrun in H. cbn [fst] in H. injection H as ->.
  exists s'. split; [exact Hrun|]. cbv iota in Hr.
  destruct Hr as (_ & _ & _ & _ & _ & Hunav). now apply Hunav.
Defined.

(** X21.  The documents of one file get distinct identifiers.  With
    a logger that takes keyword arguments and an available store
    client, a successful [process_file] has sent to the store, in
    order, one document for each passage; document [k] has the
    identifier [<doc_id>::<k>], [chunk_index = k], the file name and
    the upload time of the call, and [text_length] equal to the
    length of its text; no two identifiers are equal. *)
Theorem process_file_documents
    (md5 : string -> string) (L : Logger.Impl) (chunker : Chunker.DocumentChunker)
    (embedder : Embedder.EmbeddingsClient) {Summary : Type}
    (ops : Store.ContainerOps Processor.CosmosDoc Summary) (readers : Processor.Readers)
    (ext filename doc_id now : string) (s s' : Processor.State)
    (total stored length_of_text : Z) :
  Logger.accepts_kwargs L ->
  Cosmos.is_available (Store.client (snd s)) = true ->
  Processor.process_file md5 L chunker embedder ops readers ext filename doc_id now s
  = (Ok (Processor.Processed doc_id filename total stored length_of_text now), s') ->
  exists docs tail,
    Store.requests (snd s') = Store.requests (snd s) ++ map Store.UpsertItem docs ++ tail /\
    llen docs = total /\
    NoDup (map Processor.id docs) /\
    forall (k : nat) (d : Processor.CosmosDoc),
      docs !! k = Some d ->
      Processor.id d = doc_id +:+ "::" +:+ str_of_int (Z.of_nat k) /\
      Processor.chunk_index d = Z.of_nat k /\
      Processor.filename d = filename /\
      Processor.uploaded_at d = now /\
      Processor.text_length d = len (Processor.text d).
Proof.
  intros HL Hav Hrun.
  destruct (process_file_cases md5 L chunker embedder ops HL readers ext filename doc_id now s)
    as (r & s1 & Hrun1 & [(msg & -> & _)|
                          (extracted & chunks & embeddings & n & Hex & Hne & Hchunks & Hcne &
                           Hembed & Hlen & Hup & ->)]);
    rewrite Hrun in Hrun1; [discriminate|].
  injection Hrun1 as Htotal Hstored Htl <-.
  destruct (upsert_chunks_accepting L ops HL
              (More.passage_docs doc_id filename now chunks embeddings) (snd s))
    as (n' & st' & Hup' & _ & _ & Hreq).
  rewrite Hup in Hup'. injection Hup' as <- <-.
  destruct (Hreq Hav) as (tail & Htail).
  exists (More.passage_docs doc_id filename now chunks embeddings), tail.
  split; [exact Htail|]. split.
  { unfold llen. rewrite passage_docs_length by exact Hlen. now rewrite Htotal. }
  split; [apply passage_docs_ids|].
  intros k d Hd. apply passage_docs_lookup in Hd as (c & e & _ & _ & ->). cbn. auto.
Qed.

Lemma process_file_documents_witness :
  exists docs tail,
    Store.requests
      (snd (snd (Processor.process_file (fun t => t) Logger.lenient Chunker.default_chunker
                   Spec.small_client More.open_container More.two_sentences ".txt" "pets.txt"
                   "doc-1" "2025-01-01T10:00:00" More.available_processor)))
    = Store.requests (snd More.available_processor) ++ map Store.UpsertItem docs ++ tail /\
    llen docs = 1 /\
    NoDup (map Processor.id docs) /\
    forall (k : nat) (d : Processor.CosmosDoc),
      docs !! k = Some d ->
      Processor.id d = "doc-1" +:+ "::" +:+ str_of_int (Z.of_nat k) /\
      Processor.chunk_index d = Z.of_nat k /\
      Processor.filename d = "pets.txt" /\
      Processor.uploaded_at d = "2025-01-01T10:00:00" /\
      Processor.text_length d = len (Processor.text d).
Proof.
  apply (process_file_documents (fun t => t) Logger.lenient Chunker.default_chunker
           Spec.small_client More.open_container More.two_sentences ".txt" "pets.txt"
           "doc-1" "2025-01-01T10:00:00" More.available_processor _ 1 1 31).
  - exact lenient_accepts.
  - reflexivity.
  - rewrite (surjective_pairing (Processor.process_file _ _ _ _ _ _ _ _ _ _ _)) at 1.
    f_equal.
Defined.

(** * The configuration *)

Section Validate.

Import Config.

Lemma nonempty_false (v : string) : Chunker.nonempty v = false <-> v = "".
Proof. destruct v; split; intros H; try reflexivity; discriminate. Qed.

Lemma missing_spec (self : AvatarRAGConfig) (name : string) :
  In name (missing self) <-> exists value, In (name, value) (required self) /\ value = "".
Proof.
  unfold missing. rewrite in_map_iff. split.
  - intros ([n v] & <- & Hin). apply filter_In in Hin as [Hin Hv].
    exists v. split; [exact Hin|]. apply nonempty_false. now destruct (Chunker.nonempty v).
  - intros (value & Hin & ->). exists (name, ""). split; [reflexivity|].
    apply filter_In. split; [exact Hin | reflexivity].
Qed.

End Validate.

(** X22.  [validate] returns exactly when none of the five required
    settings is empty.  Otherwise it raises [ValueError] with a
    message that names, separated by commas, the variables of the
    empty settings and no other. *)
Theorem validate_names_missing (self : Config.AvatarRAGConfig) :
  (Config.validate self = Ok tt <->
   Forall (fun p => snd p <> "") (Config.required self)) /\
  (forall e, Config.validate self = Raise e ->
     e = ValueError ("Missing required environment variables: "
                     +:+ join ", " (Config.missing self) +:+ ". "
                     +:+ "Please check your .env file.") /\
     Config.missing self <> [] /\
     forall name, In name (Config.missing self) <->
                  exists value, In (name, value) (Config.required self) /\ value = "").
Proof.
  assert (Hnil : Config.missing self = [] <->
                 Forall (fun p => snd p <> "") (Config.required self)).
  { split.
    - intros Hm. apply List.Forall_forall. intros [n v] Hin Hv. cbn [snd] in Hv. subst v.
      assert (Hn : In n (Config.missing self)) by (apply missing_spec; eauto).
      now rewrite Hm in Hn.
    - intros Hall. destruct (Config.missing self) as [|n ns] eqn:Hm; [reflexivity|].
      assert (Hn : In n (Config.missing self)) by (rewrite Hm; now left).
      apply missing_spec in Hn as (v & Hin & ->).
      exfalso. now apply (proj1 (List.Forall_forall _ _) Hall (n, "") Hin). }
  unfold Config.validate. split.
  - rewrite <- Hnil. destruct (Config.missing self); split; intros H; try reflexivity;
      discriminate.
  - intros e. destruct (Config.missing self) as [|n ns] eqn:Hm; [discriminate|].
    intros [= <-]. split; [reflexivity|]. split; [discriminate|].
    intros name. rewrite <- Hm. apply missing_spec.
Qed.

Lemma validate_names_missing_witness :
  Config.validate More.partial_config
  = Raise (ValueError ("Missing required environment variables: "
                       +:+ join ", " ["AZURE_SPEECH_KEY"; "COSMOS_KEY"] +:+ ". "
                       +:+ "Please check your .env file.")) /\
  (In "COSMOS_KEY" (Config.missing More.partial_config) <->
   exists value, In ("COSMOS_KEY", value) (Config.required More.partial_config) /\ value = "").
Proof.
  destruct (validate_names_missing More.partial_config) as [_ H].
  destruct (H (ValueError ("Missing required environment variables: "
                           +:+ join ", " ["AZURE_SPEECH_KEY"; "COSMOS_KEY"] +:+ ". "
                           +:+ "Please check your .env file.")) eq_refl) as (_ & _ & Hin).
  split; [reflexivity | apply Hin].
Defined.

(** * The search with the logging module as written *)

(** X23.  With the logging module as written [search_similar]
    returns the empty list for every query, also when the client is
    available and the store answers.  The query is sent, but
    [log_info("Vector search complete", returned=...)] raises
    [TypeError] inside the [try] statement, so the results collected
    are dropped and the handler returns the empty list after logging
    "Vector search failed". *)
Theorem search_similar_backend_logger_drops_results
    (self : Cosmos.CosmosDBClient) (q : list Q) (k : Z) (m : Q) (tr : list Cosmos.event) :
  fst (Cosmos.search_similar Logger.backend self q k m tr) = Ok [] /\
  (Cosmos.is_available self = true -> Cosmos.has_documents self = true ->
   snd (Cosmos.search_similar Logger.backend self q k m tr)
   = tr ++ [Cosmos.Queried q k] ++ [Cosmos.Logged "ERROR" "Vector search failed"]).
Proof.
  unfold Cosmos.search_similar. split.
  - destruct (Cosmos.is_available self); [|reflexivity].
    destruct (Cosmos.has_documents self); [|reflexivity].
    cbn [negb]. unfold try_except, mbind at 1.
    destruct (Cosmos.container self) as [c|]; [|reflexivity].
    unfold mbind at 1, Cosmos.emit, modify, lift.
    destruct (Cosmos.query_items c q k); reflexivity.
  - intros Hav Hdocs. rewrite Hav, Hdocs. cbn [negb].
    unfold Cosmos.is_available in Hav.
    destruct (Cosmos.container self) as [c|]; [|now rewrite andb_false_r in Hav].
    unfold try_except, mbind at 1. unfold mbind at 1, Cosmos.emit, modify, lift.
    destruct (Cosmos.query_items c q k); cbn; now rewrite <- app_assoc.
Qed.

Lemma search_similar_backend_logger_drops_results_witness :
  Cosmos.search_similar Logger.backend Spec.connected_client [1%Q] 3 (1 # 2) []
  = (Ok [], [Cosmos.Queried [1%Q] 3; Cosmos.Logged "ERROR" "Vector search failed"]).
Proof.
  destruct (search_similar_backend_logger_drops_results Spec.connected_client [1%Q] 3 (1 # 2) [])
    as [Hfst Hsnd].
  rewrite (surjective_pairing (Cosmos.search_similar _ _ _ _ _ _)).
  rewrite Hfst, (Hsnd eq_refl eq_refl). reflexivity.
Defined.

(** * Deleting a document *)

Section Delete.

Import Cosmos Store More.

Context {Doc Summary : Type}.
Variable L : Logger.Impl.
Variable ops : ContainerOps Doc Summary.
Hypothesis L_accepts : Logger.accepts_kwargs L.

Lemma removed_range (n : nat) (doc_id : string) (chunk_ids : list string) :
  0 <= removed ops n doc_id chunk_ids <= llen chunk_ids.
Proof.
  unfold llen. revert n. induction chunk_ids as [|c rest IH]; intros n; [simpl; lia|].
  cbn [removed length]. specialize (IH (S n)).
  destruct (delete_item ops n c doc_id); lia.
Qed.

Lemma delete_loop (doc_id : string) (chunk_ids : list string) (s : State Doc) (k : Z) :
  container (client s) <> None ->
  for_each (delete_step L ops doc_id) chunk_ids (s, k)
  = (Ok tt, (asked (map (fun c => DeleteItem c doc_id) chunk_ids) s,
             k + removed ops (length (requests s)) doc_id chunk_ids)).
Proof.
  revert s k. induction chunk_ids as [|c rest IH]; intros s k Hc.
  - cbn [for_each removed map]. unfold ret, asked. rewrite app_nil_r, Z.add_0_r.
    now destruct s.
  - destruct (L_accepts "Failed to delete chunk" ["id"]) as (_ & _ & Hwarn & _).
    cbn [for_each removed]. unfold mbind at 1, delete_step at 1.
    unfold try_except, mbind at 1, on_fst, container_call.
    destruct (container (client s)) as [p|] eqn:Hp; [|congruence].
    assert (Hnext : asked (map (fun c => DeleteItem c doc_id) rest)
                          (add_request (DeleteItem c doc_id) s)
                    = asked (map (fun c => DeleteItem c doc_id) (c :: rest)) s).
    { unfold asked, add_request. cbn [client requests map]. now rewrite <- app_assoc. }
    assert (Hlen : length (requests (add_request (DeleteItem (Doc := Doc) c doc_id) s))
                   = S (length (requests s))).
    { unfold add_request. cbn [requests]. rewrite length_app. simpl. lia. }
    destruct (delete_item ops (length (requests s)) c doc_id) as [[]|e].
    + unfold modify. cbn [fst snd].
      rewrite IH by (cbn; congruence). rewrite Hnext, Hlen. do 2 f_equal. lia.
    + unfold lift. rewrite Hwarn.
      rewrite IH by (cbn; congruence). rewrite Hnext, Hlen. do 2 f_equal.
Qed.

End Delete.

(** X24.  [delete_document] counts what the store deleted.  With a
    logger that takes keyword arguments the call never raises.  When
    the client is not available it returns zero and sends nothing.
    When the query for the identifiers fails it returns zero and
    nothing is deleted.  Otherwise it asks once, in the order of the
    query, for the deletion of each identifier, always with the
    document identifier as partition key, goes on after a deletion
    that failed, and returns the number of deletions that succeeded,
    which is at most the number of identifiers. *)
Theorem delete_document_counts_removed {Doc Summary : Type}
    (L : Logger.Impl) (ops : Store.ContainerOps Doc Summary) (doc_id : string)
    (s : Store.State Doc) :
  Logger.accepts_kwargs L ->
  exists n s',
    Store.delete_document L ops doc_id s = (Ok n, s') /\
    Store.client s' = Store.client s /\
    (Cosmos.is_available (Store.client s) = false -> n = 0 /\ s' = s) /\
    (Cosmos.is_available (Store.client s) = true ->
     match Store.ids_query ops (length (Store.requests s)) doc_id with
     | Raise _ =>
         n = 0 /\ Store.requests s' = Store.requests s ++ [Store.IdQuery doc_id]
     | Ok chunk_ids =>
         n = More.removed ops (S (length (Store.requests s))) doc_id chunk_ids /\
         0 <= n <= llen chunk_ids /\
         Store.requests s'
         = Store.requests s ++ Store.IdQuery doc_id
             :: map (fun c => Store.DeleteItem c doc_id) chunk_ids
     end).
Proof.
  intros HL. unfold Store.delete_document, mbind at 1, get_state.
  destruct (HL "Cosmos DB not available for delete" []) as (_ & Hna & _).
  destruct (HL "Failed to delete document" ["doc_id"]) as (_ & Herr & _).
  destruct (HL "Document deleted" ["doc_id"; "chunks_deleted"]) as (Hinfo & _).
  destruct (Cosmos.is_available (Store.client s)) eqn:Hav; cbn [negb].
  - unfold try_except, mbind at 1, Store.container_call.
    assert (Hc : Cosmos.container (Store.client s) <> None).
    { unfold Cosmos.is_available in Hav. destruct (Cosmos.container (Store.client s));
        [discriminate | now rewrite andb_false_r in Hav]. }
    destruct (Cosmos.container (Store.client s)) as [p|] eqn:Hp; [|congruence].
    destruct (Store.ids_query ops (length (Store.requests s)) doc_id) as [chunk_ids|e].
    + unfold mbind at 1, with_local.
      rewrite (delete_loop L ops HL doc_id chunk_ids (Store.add_request (Store.IdQuery doc_id) s) 0)
        by (cbn; congruence).
      unfold mbind, lift, ret. rewrite Hinfo. rewrite Z.add_0_l.
      eexists _, _. split; [reflexivity|]. split; [reflexivity|].
      split; [discriminate|]. intros _.
      assert (Hlen : length (Store.requests (Store.add_request (Store.IdQuery (Doc := Doc) doc_id) s))
                     = S (length (Store.requests s))).
      { unfold Store.add_request. cbn [Store.requests]. rewrite length_app. simpl. lia. }
      rewrite Hlen. split; [reflexivity|]. split; [apply removed_range|].
      cbn [More.asked Store.add_request Store.requests]. now rewrite <- app_assoc.
    + unfold mbind, lift, ret. rewrite Herr.
      eexists _, _. split; [reflexivity|]. split; [reflexivity|].
      split; [discriminate|]. intros _. split; reflexivity.
  - unfold mbind, lift, ret. rewrite Hna. exists 0, s. split; [reflexivity|].
    split; [reflexivity|]. split; [auto | discriminate].
Qed.

Lemma delete_document_counts_removed_witness :
  exists s',
    Store.delete_document Logger.lenient More.picky_container "d" More.available_store
    = (Ok 2, s') /\
    Store.requests s'
    = [Store.IdQuery "d"; Store.DeleteItem "d::0" "d"; Store.DeleteItem "d::1" "d";
       Store.DeleteItem "d::2" "d"].
Proof.
  destruct (delete_document_counts_removed Logger.lenient More.picky_container "d"
              More.available_store lenient_accepts) as (n & s' & Hrun & _ & _ & Hav).
  specialize (Hav eq_refl). cbn in Hav. destruct Hav as (Hn & _ & Hreq).
  exists s'. rewrite Hn in Hrun. split; [exact Hrun | exact Hreq].
Defined.
